(** * nnet3/nnet-training.cc: the minibatch trainer of the nnet3 setup

    A shallow embedding of [NnetTrainer] (constructor, [Train],
    [ProcessOutputs], [PrintTotalStats]), of [ObjectiveFunctionInfo]
    ([UpdateStats], [PrintStatsForThisPhase], [PrintTotalStats]) and of the
    two free functions [ComputeObjectiveFunction] and [ComputeRegularizer],
    followed by the properties of the update rule, of the statistics
    tracker and of the objective dispatch.

    Conventions of the embedding.
    - [BaseFloat] is the extended real line with a NaN, with a single
      zero; the three special values follow the IEEE rules of the
      operations the code uses.  The matrix library and the statistics
      compute on finite values with exact real arithmetic; the scalar
      arithmetic of the update rule in [Train] rounds every result to its
      machine format and overflows to an infinity.
    - [int32] values are integers of [Z]; signed overflow is undefined in
      the source and is not represented.
    - [KALDI_ERR] and a failing [KALDI_ASSERT] terminate the process: the
      embedded function returns [Fatal].  [KALDI_LOG] and [KALDI_WARN]
      append a [LogEvent] to the log that the function returns.
    - The classes the file only uses (matrices, the network container, the
      computation executor) are modelled by what the file asks of them. *)

From Stdlib Require Import Reals Lra Lia ZArith Ascii String.
From stdpp Require Import base decidable option list strings gmap.

Open Scope R_scope.

(** ** BaseFloat *)

Inductive BaseFloat : Type :=
| Fin (r : R)
| PInf
| NInf
| NaN.

#[global] Instance R_eq_decision : EqDecision R := Req_dec_T.
#[global] Instance Rlt_decision : RelDecision Rlt := Rlt_dec.

#[global] Instance BaseFloat_eq_decision : EqDecision BaseFloat.
Proof. solve_decision. Defined.

Definition is_finite (x : BaseFloat) : bool :=
  match x with Fin _ => true | _ => false end.

Definition Fopp (x : BaseFloat) : BaseFloat :=
  match x with
  | Fin a => Fin (- a)
  | PInf => NInf
  | NInf => PInf
  | NaN => NaN
  end.

Definition Fadd (x y : BaseFloat) : BaseFloat :=
  match x, y with
  | NaN, _ | _, NaN => NaN
  | Fin a, Fin b => Fin (a + b)
  | PInf, NInf | NInf, PInf => NaN
  | PInf, _ | _, PInf => PInf
  | NInf, _ | _, NInf => NInf
  end.

Definition Fsub (x y : BaseFloat) : BaseFloat := Fadd x (Fopp y).

(** The infinity with the sign of [a], NaN for [a = 0]. *)
Definition inf_times (pos : bool) (a : R) : BaseFloat :=
  if bool_decide (a = 0) then NaN
  else if bool_decide (0 < a) then (if pos then PInf else NInf)
  else (if pos then NInf else PInf).

Definition Fmul (x y : BaseFloat) : BaseFloat :=
  match x, y with
  | NaN, _ | _, NaN => NaN
  | Fin a, Fin b => Fin (a * b)
  | PInf, Fin a | Fin a, PInf => inf_times true a
  | NInf, Fin a | Fin a, NInf => inf_times false a
  | PInf, PInf | NInf, NInf => PInf
  | PInf, NInf | NInf, PInf => NInf
  end.

Definition Fdiv (x y : BaseFloat) : BaseFloat :=
  match x, y with
  | NaN, _ | _, NaN => NaN
  | Fin a, Fin b =>
      if bool_decide (b = 0) then inf_times true a else Fin (a / b)
  | Fin _, (PInf | NInf) => Fin 0
  | PInf, Fin b => if bool_decide (b < 0) then NInf else PInf
  | NInf, Fin b => if bool_decide (b < 0) then PInf else NInf
  | (PInf | NInf), (PInf | NInf) => NaN
  end.

Definition Fsqrt (x : BaseFloat) : BaseFloat :=
  match x with
  | Fin a => if bool_decide (a < 0) then NaN else Fin (sqrt a)
  | PInf => PInf
  | NInf | NaN => NaN
  end.

Definition Flog (x : BaseFloat) : BaseFloat :=
  match x with
  | Fin a =>
      if bool_decide (a < 0) then NaN
      else if bool_decide (a = 0) then NInf else Fin (ln a)
  | PInf => PInf
  | NInf | NaN => NaN
  end.

Definition Fexp (x : BaseFloat) : BaseFloat :=
  match x with
  | Fin a => Fin (exp a)
  | PInf => PInf
  | NInf => Fin 0
  | NaN => NaN
  end.

(** The comparisons of C++: every comparison with a NaN is false, except
    [!=], which is true. *)
Definition Fgt (x y : BaseFloat) : bool :=
  match x, y with
  | NaN, _ | _, NaN => false
  | Fin a, Fin b => bool_decide (b < a)
  | PInf, (Fin _ | NInf) => true
  | Fin _, NInf => true
  | _, _ => false
  end.

Definition Feq (x y : BaseFloat) : bool :=
  match x, y with
  | Fin a, Fin b => bool_decide (a = b)
  | PInf, PInf | NInf, NInf => true
  | _, _ => false
  end.

Definition Fne (x y : BaseFloat) : bool := negb (Feq x y).

Definition Fge (x y : BaseFloat) : bool := Fgt x y || Feq x y.

Definition Fzero : BaseFloat := Fin 0.
Definition Fone : BaseFloat := Fin 1.

(** Conversion of an [int32] to [BaseFloat]. *)
Definition of_int (z : Z) : BaseFloat := Fin (IZR z).

(** ** Rounding to the machine formats

    [BaseFloat] is [float], the IEEE binary32 format, in the default build
    of the library, and a literal such as [1.0] is a [double], binary64.  An arithmetic operation that
    nnet-training.cc itself performs on such values returns the exact
    result rounded to the format of the operation, to nearest with ties to
    even, and an infinity when the rounded magnitude leaves the format.

    A format is given by its precision [prec], the exponent [emin] of its
    least positive value [2 ^ emin], and the exponent [emax] of the bound
    [2 ^ emax] above its finite values; its finite values are the numbers
    [m * 2 ^ e] with [|m| < 2 ^ prec] and [emin <= e <= emax - prec]. *)

Definition bpow (e : Z) : R := powerRZ 2 e.

Definition Zfloor (x : R) : Z := (up x - 1)%Z.

(** The integer nearest to [x]; of two nearest integers, the even one. *)
Definition round_half_even (x : R) : Z :=
  let f := Zfloor x in
  let d := x - IZR f in
  if bool_decide (d < 1 / 2) then f
  else if bool_decide (1 / 2 < d) then (f + 1)%Z
  else if Z.even f then f else (f + 1)%Z.

Section Format.
Variables prec emin emax : Z.

(** The exponent of the unit in the last place of [x]: the least
    [e >= emin] with [|x| < 2 ^ (e + prec)], and the largest exponent of
    the format when there is none below it. *)
Fixpoint canonical_exponent_from (fuel : nat) (e : Z) (x : R) : Z :=
  match fuel with
  | O => e
  | S fuel =>
      if bool_decide (Rabs x < bpow (e + prec)) then e
      else canonical_exponent_from fuel (e + 1) x
  end.

Definition canonical_exponent (x : R) : Z :=
  canonical_exponent_from (Z.to_nat (emax - prec - emin)) emin x.

Definition round_to_format (x : R) : BaseFloat :=
  let e := canonical_exponent x in
  let v := IZR (round_half_even (x / bpow e)) * bpow e in
  if bool_decide (Rabs v < bpow emax) then Fin v
  else if bool_decide (0 < x) then PInf else NInf.

End Format.

(** The value of [x] as a [float]. *)
Definition to_float (x : BaseFloat) : BaseFloat :=
  match x with
  | Fin r => round_to_format 24 (-149) 128 r
  | _ => x
  end.

(** The value of [x] as a [double]. *)
Definition to_double (x : BaseFloat) : BaseFloat :=
  match x with
  | Fin r => round_to_format 53 (-1074) 1024 r
  | _ => x
  end.

(** ** Fatal errors *)

Inductive result (A : Type) : Type :=
| Ok (a : A)
| Fatal (msg : string).
Arguments Ok {A} a.
Arguments Fatal {A} msg.

#[global] Instance result_ret : MRet result := fun A a => Ok a.
#[global] Instance result_bind : MBind result := fun A B k m =>
  match m with
  | Ok a => k a
  | Fatal msg => Fatal msg
  end.

#[global] Instance result_fmap : FMap result := fun A B f m =>
  match m with
  | Ok a => Ok (f a)
  | Fatal msg => Fatal msg
  end.

Definition KALDI_ASSERT (cond : bool) : result unit :=
  if cond then Ok tt else Fatal "KALDI_ASSERT failed".

(** ** Vectors and matrices

    The matrix library is not part of this file; a matrix is the list of
    its rows, and each operation is modelled by the value it computes.  The
    library asserts that the shapes of its operands agree: an operation on
    operands of different shapes is [Fatal]. *)

Abbreviation Vector := (list BaseFloat).
Abbreviation Matrix := (list (list BaseFloat)).

Definition VecSum (v : Vector) : BaseFloat := foldr Fadd Fzero v.

Definition VecVec (u v : Vector) : BaseFloat := VecSum (zip_with Fmul u v).

Definition NumRows (M : Matrix) : nat := length M.

Definition NumCols (M : Matrix) : nat :=
  match M with
  | [] => 0%nat
  | r :: _ => length r
  end.

(** The shape of a matrix: the lengths of its rows. *)
Definition shape (M : Matrix) : list nat := map length M.

Definition same_shape (A B : Matrix) : bool :=
  bool_decide (shape A = shape B).

Definition NewMatrix (rows cols : nat) (x : BaseFloat) : Matrix :=
  replicate rows (replicate cols x).

Definition mat_map (f : BaseFloat -> BaseFloat) (M : Matrix) : Matrix :=
  map (map f) M.

Definition mat_zip (f : BaseFloat -> BaseFloat -> BaseFloat)
    (A B : Matrix) : Matrix :=
  zip_with (zip_with f) A B.

(** [M.Sum()] *)
Definition Sum (M : Matrix) : BaseFloat := VecSum (map VecSum M).

(** [M.Set(x)] *)
Definition SetMat (x : BaseFloat) (M : Matrix) : Matrix :=
  mat_map (fun _ => x) M.

(** [M.Scale(alpha)] *)
Definition Scale (alpha : BaseFloat) (M : Matrix) : Matrix :=
  mat_map (Fmul alpha) M.

Definition ApplyLog (M : Matrix) : Matrix := mat_map Flog M.
Definition ApplyExp (M : Matrix) : Matrix := mat_map Fexp M.

(** [dest.CopyFromMat(src)] *)
Definition CopyFromMat (dest src : Matrix) : result Matrix :=
  if same_shape dest src then Ok src
  else Fatal "CopyFromMat: dimension mismatch".

(** [dest.AddMat(alpha, src)]: [dest += alpha * src] *)
Definition AddMat (alpha : BaseFloat) (src dest : Matrix) : result Matrix :=
  if same_shape dest src
  then Ok (mat_zip (fun d s => Fadd d (Fmul alpha s)) dest src)
  else Fatal "AddMat: dimension mismatch".

(** [dest.DivElements(src)] *)
Definition DivElements (dest src : Matrix) : result Matrix :=
  if same_shape dest src then Ok (mat_zip Fdiv dest src)
  else Fatal "DivElements: dimension mismatch".

(** [TraceMatMat(A, B, kTrans)]: the sum of [A(i,j) * B(i,j)]. *)
Definition TraceMatMat (A B : Matrix) : result BaseFloat :=
  if same_shape A B then Ok (VecSum (zip_with VecVec A B))
  else Fatal "TraceMatMat: dimension mismatch".

(** [M.MulRowsVec(v)]: row [i] is multiplied by [v(i)]. *)
Definition MulRowsVec (v : Vector) (M : Matrix) : result Matrix :=
  if bool_decide (length v = NumRows M)
  then Ok (zip_with (fun s row => map (Fmul s) row) v M)
  else Fatal "MulRowsVec: dimension mismatch".

(** *** Sparse matrices

    A sparse row has a dimension and the pairs (column, value) it stores;
    the class keeps the columns distinct and below the dimension
    ([SparseVector_wf]). *)

Record SparseVector : Type := mkSparseVector {
  sv_dim : nat;
  sv_pairs : list (nat * BaseFloat)
}.

Abbreviation SparseMatrix := (list SparseVector).



Definition SparseVector_Sum (sv : SparseVector) : BaseFloat :=
  VecSum (sv_pairs sv).*2.

(** [CuSparseMatrix::Sum()] *)
Definition SparseMatrix_Sum (smat : SparseMatrix) : BaseFloat :=
  VecSum (map SparseVector_Sum smat).

(** [SparseVector::CopyElementsToVec]: the row is zeroed, then every stored
    pair is written at its column. *)
Definition write_pair (acc : Vector) (p : nat * BaseFloat) : Vector :=
  <[p.1 := p.2]> acc.

Definition SparseVector_ToVec (sv : SparseVector) : Vector :=
  foldl write_pair (replicate (sv_dim sv) Fzero) (sv_pairs sv).

Definition SparseMatrix_ToMat (smat : SparseMatrix) : Matrix :=
  map SparseVector_ToVec smat.

Definition SparseMatrix_shape (smat : SparseMatrix) : list nat := map sv_dim smat.

(** [smat.CopyToMat(dest)] *)
Definition SparseMatrix_CopyToMat (smat : SparseMatrix) (dest : Matrix)
    : result Matrix :=
  if bool_decide (shape dest = SparseMatrix_shape smat)
  then Ok (SparseMatrix_ToMat smat)
  else Fatal "CopyToMat: dimension mismatch".

(** The product of a dense row with a sparse row: only the stored pairs are
    visited. *)
Definition VecSvec (row : Vector) (sv : SparseVector) : BaseFloat :=
  VecSum (map (fun p => Fmul (default Fzero (row !! p.1)) p.2) (sv_pairs sv)).

(** [TraceMatSmat(A, S, kTrans)] *)
Definition TraceMatSmat (A : Matrix) (smat : SparseMatrix)
    : result BaseFloat :=
  if bool_decide (shape A = SparseMatrix_shape smat)
  then Ok (VecSum (zip_with VecSvec A smat))
  else Fatal "TraceMatSmat: dimension mismatch".

(** *** Compressed matrices and GeneralMatrix

    The compressed format is opaque to this file: all it asks of a
    compressed matrix is the dense matrix it decodes to. *)

Class Compression : Type := {
  CompressedMatrix : Type;
  Uncompress : CompressedMatrix -> Matrix
}.

Inductive GeneralMatrixType : Type :=
| kFullMatrix
| kCompressedMatrix
| kSparseMatrix.

Inductive GeneralMatrix `{Compression} : Type :=
| GFull (mat : Matrix)
| GCompressed (cmat : CompressedMatrix)
| GSparse (smat : SparseMatrix).

Section GeneralMatrixOps.
Context `{Compression}.

Definition GeneralMatrix_Type (g : GeneralMatrix) : GeneralMatrixType :=
  match g with
  | GFull _ => kFullMatrix
  | GCompressed _ => kCompressedMatrix
  | GSparse _ => kSparseMatrix
  end.

(** [g.GetMatrix(&mat)]: the dense values, whatever the encoding. *)
Definition GetMatrix (g : GeneralMatrix) : Matrix :=
  match g with
  | GFull mat => mat
  | GCompressed cmat => Uncompress cmat
  | GSparse smat => SparseMatrix_ToMat smat
  end.

Definition GeneralMatrix_shape (g : GeneralMatrix) : list nat :=
  match g with
  | GSparse smat => SparseMatrix_shape smat
  | _ => shape (GetMatrix g)
  end.

Definition GeneralMatrix_NumRows (g : GeneralMatrix) : nat :=
  length (GeneralMatrix_shape g).

Definition GeneralMatrix_NumCols (g : GeneralMatrix) : nat :=
  match GeneralMatrix_shape g with
  | [] => 0%nat
  | c :: _ => c
  end.

(** [g.CopyToMat(dest)] and [dest.CopyFromGeneralMat(g)] *)
Definition CopyFromGeneralMat (dest : Matrix) (g : GeneralMatrix)
    : result Matrix :=
  if bool_decide (shape dest = GeneralMatrix_shape g)
  then Ok (GetMatrix g)
  else Fatal "CopyFromGeneralMat: dimension mismatch".

End GeneralMatrixOps.

(** ** Objective functions *)

(** The objective kinds; [kUnhandledObjective] stands for any other value
    of the enumeration, the [default] branch of the two dispatches. *)
Inductive ObjectiveType : Type :=
| kLinear
| kQuadratic
| kCrossEntropy
| kUnhandledObjective.

#[global] Instance ObjectiveType_eq_decision : EqDecision ObjectiveType.
Proof. solve_decision. Defined.

(** What a call leaves in [*tot_weight], [*tot_objf] and [*output_deriv]. *)
Record ObjfResult : Type := mkObjfResult {
  res_tot_weight : BaseFloat;
  res_tot_objf : BaseFloat;
  res_output_deriv : option Matrix
}.

Section Objective.
Context `{Compression}.

(** The [kCrossEntropy] branch: objective [x log y + (1-x) log (1-y)]. *)
Definition CrossEntropyObjective (supervision : GeneralMatrix)
    (output : Matrix) (output_deriv : option Matrix) : result ObjfResult :=
  cu_post ← CopyFromGeneralMat
    (NewMatrix (GeneralMatrix_NumRows supervision)
               (GeneralMatrix_NumCols supervision) Fzero) supervision;
  let n_cu_post := SetMat Fone (NewMatrix (NumRows cu_post) (NumCols cu_post) Fzero) in
  n_cu_post ← AddMat (Fin (-1)) cu_post n_cu_post;
  let log_prob := ApplyLog output in
  let n_output := SetMat Fone (NewMatrix (NumRows output) (NumCols output) Fzero) in
  n_output ← AddMat (Fin (-1)) output n_output;
  let n_output := ApplyLog n_output in
  let tot_weight := Fin (INR (NumRows cu_post * NumCols cu_post)) in
  t1 ← TraceMatMat log_prob cu_post;
  t2 ← TraceMatMat n_output n_cu_post;
  let tot_objf := Fadd t1 t2 in
  match output_deriv with
  | Some deriv =>
      let n_output := ApplyExp n_output in
      n_cu_post ← DivElements n_cu_post n_output;
      let log_prob := ApplyExp log_prob in
      cu_post ← DivElements cu_post log_prob;
      deriv ← CopyFromMat deriv cu_post;
      deriv ← AddMat (Fin (-1)) n_cu_post deriv;
      Ok (mkObjfResult tot_weight tot_objf (Some deriv))
  | None => Ok (mkObjfResult tot_weight tot_objf None)
  end.

(** The [kLinear] branch: objective [x * y], one path per encoding of the
    supervision. *)
Definition LinearObjective (supervision : GeneralMatrix)
    (output : Matrix) (output_deriv : option Matrix) : result ObjfResult :=
  match supervision with
  | GSparse post =>
      let cu_post := post in
      let tot_weight := SparseMatrix_Sum cu_post in
      tot_objf ← TraceMatSmat output cu_post;
      match output_deriv with
      | Some deriv =>
          deriv ← SparseMatrix_CopyToMat cu_post deriv;
          Ok (mkObjfResult tot_weight tot_objf (Some deriv))
      | None => Ok (mkObjfResult tot_weight tot_objf None)
      end
  | GFull mat =>
      match output_deriv with
      | Some deriv =>
          cu_post ← CopyFromGeneralMat deriv supervision;
          let tot_weight := Sum cu_post in
          tot_objf ← TraceMatMat output cu_post;
          Ok (mkObjfResult tot_weight tot_objf (Some cu_post))
      | None =>
          let cu_post := mat in
          let tot_weight := Sum cu_post in
          tot_objf ← TraceMatMat output cu_post;
          Ok (mkObjfResult tot_weight tot_objf None)
      end
  | GCompressed _ =>
      let post := GetMatrix supervision in
      match output_deriv with
      | Some deriv =>
          cu_post ← CopyFromMat deriv post;
          let tot_weight := Sum cu_post in
          tot_objf ← TraceMatMat output cu_post;
          Ok (mkObjfResult tot_weight tot_objf (Some cu_post))
      | None =>
          let cu_post := post in
          let tot_weight := Sum cu_post in
          tot_objf ← TraceMatMat output cu_post;
          Ok (mkObjfResult tot_weight tot_objf None)
      end
  end.

(** The [kQuadratic] branch: objective [-0.5 (x - y)^2]. *)
Definition QuadraticObjective (supervision : GeneralMatrix)
    (output : Matrix) (output_deriv : option Matrix) : result ObjfResult :=
  match output_deriv with
  | Some deriv =>
      diff ← CopyFromGeneralMat deriv supervision;
      diff ← AddMat (Fin (-1)) output diff;
      let tot_weight := Fin (INR (NumRows diff)) in
      tr ← TraceMatMat diff diff;
      Ok (mkObjfResult tot_weight (Fmul (Fin (-1/2)) tr) (Some diff))
  | None =>
      diff ← CopyFromGeneralMat
        (NewMatrix (GeneralMatrix_NumRows supervision)
                   (GeneralMatrix_NumCols supervision) Fzero) supervision;
      diff ← AddMat (Fin (-1)) output diff;
      let tot_weight := Fin (INR (NumRows diff)) in
      tr ← TraceMatMat diff diff;
      Ok (mkObjfResult tot_weight (Fmul (Fin (-1/2)) tr) None)
  end.

Definition ComputeObjectiveFunction (supervision : GeneralMatrix)
    (objective_type : ObjectiveType) (output_name : string)
    (output : Matrix) (output_deriv : option Matrix) : result ObjfResult :=
  if bool_decide (NumCols output ≠ GeneralMatrix_NumCols supervision)
  then Fatal "Nnet versus example output dimension (num-classes) mismatch"
  else
    match objective_type with
    | kCrossEntropy => CrossEntropyObjective supervision output output_deriv
    | kLinear => LinearObjective supervision output output_deriv
    | kQuadratic => QuadraticObjective supervision output output_deriv
    | kUnhandledObjective => Fatal "Objective function type not handled."
    end.

End Objective.

Definition ComputeRegularizer (objective_type : ObjectiveType)
    (output_name : string) (output : Matrix) (output_deriv : option Matrix)
    : result ObjfResult :=
  match objective_type with
  | kLinear =>
      (* objective is x *)
      let tot_weight := Fin (INR (NumRows output)) in
      let tot_objf := Sum output in
      Ok (mkObjfResult tot_weight tot_objf (SetMat Fone <$> output_deriv))
  | kQuadratic =>
      (* objective is -0.5 x^2 *)
      let tot_weight := Fin (INR (NumRows output)) in
      tr ← TraceMatMat output output;
      let tot_objf := Fmul (Fin (-1/2)) tr in
      match output_deriv with
      | Some deriv =>
          deriv ← CopyFromMat deriv output;
          Ok (mkObjfResult tot_weight tot_objf (Some (Scale Fone deriv)))
      | None => Ok (mkObjfResult tot_weight tot_objf None)
      end
  | _ => Fatal "Regularizer objective function type not handled."
  end.

(** ** Log output

    One constructor per message of the file, carrying the values the
    message prints. *)
Inductive LogEvent : Type :=
| LogPhaseStats (output_name : string) (start_minibatch end_minibatch : Z)
    (objf frames : BaseFloat)
| LogPhaseStatsAux (output_name : string) (start_minibatch end_minibatch : Z)
    (objf aux_objf sum_objf frames : BaseFloat)
| LogTotalStats (name : string) (objf frames : BaseFloat)
| LogTotalStatsAux (name : string) (objf aux_objf sum_objf frames : BaseFloat)
| LogProbPerFrame (objf : BaseFloat)
| WarnInfiniteParameterChange
| LogParameterChangeTooBig (param_delta max_param_change factor : BaseFloat).

(** ** ObjectiveFunctionInfo *)

Record ObjectiveFunctionInfo : Type := mkObjectiveFunctionInfo {
  current_phase : Z;
  tot_weight : BaseFloat;
  tot_objf : BaseFloat;
  tot_aux_objf : BaseFloat;
  tot_weight_this_phase : BaseFloat;
  tot_objf_this_phase : BaseFloat;
  tot_aux_objf_this_phase : BaseFloat
}.

(** Modelled from the spec: the default constructor of the class, declared
    in the header; a record is created on the first update of its output
    and starts in phase 0 with every total at zero. *)
Definition ObjectiveFunctionInfo_new : ObjectiveFunctionInfo :=
  mkObjectiveFunctionInfo 0 Fzero Fzero Fzero Fzero Fzero Fzero.

Definition PrintStatsForThisPhase (info : ObjectiveFunctionInfo)
    (output_name : string) (minibatches_per_phase : Z) : list LogEvent :=
  let start_minibatch := (current_phase info * minibatches_per_phase)%Z in
  let end_minibatch := (start_minibatch + minibatches_per_phase - 1)%Z in
  if Feq (tot_aux_objf_this_phase info) Fzero then
    [LogPhaseStats output_name start_minibatch end_minibatch
       (Fdiv (tot_objf_this_phase info) (tot_weight_this_phase info))
       (tot_weight_this_phase info)]
  else
    let objf := Fdiv (tot_objf_this_phase info) (tot_weight_this_phase info) in
    let aux_objf :=
      Fdiv (tot_aux_objf_this_phase info) (tot_weight_this_phase info) in
    let sum_objf := Fadd objf aux_objf in
    [LogPhaseStatsAux output_name start_minibatch end_minibatch
       objf aux_objf sum_objf (tot_weight_this_phase info)].

(** [UpdateStats]; the integer division by a zero [minibatches_per_phase]
    is undefined in the source and modelled as fatal. *)
Definition UpdateStats (info : ObjectiveFunctionInfo) (output_name : string)
    (minibatches_per_phase minibatch_counter : Z)
    (this_minibatch_weight this_minibatch_tot_objf
     this_minibatch_tot_aux_objf : BaseFloat)
    : result (ObjectiveFunctionInfo * list LogEvent) :=
  if bool_decide (minibatches_per_phase = 0%Z)
  then Fatal "integer division by zero"
  else
    let phase := (minibatch_counter ÷ minibatches_per_phase)%Z in
    '(info, log) ←
      (if bool_decide (phase ≠ current_phase info) then
         _ ← KALDI_ASSERT (bool_decide (phase = current_phase info + 1)%Z);
         let log := PrintStatsForThisPhase info output_name
                      minibatches_per_phase in
         Ok (mkObjectiveFunctionInfo phase
               (tot_weight info) (tot_objf info) (tot_aux_objf info)
               Fzero Fzero Fzero, log)
       else Ok (info, []));
    Ok (mkObjectiveFunctionInfo (current_phase info)
          (Fadd (tot_weight info) this_minibatch_weight)
          (Fadd (tot_objf info) this_minibatch_tot_objf)
          (Fadd (tot_aux_objf info) this_minibatch_tot_aux_objf)
          (Fadd (tot_weight_this_phase info) this_minibatch_weight)
          (Fadd (tot_objf_this_phase info) this_minibatch_tot_objf)
          (Fadd (tot_aux_objf_this_phase info) this_minibatch_tot_aux_objf),
        log).

(** [ObjectiveFunctionInfo::PrintTotalStats]: the messages and the value
    returned. *)
Definition Info_PrintTotalStats (info : ObjectiveFunctionInfo)
    (name : string) : list LogEvent * bool :=
  let objf := Fdiv (tot_objf info) (tot_weight info) in
  let aux_objf := Fdiv (tot_aux_objf info) (tot_weight info) in
  let sum_objf := Fadd objf aux_objf in
  let report :=
    if Feq (tot_aux_objf info) Fzero
    then LogTotalStats name (Fdiv (tot_objf info) (tot_weight info))
           (tot_weight info)
    else LogTotalStatsAux name objf aux_objf sum_objf (tot_weight info) in
  ([report; LogProbPerFrame objf], Fne (tot_weight info) Fzero).

(** ** The network and the examples *)

Record NetworkNode : Type := mkNetworkNode {
  node_name : string;
  node_is_output : bool;
  node_objective_type : ObjectiveType
}.

(** Modelled from the spec: the network container, declared elsewhere; it
    owns named nodes, each tagged as an output with an objective kind or
    not, the parameters (here the vector of all of them) and the
    statistics of its components. *)
Record Nnet : Type := mkNnet {
  nodes : list NetworkNode;
  params : Vector;
  component_stats : Vector
}.

Fixpoint find_node (name : string) (l : list NetworkNode) (i : Z) : Z :=
  match l with
  | [] => (-1)%Z
  | n :: l' =>
      if bool_decide (node_name n = name) then i
      else find_node name l' (i + 1)%Z
  end.

(** [nnet.GetNodeIndex(name)]: the index of the node, or -1. *)
Definition GetNodeIndex (nnet : Nnet) (name : string) : Z :=
  find_node name (nodes nnet) 0.

Definition GetNode (nnet : Nnet) (node_index : Z) : option NetworkNode :=
  if bool_decide (0 ≤ node_index)%Z
  then nodes nnet !! Z.to_nat node_index else None.

Definition IsOutputNode (nnet : Nnet) (node_index : Z) : bool :=
  match GetNode nnet node_index with
  | Some n => node_is_output n
  | None => false
  end.

(** [nnet.GetNode(node_index).u.objective_type] *)
Definition GetObjectiveType (nnet : Nnet) (node_index : Z) : ObjectiveType :=
  match GetNode nnet node_index with
  | Some n => node_objective_type n
  | None => kUnhandledObjective
  end.

(** Modelled from the spec: the helpers of nnet-utils on the parameters of
    a network: zero, scale, add a scaled copy, dot product. *)
Definition SetZero (is_gradient : bool) (nnet : Nnet) : Nnet :=
  mkNnet (nodes nnet) (map (fun _ => Fzero) (params nnet))
         (component_stats nnet).

Definition ScaleNnet (scale : BaseFloat) (nnet : Nnet) : Nnet :=
  mkNnet (nodes nnet) (map (Fmul scale) (params nnet)) (component_stats nnet).

(** [AddNnet(src, alpha, dest)]: [dest += alpha * src] *)
Definition AddNnet (src : Nnet) (alpha : BaseFloat) (dest : Nnet) : Nnet :=
  mkNnet (nodes dest)
         (zip_with (fun d s => Fadd d (Fmul alpha s)) (params dest) (params src))
         (component_stats dest).

(** Modelled from the spec: [DotProduct] of nnet-utils returns a
    [BaseFloat], here the sum of the products rounded once to [float]. *)
Definition DotProduct (nnet1 nnet2 : Nnet) : BaseFloat :=
  to_float (VecVec (params nnet1) (params nnet2)).

Definition ZeroComponentStats (nnet : Nnet) : Nnet :=
  mkNnet (nodes nnet) (params nnet) (map (fun _ => Fzero) (component_stats nnet)).

Section Examples.
Context `{Compression}.

Record NnetIo : Type := mkNnetIo {
  io_name : string;
  io_features : GeneralMatrix;
  io_deriv_weights : Vector
}.

Record NnetExample : Type := mkNnetExample {
  eg_io : list NnetIo
}.

End Examples.

(** ** NnetTrainer *)

Record NnetTrainerOptions : Type := mkNnetTrainerOptions {
  zero_component_stats : bool;
  store_component_stats : bool;
  print_interval : Z;
  momentum : BaseFloat;
  max_param_change : BaseFloat;
  apply_deriv_weights : bool;
  add_regularizer : bool;
  objective_scales_str : string
}.

Record NnetTrainer : Type := mkNnetTrainer {
  config_ : NnetTrainerOptions;
  nnet_ : Nnet;
  delta_nnet_ : option Nnet;
  num_minibatches_processed_ : Z;
  objf_info_ : gmap string ObjectiveFunctionInfo;
  objective_scales_ : gmap string BaseFloat
}.

(** Modelled from the spec: [SplitStringToVector(full, ":", false, &out)] of
    the text utilities, the colon-delimited tokens of the string, empty
    ones kept. *)
Fixpoint SplitStringToVector (full : string) : list string :=
  match full with
  | EmptyString => [EmptyString]
  | String c rest =>
      if bool_decide (c = ":"%char) then EmptyString :: SplitStringToVector rest
      else
        match SplitStringToVector rest with
        | tok :: toks => String c tok :: toks
        | [] => [String c EmptyString]
        end
  end.

(** The text-to-number conversion of the text utilities. *)
Class RealParser : Type := {
  ConvertStringToReal : string -> option BaseFloat
}.

Section Trainer.
Context `{Compression} `{RealParser}.

(** The computation executor, as far as the trainer uses it: the output of
    the forward pass for a node name, and the parameter derivative that the
    backward pass adds to the network it writes to, computed from the
    network, the example and the output derivatives it was given. *)
Class Executor : Type := {
  ForwardOutput : Nnet -> NnetExample -> string -> Matrix;
  BackwardDeriv : Nnet -> NnetExample -> list (string * Matrix) -> Vector;
  BackwardDeriv_length : forall nnet eg derivs,
    length (BackwardDeriv nnet eg derivs) = length (params nnet)
}.
Context `{Executor}.

Record NnetComputer : Type := mkNnetComputer {
  computer_nnet : Nnet;
  computer_eg : NnetExample;
  computer_output_derivs : list (string * Matrix)
}.

Definition GetOutput (computer : NnetComputer) (name : string) : Matrix :=
  ForwardOutput (computer_nnet computer) (computer_eg computer) name.

Definition AcceptOutputDeriv (computer : NnetComputer) (name : string)
    (deriv : Matrix) : NnetComputer :=
  mkNnetComputer (computer_nnet computer) (computer_eg computer)
    (computer_output_derivs computer ++ [(name, deriv)]).

(** [computer.Backward()], on the network it writes to. *)
Definition Backward (computer : NnetComputer) (nnet_to_update : Nnet) : Nnet :=
  mkNnet (nodes nnet_to_update)
    (zip_with Fadd (params nnet_to_update)
       (BackwardDeriv (computer_nnet computer) (computer_eg computer)
          (computer_output_derivs computer)))
    (component_stats nnet_to_update).

Fixpoint parse_objective_scales (objective_scales : list string)
    (scales : gmap string BaseFloat) : result (gmap string BaseFloat) :=
  match objective_scales with
  | output_name :: value :: rest =>
      match ConvertStringToReal value with
      | Some scale => parse_objective_scales rest (<[output_name := scale]> scales)
      | None => Fatal "Could not convert objective-scale to float."
      end
  | _ => Ok scales
  end.

(** The constructor.  The network it returns in [nnet_] is the caller's,
    after the optional zeroing of the component statistics. *)
Definition NnetTrainer_new (config : NnetTrainerOptions) (nnet : Nnet)
    : result NnetTrainer :=
  let nnet := if zero_component_stats config
              then ZeroComponentStats nnet else nnet in
  delta_nnet ←
    (if Feq (momentum config) Fzero && Feq (max_param_change config) Fzero
     then Ok None
     else
       _ ← KALDI_ASSERT (Fge (momentum config) Fzero &&
                         Fge (max_param_change config) Fzero);
       Ok (Some (SetZero false nnet)));
  objective_scales ←
    (if bool_decide (objective_scales_str config = EmptyString) then Ok ∅
     else
       let objective_scales :=
         SplitStringToVector (objective_scales_str config) in
       if bool_decide (length objective_scales `mod` 2 ≠ 0)%nat
       then Fatal "Incorrect format for objective-scales-str"
       else parse_objective_scales objective_scales ∅);
  Ok (mkNnetTrainer config nnet delta_nnet 0 ∅ objective_scales).

(** What [ProcessOutputs] changes: the trainer (statistics and minibatch
    counter), the computer (the output derivatives it was given) and the
    log. *)
Record ProcessState : Type := mkProcessState {
  ps_trainer : NnetTrainer;
  ps_computer : NnetComputer;
  ps_log : list LogEvent
}.

(** [objf_info_[name].UpdateStats(name, config_.print_interval,
    num_minibatches_processed_++, tot_weight, tot_objf)] *)
Definition update_stats (st : ProcessState) (name : string)
    (this_weight this_objf : BaseFloat) : result ProcessState :=
  let t := ps_trainer st in
  let info := default ObjectiveFunctionInfo_new (objf_info_ t !! name) in
  '(info, log) ← UpdateStats info name (print_interval (config_ t))
                   (num_minibatches_processed_ t) this_weight this_objf Fzero;
  Ok (mkProcessState
        (mkNnetTrainer (config_ t) (nnet_ t) (delta_nnet_ t)
           (num_minibatches_processed_ t + 1)%Z
           (<[name := info]> (objf_info_ t)) (objective_scales_ t))
        (ps_computer st) (ps_log st ++ log)).

(** The treatment of a computed output derivative: the derivative weights
    of the example, the scale, then [AcceptOutputDeriv]. *)
Definition accept_deriv (t : NnetTrainer) (computer : NnetComputer)
    (io : NnetIo) (name : string) (scale : BaseFloat) (deriv : Matrix)
    : result NnetComputer :=
  deriv ←
    (if apply_deriv_weights (config_ t) &&
        bool_decide (length (io_deriv_weights io) ≠ 0%nat)
     then MulRowsVec (io_deriv_weights io) deriv
     else Ok deriv);
  let deriv := if Fne scale Fone then Scale scale deriv else deriv in
  Ok (AcceptOutputDeriv computer name deriv).

(** The regularizer part of the loop body, for the output [io] whose
    objective kind is [obj_type] and whose scale is [scale]. *)
Definition process_regularizer (io : NnetIo) (obj_type : ObjectiveType)
    (scale : BaseFloat) (st : ProcessState) : result ProcessState :=
  let t := ps_trainer st in
  if add_regularizer (config_ t) then
    let reg_name := io_name io +:+ "-reg" in
    let reg_node_index := GetNodeIndex (nnet_ t) reg_name in
    if bool_decide (0 ≤ reg_node_index)%Z then
      _ ← KALDI_ASSERT (IsOutputNode (nnet_ t) reg_node_index);
      let regularizer_scale :=
        match objective_scales_ t !! reg_name with
        | Some s => s
        | None => Fone
        end in
      let supply_deriv := true in
      let reg_output := GetOutput (ps_computer st) reg_name in
      let reg_output_deriv :=
        NewMatrix (NumRows reg_output) (NumCols reg_output) Fzero in
      r ← ComputeRegularizer obj_type reg_name reg_output
            (if supply_deriv then Some reg_output_deriv else None);
      let tot_reg_weight := res_tot_weight r in
      let tot_reg_objf := Fmul (res_tot_objf r) scale in
      computer ←
        match res_output_deriv r with
        | Some reg_output_deriv =>
            accept_deriv t (ps_computer st) io reg_name regularizer_scale
              reg_output_deriv
        | None => Ok (ps_computer st)
        end;
      update_stats (mkProcessState t computer (ps_log st)) reg_name
        tot_reg_weight tot_reg_objf
    else Ok st
  else Ok st.

(** The body of the loop of [ProcessOutputs], for one entry of the
    example. *)
Definition process_io (io : NnetIo) (st : ProcessState) : result ProcessState :=
  let t := ps_trainer st in
  let node_index := GetNodeIndex (nnet_ t) (io_name io) in
  _ ← KALDI_ASSERT (bool_decide (0 ≤ node_index)%Z);
  if IsOutputNode (nnet_ t) node_index then
    let obj_type := GetObjectiveType (nnet_ t) node_index in
    let scale :=
      match objective_scales_ t !! io_name io with
      | Some s => s
      | None => Fone
      end in
    let supply_deriv := true in
    let nnet_output := GetOutput (ps_computer st) (io_name io) in
    let nnet_output_deriv :=
      NewMatrix (NumRows nnet_output) (NumCols nnet_output) Fzero in
    r ← ComputeObjectiveFunction (io_features io) obj_type (io_name io)
          nnet_output (if supply_deriv then Some nnet_output_deriv else None);
    let tot_weight := res_tot_weight r in
    let tot_objf := Fmul (res_tot_objf r) scale in
    computer ←
      match res_output_deriv r with
      | Some nnet_output_deriv =>
          accept_deriv t (ps_computer st) io (io_name io) scale
            nnet_output_deriv
      | None => Ok (ps_computer st)
      end;
    st ← update_stats (mkProcessState t computer (ps_log st)) (io_name io)
           tot_weight tot_objf;
    process_regularizer io obj_type scale st
  else Ok st.

Fixpoint process_ios (ios : list NnetIo) (st : ProcessState)
    : result ProcessState :=
  match ios with
  | [] => Ok st
  | io :: rest => st ← process_io io st; process_ios rest st
  end.

Definition ProcessOutputs (t : NnetTrainer) (eg : NnetExample)
    (computer : NnetComputer) : result ProcessState :=
  process_ios (eg_io eg) (mkProcessState t computer []).

(** [BaseFloat scale = (1.0 - config_.momentum)]: the literal is a
    [double], so the subtraction is a [double] one, and its result is
    stored in a [float]. *)
Definition update_scale (config : NnetTrainerOptions) : BaseFloat :=
  to_float (to_double (Fsub Fone (momentum config))).

(** The norm of the pending change, [std::sqrt(DotProduct(...)) * scale]
    on the delta network, each operation a [float] one. *)
Definition param_delta_of (config : NnetTrainerOptions) (delta_nnet : Nnet)
    : BaseFloat :=
  to_float (Fmul (to_float (Fsqrt (DotProduct delta_nnet delta_nnet)))
                 (update_scale config)).

(** [config_.max_param_change / param_delta], a [float] division. *)
Definition clip_factor (config : NnetTrainerOptions) (param_delta : BaseFloat)
    : BaseFloat :=
  to_float (Fdiv (max_param_change config) param_delta).

(** The update rule at the end of [Train], for the trainer that holds
    [delta_nnet] after the backward pass: the new [nnet_], the new
    [delta_nnet_] and the messages. *)
Definition update_rule (config : NnetTrainerOptions) (nnet delta_nnet : Nnet)
    : Nnet * Nnet * list LogEvent :=
  let scale := update_scale config in
  let '(scale, delta_nnet, log) :=
    if Fne (max_param_change config) Fzero then
      let param_delta := param_delta_of config delta_nnet in
      if Fgt param_delta (max_param_change config) then
        if Fne (to_float (Fsub param_delta param_delta)) Fzero then
          (scale, SetZero false delta_nnet, [WarnInfiniteParameterChange])
        else
          (to_float (Fmul scale (clip_factor config param_delta)),
           delta_nnet,
           [LogParameterChangeTooBig param_delta (max_param_change config)
              (clip_factor config param_delta)])
      else (scale, delta_nnet, [])
    else (scale, delta_nnet, []) in
  let nnet := AddNnet delta_nnet scale nnet in
  let delta_nnet := ScaleNnet (momentum config) delta_nnet in
  (nnet, delta_nnet, log).

Definition Train (t : NnetTrainer) (eg : NnetExample)
    : result (NnetTrainer * list LogEvent) :=
  let computer := mkNnetComputer (nnet_ t) eg [] in
  st ← ProcessOutputs t eg computer;
  let t := ps_trainer st in
  match delta_nnet_ t with
  | None =>
      let nnet := Backward (ps_computer st) (nnet_ t) in
      Ok (mkNnetTrainer (config_ t) nnet None
            (num_minibatches_processed_ t) (objf_info_ t)
            (objective_scales_ t),
          ps_log st)
  | Some delta_nnet =>
      let delta_nnet := Backward (ps_computer st) delta_nnet in
      let '(nnet, delta_nnet, log) :=
        update_rule (config_ t) (nnet_ t) delta_nnet in
      Ok (mkNnetTrainer (config_ t) nnet (Some delta_nnet)
            (num_minibatches_processed_ t) (objf_info_ t)
            (objective_scales_ t),
          ps_log st ++ log)
  end.

(** [NnetTrainer::PrintTotalStats] over the entries of [objf_info_] in the
    order the iteration visits them; [||] evaluates its right operand only
    when [ans] is false. *)
Fixpoint PrintTotalStats_loop (entries : list (string * ObjectiveFunctionInfo))
    (ans : bool) : list LogEvent * bool :=
  match entries with
  | [] => ([], ans)
  | (name, info) :: rest =>
      let '(log, ans) :=
        if ans then ([], true) else Info_PrintTotalStats info name in
      let '(log', ans) := PrintTotalStats_loop rest ans in
      (log ++ log', ans)
  end.

Definition PrintTotalStats_in (entries : list (string * ObjectiveFunctionInfo))
    : list LogEvent * bool :=
  PrintTotalStats_loop entries false.

(** The table is unordered; [map_to_list] is one of its iteration
    orders. *)
Definition PrintTotalStats (t : NnetTrainer) : list LogEvent * bool :=
  PrintTotalStats_in (map_to_list (objf_info_ t)).

End Trainer.

(** ** Definitions used to state the properties *)

(** One minibatch added to every total of a record. *)
Definition add_minibatch (info : ObjectiveFunctionInfo)
    (w o a : BaseFloat) : ObjectiveFunctionInfo :=
  mkObjectiveFunctionInfo (current_phase info)
    (Fadd (tot_weight info) w) (Fadd (tot_objf info) o)
    (Fadd (tot_aux_objf info) a)
    (Fadd (tot_weight_this_phase info) w)
    (Fadd (tot_objf_this_phase info) o)
    (Fadd (tot_aux_objf_this_phase info) a).

(** A record entering [phase]: the phase-scoped totals restart at zero. *)
Definition start_phase (info : ObjectiveFunctionInfo) (phase : Z)
    : ObjectiveFunctionInfo :=
  mkObjectiveFunctionInfo phase
    (tot_weight info) (tot_objf info) (tot_aux_objf info) Fzero Fzero Fzero.

Definition accumulate (info : ObjectiveFunctionInfo)
    (calls : list (BaseFloat * BaseFloat)) : ObjectiveFunctionInfo :=
  foldl (fun i c => add_minibatch i c.1 c.2 Fzero) info calls.

(** [UpdateStats] called in a row for one output, once per pair (weight,
    objective) of [calls], with the counter values [minibatch_counter],
    [minibatch_counter + 1], ... and the default auxiliary objective. *)
Fixpoint UpdateStats_calls (info : ObjectiveFunctionInfo)
    (output_name : string) (minibatches_per_phase minibatch_counter : Z)
    (calls : list (BaseFloat * BaseFloat))
    : result (ObjectiveFunctionInfo * list LogEvent) :=
  match calls with
  | [] => Ok (info, [])
  | c :: rest =>
      '(info, log) ← UpdateStats info output_name minibatches_per_phase
                       minibatch_counter c.1 c.2 Fzero;
      '(info, log') ← UpdateStats_calls info output_name
                        minibatches_per_phase (minibatch_counter + 1)%Z rest;
      Ok (info, log ++ log')
  end.

(** The loop of [PrintTotalStats] had [||] evaluated both operands: every
    entry reports. *)
Fixpoint PrintTotalStats_all (entries : list (string * ObjectiveFunctionInfo))
    (ans : bool) : list LogEvent * bool :=
  match entries with
  | [] => ([], ans)
  | (name, info) :: rest =>
      let '(log, b) := Info_PrintTotalStats info name in
      let '(log', ans) := PrintTotalStats_all rest (ans || b) in
      (log ++ log', ans)
  end.

(** The messages of the entries [entries], each reporting. *)
Definition total_reports (entries : list (string * ObjectiveFunctionInfo))
    : list LogEvent :=
  concat (map (fun e => (Info_PrintTotalStats e.2 e.1).1) entries).



Section Retag.
Context `{Compression} `{!Executor}.


End Retag.

(** Whether an entry of the statistics table has a nonzero total weight,
    the value its [PrintTotalStats] returns. *)
Definition has_weight (e : string * ObjectiveFunctionInfo) : bool :=
  Fne (tot_weight e.2) Fzero.

(** ** Concrete collaborators and inputs

    A codec that stores the dense matrix itself, a parser that knows the
    decimal strings used below, and an executor whose forward pass returns
    [out] for every output and whose backward pass adds [g] to every
    parameter. *)

Definition sample_compression : Compression :=
  {| CompressedMatrix := Matrix; Uncompress := fun m => m |}.

Definition sample_parser : RealParser :=
  {| ConvertStringToReal := fun s =>
       if bool_decide (s = "2.0") then Some (Fin 2)
       else if bool_decide (s = "0.5") then Some (Fin (1/2))
       else None |}.

Definition sample_executor (out : Matrix) (g : BaseFloat)
    : @Executor sample_compression :=
  {| ForwardOutput := fun _ _ _ => out;
     BackwardDeriv := fun nnet _ _ => map (fun _ => g) (params nnet);
     BackwardDeriv_length := fun nnet _ _ =>
       length_map (fun _ => g) (params nnet) |}.

Definition sample_config (momentum max_param_change : BaseFloat)
    (add_regularizer : bool) (scales : string) : NnetTrainerOptions :=
  mkNnetTrainerOptions false false 100 momentum max_param_change
    false add_regularizer scales.

(** A network with the output node "output" and the output node
    "output-reg", both linear, a second output "output2", and one
    parameter of value 1. *)
Definition sample_nnet : Nnet :=
  mkNnet [mkNetworkNode "input" false kUnhandledObjective;
          mkNetworkNode "output" true kLinear;
          mkNetworkNode "output-reg" true kQuadratic;
          mkNetworkNode "output2" true kLinear]
         [Fone] [].

Definition sample_io (name : string) : @NnetIo sample_compression :=
  @mkNnetIo sample_compression name (@GFull sample_compression [[Fone]]) [].

(** An example with one output. *)
Definition sample_eg : @NnetExample sample_compression :=
  @mkNnetExample sample_compression [sample_io "output"].

(** An example with two outputs. *)
Definition sample_eg2 : @NnetExample sample_compression :=
  @mkNnetExample sample_compression [sample_io "output"; sample_io "output2"].

(** An example without outputs. *)
Definition sample_eg0 : @NnetExample sample_compression :=
  @mkNnetExample sample_compression [].

Definition sample_info (w : BaseFloat) : ObjectiveFunctionInfo :=
  mkObjectiveFunctionInfo 0 w w Fzero w w Fzero.

(** The trainer that the constructor builds for the sample network. *)
Definition sample_trainer (config : NnetTrainerOptions) : result NnetTrainer :=
  @NnetTrainer_new sample_parser config sample_nnet.

(** A trainer with a delta network, as the constructor leaves it. *)
Definition sample_trainer_delta (momentum max_param_change : BaseFloat)
    : NnetTrainer :=
  mkNnetTrainer (sample_config momentum max_param_change false "")
    sample_nnet (Some (SetZero false sample_nnet)) 0 ∅ ∅.

(** A trainer with a delta network whose model holds the parameter 0. *)
Definition sample_trainer_zero (momentum max_param_change : BaseFloat)
    : NnetTrainer :=
  mkNnetTrainer (sample_config momentum max_param_change false "")
    (SetZero false sample_nnet) (Some (SetZero false sample_nnet)) 0 ∅ ∅.

(** What [ProcessOutputs] leaves alone: the configuration, the two
    networks and the scale map of the trainer, and the network and example
    the computer is bound to. *)
Definition same_model `{Compression} `{!Executor}
    (st st' : ProcessState) : Prop :=
  config_ (ps_trainer st') = config_ (ps_trainer st) /\
  nnet_ (ps_trainer st') = nnet_ (ps_trainer st) /\
  delta_nnet_ (ps_trainer st') = delta_nnet_ (ps_trainer st) /\
  objective_scales_ (ps_trainer st') = objective_scales_ (ps_trainer st) /\
  computer_nnet (ps_computer st') = computer_nnet (ps_computer st) /\
  computer_eg (ps_computer st') = computer_eg (ps_computer st).

(** The invariant of a trainer that holds a delta network: the delta
    network has the shape of the model, and the configuration passed the
    assertion of the constructor. *)
Definition trainer_wf (t : NnetTrainer) : Prop :=
  match delta_nnet_ t with
  | Some delta_nnet =>
      length (params delta_nnet) = length (params (nnet_ t)) /\
      Fge (momentum (config_ t)) Fzero &&
        Fge (max_param_change (config_ t)) Fzero = true
  | None => True
  end.

(** The dot product of two vectors of real numbers. *)
Definition Rdot (xs ys : list R) : R := foldr Rplus 0 (zip_with Rmult xs ys).

Definition sample_table : gmap string ObjectiveFunctionInfo :=
  <["output" := sample_info Fzero]> (<["output2" := sample_info Fone]> ∅).

Definition sample_trainer_stats : NnetTrainer :=
  mkNnetTrainer (sample_config Fzero Fzero false "") sample_nnet None 2
    sample_table ∅.




(** The derivative matrix handed to an objective function, when there is
    one, has the shape of the supervision [M]. *)
Definition deriv_shape_ok (M : Matrix) (output_deriv : option Matrix) : bool :=
  match output_deriv with
  | Some d => bool_decide (shape d = shape M)
  | None => true
  end.

(** ** Definitions used by the further properties *)

(** The number of colons of a string. *)
Fixpoint count_colons (s : string) : nat :=
  match s with
  | EmptyString => 0%nat
  | String c rest =>
      ((if bool_decide (c = ":"%char) then 1 else 0) + count_colons rest)%nat
  end.

(** The tokens joined by colons, the format of [objective_scales_str]. *)
Fixpoint join_tokens (toks : list string) : string :=
  match toks with
  | [] => EmptyString
  | tok :: rest =>
      match rest with
      | [] => tok
      | _ => tok +:+ ":" +:+ join_tokens rest
      end
  end.

(** The tokens of a list of pairs (output name, scale). *)
Definition scale_tokens (pairs : list (string * string)) : list string :=
  flat_map (fun p => [p.1; p.2]) pairs.

(** The scale written for [name] by the last pair that names it. *)
Fixpoint scale_of (pairs : list (string * string)) (name : string)
    : option string :=
  match pairs with
  | [] => None
  | p :: rest =>
      match scale_of rest name with
      | Some v => Some v
      | None => if bool_decide (p.1 = name) then Some p.2 else None
      end
  end.

(** A supervision whose rows all have the number of columns of the first,
    as every matrix of the library has. *)
Definition rectangular `{Compression} (g : GeneralMatrix) : Prop :=
  GeneralMatrix_shape g =
    replicate (GeneralMatrix_NumRows g) (GeneralMatrix_NumCols g).

(** A value that is not negative: a nonnegative number, plus infinity or a
    NaN. *)
Definition not_negative (x : BaseFloat) : Prop :=
  match x with
  | Fin a => 0 <= a
  | PInf | NaN => True
  | NInf => False
  end.

(** The number of calls of [UpdateStats] that the loop body of
    [ProcessOutputs] makes for an entry named [name]: none for a node that
    is not an output, one for an output, two when its regularizer output is
    processed as well. *)
Definition outputs_processed (nnet : Nnet) (config : NnetTrainerOptions)
    (name : string) : nat :=
  if IsOutputNode nnet (GetNodeIndex nnet name) then
    if add_regularizer config &&
       bool_decide (0 <= GetNodeIndex nnet (name +:+ "-reg"))%Z
    then 2%nat else 1%nat
  else 0%nat.

Definition total_outputs_processed (nnet : Nnet) (config : NnetTrainerOptions)
    (names : list string) : nat :=
  foldr (fun name n => (outputs_processed nnet config name + n)%nat) 0%nat names.

(** A network whose output "output" is tagged cross-entropy and has a
    regularizer node. *)
Definition sample_nnet_ce : Nnet :=
  mkNnet [mkNetworkNode "output" true kCrossEntropy;
          mkNetworkNode "output-reg" true kLinear]
         [Fone] [].

(** [1 - x], as the code computes it: a matrix of ones plus [-1.0] times
    the operand. *)
Definition one_minus (x : BaseFloat) : BaseFloat :=
  Fadd Fone (Fmul (Fin (-1)) x).

(** The entry of the cross-entropy derivative for the supervision [x] and
    the output [y], as the code computes it: [x] over the exponential of
    the logarithm of [y], minus [1 - x] over the exponential of the
    logarithm of [1 - y]. *)
Definition ce_deriv (x y : BaseFloat) : BaseFloat :=
  Fadd (Fdiv x (Fexp (Flog y)))
       (Fmul (Fin (-1)) (Fdiv (one_minus x) (Fexp (Flog (one_minus y))))).

(** The output and the range of minibatches that a phase report names. *)
Definition report_range (ev : LogEvent) : option (string * Z * Z) :=
  match ev with
  | LogPhaseStats name s e _ _ => Some (name, s, e)
  | LogPhaseStatsAux name s e _ _ _ _ => Some (name, s, e)
  | _ => None
  end.

(** A message that reports an auxiliary objective. *)
Definition is_aux_event (ev : LogEvent) : bool :=
  match ev with
  | LogPhaseStatsAux _ _ _ _ _ _ _ => true
  | LogTotalStatsAux _ _ _ _ _ => true
  | _ => false
  end.

(** Every record of the statistics table has zero auxiliary totals. *)
Definition no_aux (table : gmap string ObjectiveFunctionInfo) : Prop :=
  forall name info, table !! name = Some info ->
    tot_aux_objf info = Fzero /\ tot_aux_objf_this_phase info = Fzero.

Definition not_aux (ev : LogEvent) : Prop := is_aux_event ev = false.

(** The invariant of [ProcessOutputs]: no auxiliary totals in the table, no
    two-objective message in the log. *)
Definition state_no_aux `{Compression} `{!Executor}
    (st : ProcessState) : Prop :=
  no_aux (objf_info_ (ps_trainer st)) /\ Forall not_aux (ps_log st).

(** * Properties *)

(** ** Arithmetic of BaseFloat *)



Lemma Fadd_0_r (x : BaseFloat) : Fadd x Fzero = x.
Proof. destruct x; simpl; try reflexivity. f_equal. lra. Qed.


Lemma Fmul_comm (x y : BaseFloat) : Fmul x y = Fmul y x.
Proof. destruct x, y; simpl; try reflexivity. f_equal. lra. Qed.


Lemma Feq_0_0 : Feq Fzero Fzero = true.
Proof. simpl. apply bool_decide_eq_true. reflexivity. Qed.

(** ** The statistics tracker *)

Lemma quot_phase_0 (x : Z) : (0 <= x < 10)%Z -> (x ÷ 10 = 0)%Z.
Proof. intros. apply Z.quot_small. lia. Qed.

Lemma quot_phase_1 (x : Z) : (10 <= x < 20)%Z -> (x ÷ 10 = 1)%Z.
Proof.
  intros. rewrite Z.quot_div_nonneg by lia.
  symmetry. apply (Z.div_unique x 10 1 (x - 10)); lia.
Qed.

Lemma UpdateStats_same_phase info name mpp counter w o a :
  mpp <> 0%Z ->
  (counter ÷ mpp)%Z = current_phase info ->
  UpdateStats info name mpp counter w o a = Ok (add_minibatch info w o a, []).
Proof.
  intros Hm Hp. unfold UpdateStats.
  rewrite bool_decide_eq_false_2 by assumption.
  rewrite bool_decide_eq_false_2 by (intros Hne; apply Hne; assumption).
  reflexivity.
Qed.

Lemma UpdateStats_next_phase info name mpp counter w o a :
  mpp <> 0%Z ->
  (counter ÷ mpp)%Z = (current_phase info + 1)%Z ->
  UpdateStats info name mpp counter w o a =
    Ok (add_minibatch (start_phase info (current_phase info + 1)) w o a,
        PrintStatsForThisPhase info name mpp).
Proof.
  intros Hm Hp. unfold UpdateStats.
  rewrite bool_decide_eq_false_2 by assumption.
  rewrite bool_decide_eq_true_2 by lia.
  rewrite Hp. rewrite bool_decide_eq_true_2 by reflexivity.
  reflexivity.
Qed.

(** Any other jump of the phase is the failed assertion. *)
Lemma UpdateStats_phase_jump info name mpp counter w o a :
  mpp <> 0%Z ->
  (counter ÷ mpp)%Z <> current_phase info ->
  (counter ÷ mpp)%Z <> (current_phase info + 1)%Z ->
  UpdateStats info name mpp counter w o a = Fatal "KALDI_ASSERT failed".
Proof.
  intros Hm H0 H1. unfold UpdateStats.
  rewrite bool_decide_eq_false_2 by assumption.
  rewrite bool_decide_eq_true_2 by assumption.
  rewrite bool_decide_eq_false_2 by assumption.
  reflexivity.
Qed.

Lemma accumulate_phase info calls :
  current_phase (accumulate info calls) = current_phase info.
Proof.
  revert info. induction calls as [|c calls IH]; intros info; simpl.
  - reflexivity.
  - unfold accumulate in IH. rewrite IH. reflexivity.
Qed.

Lemma UpdateStats_calls_in_phase calls : forall info name mpp counter,
  mpp <> 0%Z ->
  (forall i : Z, (0 <= i < Z.of_nat (length calls))%Z ->
     ((counter + i) ÷ mpp)%Z = current_phase info) ->
  UpdateStats_calls info name mpp counter calls =
    Ok (accumulate info calls, []).
Proof.
  induction calls as [|c calls IH]; intros info name mpp counter Hm Hin.
  - reflexivity.
  - simpl. rewrite UpdateStats_same_phase; [|assumption|].
    + simpl. rewrite IH; [reflexivity|assumption|].
      intros i Hi. simpl.
      replace (counter + 1 + i)%Z with (counter + (i + 1))%Z by lia.
      apply Hin. simpl length. lia.
    + rewrite <- (Hin 0%Z); [f_equal; lia | simpl length; lia].
Qed.

Lemma UpdateStats_calls_app calls1 calls2 info name mpp counter :
  UpdateStats_calls info name mpp counter (calls1 ++ calls2) =
    '(info1, log1) ← UpdateStats_calls info name mpp counter calls1;
    '(info2, log2) ← UpdateStats_calls info1 name mpp
                       (counter + Z.of_nat (length calls1))%Z calls2;
    Ok (info2, log1 ++ log2).
Proof.
  revert info counter.
  induction calls1 as [|c calls1 IH]; intros info counter.
  - simpl. replace (counter + Z.of_nat 0)%Z with counter by lia.
    destruct (UpdateStats_calls info name mpp counter calls2) as [[i l]|];
      reflexivity.
  - simpl.
    destruct (UpdateStats info name mpp counter c.1 c.2 Fzero)
      as [[i l]|]; [|reflexivity].
    simpl. rewrite IH.
    replace (counter + 1 + Z.of_nat (length calls1))%Z
      with (counter + Z.of_nat (S (length calls1)))%Z by lia.
    destruct (UpdateStats_calls i name mpp (counter + 1) calls1)
      as [[i1 l1]|]; [|reflexivity].
    simpl.
    destruct (UpdateStats_calls i1 name mpp _ calls2) as [[i2 l2]|];
      [|reflexivity].
    simpl. rewrite app_assoc. reflexivity.
Qed.

Lemma accumulate_tot_weight calls : forall info,
  tot_weight (accumulate info calls) = foldl Fadd (tot_weight info) calls.*1.
Proof.
  induction calls as [|c calls IH]; intros info; [reflexivity|].
  simpl. unfold accumulate in IH. rewrite IH. reflexivity.
Qed.

Lemma accumulate_tot_objf calls : forall info,
  tot_objf (accumulate info calls) = foldl Fadd (tot_objf info) calls.*2.
Proof.
  induction calls as [|c calls IH]; intros info; [reflexivity|].
  simpl. unfold accumulate in IH. rewrite IH. reflexivity.
Qed.

Lemma accumulate_tot_aux_objf calls : forall info,
  tot_aux_objf (accumulate info calls) = tot_aux_objf info.
Proof.
  induction calls as [|c calls IH]; intros info; [reflexivity|].
  simpl. unfold accumulate in IH. rewrite IH. simpl. apply Fadd_0_r.
Qed.

Lemma accumulate_weight_this_phase calls : forall info,
  tot_weight_this_phase (accumulate info calls) =
    foldl Fadd (tot_weight_this_phase info) calls.*1.
Proof.
  induction calls as [|c calls IH]; intros info; [reflexivity|].
  simpl. unfold accumulate in IH. rewrite IH. reflexivity.
Qed.

Lemma accumulate_objf_this_phase calls : forall info,
  tot_objf_this_phase (accumulate info calls) =
    foldl Fadd (tot_objf_this_phase info) calls.*2.
Proof.
  induction calls as [|c calls IH]; intros info; [reflexivity|].
  simpl. unfold accumulate in IH. rewrite IH. reflexivity.
Qed.

Lemma accumulate_aux_this_phase calls : forall info,
  tot_aux_objf_this_phase (accumulate info calls) =
    tot_aux_objf_this_phase info.
Proof.
  induction calls as [|c calls IH]; intros info; [reflexivity|].
  simpl. unfold accumulate in IH. rewrite IH. simpl. apply Fadd_0_r.
Qed.

Lemma accumulate_app calls1 calls2 info :
  accumulate info (calls1 ++ calls2) =
    accumulate (accumulate info calls1) calls2.
Proof. unfold accumulate. apply foldl_app. Qed.

Lemma UpdateStats_calls_cross name c first call rest :
  (1 <= c <= 10)%Z ->
  (c + Z.of_nat (length first) = 10)%Z ->
  (length rest < 10)%nat ->
  UpdateStats_calls ObjectiveFunctionInfo_new name 10 c
      (first ++ call :: rest) =
    Ok (accumulate
          (start_phase (accumulate ObjectiveFunctionInfo_new first) 1)
          (call :: rest),
        PrintStatsForThisPhase
          (accumulate ObjectiveFunctionInfo_new first) name 10).
Proof.
  intros Hc Hk Hrest.
  rewrite UpdateStats_calls_app.
  rewrite UpdateStats_calls_in_phase; [|lia|].
  2:{ intros i Hi. simpl. apply quot_phase_0. lia. }
  simpl. rewrite Hk.
  rewrite UpdateStats_next_phase; [|lia|].
  2:{ rewrite accumulate_phase. reflexivity. }
  simpl. rewrite accumulate_phase. simpl.
  rewrite UpdateStats_calls_in_phase; [|lia|].
  2:{ intros i Hi. simpl. apply quot_phase_1. lia. }
  simpl. rewrite app_nil_r. reflexivity.
Qed.

(** C4, as the code has it.  Ten calls in a row on a fresh record, with
    [minibatches_per_phase = 10] and the counter values [c], ..., [c + 9]
    for some [0 <= c <= 10], all succeed.  From [c = 0] they emit no phase
    report: the ten counter values lie in phase 0, whose report is emitted
    by the next call, and nothing is reset.  From [c >= 1] they emit exactly
    one report, at the call whose counter is 10, with the totals of the
    [10 - c] calls before it; the phase-scoped totals restart at zero there
    and hold the sum of the calls from that one on.  In both cases the
    all-time totals are the sums over the ten calls. *)
Theorem UpdateStats_ten_calls (name : string) (c : Z)
    (calls : list (BaseFloat * BaseFloat)) :
  (0 <= c <= 10)%Z ->
  length calls = 10%nat ->
  let k := if bool_decide (c = 0%Z) then 0%nat else Z.to_nat (10 - c) in
  exists info log,
    UpdateStats_calls ObjectiveFunctionInfo_new name 10 c calls =
      Ok (info, log) /\
    log = (if bool_decide (c = 0%Z) then []
           else [LogPhaseStats name 0 9
                   (Fdiv (foldl Fadd Fzero (take k calls).*2)
                         (foldl Fadd Fzero (take k calls).*1))
                   (foldl Fadd Fzero (take k calls).*1)]) /\
    current_phase info = (if bool_decide (c = 0%Z) then 0%Z else 1%Z) /\
    tot_weight info = foldl Fadd Fzero calls.*1 /\
    tot_objf info = foldl Fadd Fzero calls.*2 /\
    tot_weight_this_phase info = foldl Fadd Fzero (drop k calls).*1 /\
    tot_objf_this_phase info = foldl Fadd Fzero (drop k calls).*2.
Proof.
  intros Hc Hlen k. subst k.
  case_bool_decide as Hc0.
  - subst c. eexists _, _. split.
    + apply UpdateStats_calls_in_phase; [lia|].
      intros i Hi. simpl. apply quot_phase_0. lia.
    + rewrite drop_0.
      rewrite accumulate_phase, accumulate_tot_weight, accumulate_tot_objf,
        accumulate_weight_this_phase, accumulate_objf_this_phase.
      repeat split; reflexivity.
  - set (k := Z.to_nat (10 - c)).
    assert (Hk : (k < 10)%nat) by (subst k; lia).
    destruct (drop k calls) as [|call rest] eqn:Hdrop.
    { apply (f_equal length) in Hdrop. rewrite length_drop in Hdrop.
      simpl in Hdrop. lia. }
    assert (Hsplit : calls = take k calls ++ call :: rest).
    { rewrite <- Hdrop. symmetry. apply take_drop. }
    assert (Htake : length (take k calls) = k).
    { rewrite length_take. lia. }
    assert (Hrest : (length rest < 10)%nat).
    { apply (f_equal length) in Hdrop. rewrite length_drop in Hdrop.
      simpl in Hdrop. lia. }
    eexists _, _. split.
    + rewrite Hsplit at 1.
      apply UpdateStats_calls_cross; [lia| |assumption].
      rewrite Htake. subst k. lia.
    + rewrite accumulate_phase, accumulate_tot_weight, accumulate_tot_objf,
        accumulate_weight_this_phase, accumulate_objf_this_phase.
      simpl start_phase. cbn [current_phase tot_weight tot_objf
        tot_weight_this_phase tot_objf_this_phase start_phase].
      rewrite accumulate_tot_weight, accumulate_tot_objf.
      unfold PrintStatsForThisPhase.
      rewrite accumulate_aux_this_phase, accumulate_phase,
        accumulate_weight_this_phase, accumulate_objf_this_phase.
      cbn [current_phase tot_weight tot_objf tot_aux_objf_this_phase
        tot_weight_this_phase tot_objf_this_phase ObjectiveFunctionInfo_new].
      rewrite Feq_0_0.
      repeat split; try reflexivity.
      * rewrite Hsplit at 2. rewrite fmap_app, foldl_app. reflexivity.
      * rewrite Hsplit at 2. rewrite fmap_app, foldl_app. reflexivity.
Qed.

(** From the counter value 0, the ten calls emit no phase report and the
    phase-scoped totals are not reset. *)
Lemma UpdateStats_ten_calls_from_zero :
  exists info log,
    UpdateStats_calls ObjectiveFunctionInfo_new "output" 10 0
      (replicate 10 (Fone, Fone)) = Ok (info, log) /\
    length log <> 1%nat /\
    tot_weight_this_phase info = tot_weight info /\
    tot_weight_this_phase info <> Fzero.
Proof.
  eexists _, _. split.
  - apply UpdateStats_calls_in_phase; [lia|].
    intros i Hi. simpl in Hi. simpl. apply quot_phase_0. lia.
  - split; [simpl; lia|].
    rewrite accumulate_weight_this_phase, accumulate_tot_weight.
    split; [reflexivity|].
    simpl. unfold Fzero. intros Heq. injection Heq as Heq. lra.
Qed.

Lemma UpdateStats_ten_calls_witness :
  exists info log,
    UpdateStats_calls ObjectiveFunctionInfo_new "output" 10 4
      (replicate 10 (Fone, Fin 2)) = Ok (info, log) /\
    length log = 1%nat /\
    tot_weight info = foldl Fadd Fzero (replicate 10 Fone) /\
    tot_weight_this_phase info = foldl Fadd Fzero (replicate 4 Fone).
Proof.
  destruct (UpdateStats_ten_calls "output" 4 (replicate 10 (Fone, Fin 2)))
    as (info & log & Hrun & Hlog & _ & Hw & _ & Hwp & _);
    [lia | reflexivity |].
  exists info, log. split; [exact Hrun|].
  split; [rewrite Hlog; reflexivity|].
  split; [exact Hw | exact Hwp].
Defined.

(** ** PrintTotalStats *)

Lemma Info_PrintTotalStats_snd info name :
  (Info_PrintTotalStats info name).2 = has_weight (name, info).
Proof. reflexivity. Qed.

Lemma PrintTotalStats_loop_ans entries : forall ans,
  (PrintTotalStats_loop entries ans).2 = ans || existsb has_weight entries.
Proof.
  induction entries as [|[name info] rest IH]; intros ans; simpl.
  - rewrite orb_false_r. reflexivity.
  - destruct ans; simpl.
    + specialize (IH true).
      destruct (PrintTotalStats_loop rest true) as [log' a]. simpl in *.
      exact IH.
    + specialize (IH (Fne (tot_weight info) Fzero)).
      destruct (PrintTotalStats_loop rest _) as [log' a]. simpl in *.
      exact IH.
Qed.

Lemma PrintTotalStats_all_ans entries : forall ans,
  (PrintTotalStats_all entries ans).2 = ans || existsb has_weight entries.
Proof.
  induction entries as [|[name info] rest IH]; intros ans; simpl.
  - rewrite orb_false_r. reflexivity.
  - specialize (IH (ans || Fne (tot_weight info) Fzero)).
    destruct (PrintTotalStats_all rest _) as [log' a]. simpl in *.
    rewrite IH. rewrite orb_assoc. reflexivity.
Qed.

(** Once [ans] is true the loop is silent. *)
Lemma PrintTotalStats_loop_true entries :
  PrintTotalStats_loop entries true = ([], true).
Proof.
  induction entries as [|[name info] rest IH]; simpl; [reflexivity|].
  rewrite IH. reflexivity.
Qed.

Lemma PrintTotalStats_loop_no_weight pre : forall rest,
  Forall (fun e => has_weight e = false) pre ->
  PrintTotalStats_loop (pre ++ rest) false =
    (total_reports pre ++ (PrintTotalStats_loop rest false).1,
     (PrintTotalStats_loop rest false).2).
Proof.
  induction pre as [|[name info] pre IH]; intros rest Hpre; simpl.
  - destruct (PrintTotalStats_loop rest false); reflexivity.
  - inversion Hpre as [|? ? Hw Hpre']; subst.
    unfold has_weight in Hw. simpl in Hw. rewrite Hw.
    rewrite (IH rest Hpre'). unfold total_reports. simpl. reflexivity.
Qed.

Lemma existsb_has_weight_iff (entries : list (string * ObjectiveFunctionInfo)) :
  existsb has_weight entries = true <->
  exists name info, (name, info) ∈ entries /\
                    Fne (tot_weight info) Fzero = true.
Proof.
  rewrite existsb_exists. split.
  - intros ([name info] & Hin & Hw). exists name, info.
    split; [apply list_elem_of_In; exact Hin | exact Hw].
  - intros (name & info & Hin & Hw). exists (name, info).
    split; [apply list_elem_of_In; exact Hin | exact Hw].
Qed.

(** C7.  Whatever the order [order] in which the iteration visits the
    entries of the statistics table, [PrintTotalStats] returns true exactly
    when the table holds an output whose accumulated total weight is
    nonzero ([tot_weight != 0.0]); in particular the value is that of the
    order [map_to_list]. *)
Theorem PrintTotalStats_true_iff (t : NnetTrainer)
    (order : list (string * ObjectiveFunctionInfo)) :
  order ≡ₚ map_to_list (objf_info_ t) ->
  ((PrintTotalStats_in order).2 = true <->
   exists name info, objf_info_ t !! name = Some info /\
                     Fne (tot_weight info) Fzero = true) /\
  (PrintTotalStats_in order).2 = (PrintTotalStats t).2.
Proof.
  intros Hperm.
  assert (Hiff : forall l, l ≡ₚ map_to_list (objf_info_ t) ->
    ((PrintTotalStats_in l).2 = true <->
     exists name info, objf_info_ t !! name = Some info /\
                       Fne (tot_weight info) Fzero = true)).
  { intros l Hl. unfold PrintTotalStats_in.
    rewrite PrintTotalStats_loop_ans. simpl.
    rewrite existsb_has_weight_iff.
    split; intros (name & info & Hin & Hw); exists name, info;
      (split; [|exact Hw]).
    - apply elem_of_map_to_list. rewrite <- Hl. exact Hin.
    - rewrite Hl. apply elem_of_map_to_list. exact Hin. }
  split; [apply Hiff; exact Hperm|].
  apply eq_true_iff_eq.
  rewrite (Hiff order Hperm).
  unfold PrintTotalStats. rewrite (Hiff _ (reflexivity _)).
  reflexivity.
Qed.

(** C10.  When the entries visited before [(name, info)] all have a zero
    total weight and [info] has a nonzero one, the messages of
    [PrintTotalStats] are the reports of those entries and of
    [(name, info)], and nothing for the entries [post] visited after it;
    the value returned is true, as it is when every entry reports. *)
Theorem PrintTotalStats_short_circuit
    (pre post : list (string * ObjectiveFunctionInfo))
    (name : string) (info : ObjectiveFunctionInfo) :
  Forall (fun e => Fne (tot_weight e.2) Fzero = false) pre ->
  Fne (tot_weight info) Fzero = true ->
  PrintTotalStats_in (pre ++ (name, info) :: post) =
    (total_reports (pre ++ [(name, info)]), true) /\
  (PrintTotalStats_all (pre ++ (name, info) :: post) false).2 = true.
Proof.
  intros Hpre Hw. split.
  - unfold PrintTotalStats_in.
    rewrite PrintTotalStats_loop_no_weight by exact Hpre.
    simpl. rewrite Hw. rewrite PrintTotalStats_loop_true. simpl.
    unfold total_reports. rewrite map_app, concat_app. simpl.
    reflexivity.
  - rewrite PrintTotalStats_all_ans. simpl.
    rewrite existsb_app. simpl. unfold has_weight at 2. simpl.
    rewrite Hw. rewrite orb_true_r. reflexivity.
Qed.

(** ** Names and nodes *)

Lemma string_length_app (a b : string) :
  String.length (a +:+ b) = (String.length a + String.length b)%nat.
Proof. induction a as [|c a IH]; simpl; [reflexivity | rewrite IH; reflexivity]. Qed.

Lemma reg_name_neq (name : string) : name +:+ "-reg" <> name.
Proof.
  intros Heq. apply (f_equal String.length) in Heq.
  rewrite string_length_app in Heq. simpl in Heq. lia.
Qed.






(** ** The loop of ProcessOutputs on concrete examples *)

(** Decides the comparisons of real constants that evaluation leaves. *)
Ltac resolve_R :=
  repeat match goal with
  | |- context [Req_dec_T ?a ?b] =>
      destruct (Req_dec_T a b) as [?He|?Hn];
      [try (exfalso; lra) | try (exfalso; apply Hn; lra)]; cbv iota beta
  | |- context [Rlt_dec ?a ?b] =>
      destruct (Rlt_dec a b) as [?Hl|?Hn];
      [try (exfalso; lra) | try (exfalso; lra)]; cbv iota beta
  end.

(** Evaluates the closed subterm [r] of the goal, decides the comparisons
    of real constants it was stuck on, and runs the bind it feeds. *)
Ltac eval_step r :=
  let r' := eval vm_compute in r in
  replace r with r' by (vm_compute; reflexivity);
  resolve_R; cbn [mbind result_bind].
(** ** Rounding to the machine formats *)

Lemma bpow_pos e : 0 < bpow e.
Proof. unfold bpow. apply powerRZ_lt. lra. Qed.

Lemma bpow_add a b : bpow (a + b) = bpow a * bpow b.
Proof. unfold bpow. apply powerRZ_add. lra. Qed.

Lemma bpow_0 : bpow 0 = 1.
Proof. reflexivity. Qed.

Lemma bpow_1 : bpow 1 = 2.
Proof. unfold bpow. simpl. lra. Qed.

Lemma bpow_succ e : bpow (e + 1) = 2 * bpow e.
Proof. rewrite bpow_add, bpow_1. lra. Qed.

Lemma bpow_pred e : bpow (e - 1) = bpow e / 2.
Proof.
  pose proof (bpow_succ (e - 1)) as Hs.
  replace (e - 1 + 1)%Z with e in Hs by lia. lra.
Qed.

Lemma bpow_opp e : bpow (- e) = / bpow e.
Proof.
  assert (Hm : bpow (- e) * bpow e = 1).
  { rewrite <- bpow_add. replace (- e + e)%Z with 0%Z by lia. apply bpow_0. }
  pose proof (bpow_pos e). apply Rmult_eq_reg_r with (bpow e); [|lra].
  rewrite Hm. field. lra.
Qed.

Lemma bpow_le a b : (a <= b)%Z -> bpow a <= bpow b.
Proof.
  intros Hab.
  replace b with (a + Z.of_nat (Z.to_nat (b - a)))%Z by lia.
  induction (Z.to_nat (b - a)) as [|n IH].
  - replace (a + Z.of_nat 0)%Z with a by lia. lra.
  - replace (a + Z.of_nat (S n))%Z with (a + Z.of_nat n + 1)%Z by lia.
    rewrite bpow_succ. pose proof (bpow_pos (a + Z.of_nat n)). lra.
Qed.

Lemma bpow_lt a b : (a < b)%Z -> bpow a < bpow b.
Proof.
  intros Hab. apply Rlt_le_trans with (bpow (a + 1)).
  - rewrite bpow_succ. pose proof (bpow_pos a). lra.
  - apply bpow_le. lia.
Qed.

Lemma bpow_IZR (n : Z) : (0 <= n)%Z -> bpow n = IZR (2 ^ n).
Proof.
  intros Hn. unfold bpow. destruct n as [|p|p]; [reflexivity| |lia].
  cbn [powerRZ]. rewrite pow_IZR. rewrite positive_nat_Z. reflexivity.
Qed.

Lemma bpow_opp_IZR (n : Z) : (0 <= n)%Z -> bpow (- n) = / IZR (2 ^ n).
Proof. intros Hn. rewrite bpow_opp, bpow_IZR by exact Hn. reflexivity. Qed.

Lemma Zfloor_spec x : IZR (Zfloor x) <= x < IZR (Zfloor x) + 1.
Proof.
  unfold Zfloor. rewrite minus_IZR.
  destruct (archimed x) as [H1 H2]. lra.
Qed.

Lemma round_half_even_error x : Rabs (IZR (round_half_even x) - x) <= 1 / 2.
Proof.
  unfold round_half_even. cbv zeta.
  pose proof (Zfloor_spec x) as [Hl Hu].
  repeat case_bool_decide; try destruct (Z.even _);
    rewrite ?plus_IZR; apply Rabs_le; lra.
Qed.

Lemma round_half_even_eval (n : Z) x :
  IZR n - 1 / 2 < x < IZR n + 1 / 2 -> round_half_even x = n.
Proof.
  intros [Hl Hu]. unfold round_half_even. cbv zeta.
  pose proof (Zfloor_spec x) as [Hfl Hfu].
  assert (Hle : (Zfloor x <= n)%Z).
  { apply Z.lt_succ_r. apply lt_IZR. rewrite succ_IZR. lra. }
  assert (Hge : (n - 1 <= Zfloor x)%Z).
  { apply Z.lt_succ_r. apply lt_IZR. rewrite succ_IZR, minus_IZR. lra. }
  assert (Hcase : Zfloor x = n \/ Zfloor x = (n - 1)%Z) by lia.
  destruct Hcase as [Hf|Hf]; rewrite Hf in *.
  - rewrite bool_decide_eq_true_2 by lra. reflexivity.
  - rewrite minus_IZR in *.
    rewrite bool_decide_eq_false_2 by lra.
    rewrite bool_decide_eq_true_2 by lra. lia.
Qed.

Lemma round_half_even_IZR (n : Z) : round_half_even (IZR n) = n.
Proof. apply round_half_even_eval. lra. Qed.

Lemma round_half_even_nonneg x : 0 <= x -> (0 <= round_half_even x)%Z.
Proof.
  intros Hx. unfold round_half_even. cbv zeta.
  pose proof (Zfloor_spec x) as [Hfl Hfu].
  assert (Hf : (0 <= Zfloor x)%Z).
  { apply Z.lt_succ_r. apply lt_IZR. rewrite succ_IZR. lra. }
  repeat case_bool_decide; try destruct (Z.even _); lia.
Qed.

Lemma round_half_even_nonpos x : x <= 0 -> (round_half_even x <= 0)%Z.
Proof.
  intros Hx. unfold round_half_even. cbv zeta.
  pose proof (Zfloor_spec x) as [Hfl Hfu].
  assert (Hf : (Zfloor x <= 0)%Z).
  { apply le_IZR. lra. }
  destruct (Z.eq_dec (Zfloor x) 0%Z) as [H0|H0].
  - rewrite H0 in *. rewrite bool_decide_eq_true_2 by lra. lia.
  - repeat case_bool_decide; try destruct (Z.even _); lia.
Qed.

Section FormatFacts.
Variables prec emin emax : Z.
Hypothesis Hprec : (0 < prec)%Z.
Hypothesis Hrange : (emin <= emax - prec)%Z.

Local Abbreviation cexp := (canonical_exponent prec emin emax).
Local Abbreviation round := (round_to_format prec emin emax).

Lemma canonical_exponent_from_range fuel : forall e x,
  (e <= canonical_exponent_from prec fuel e x <= e + Z.of_nat fuel)%Z.
Proof.
  induction fuel as [|fuel IH]; intros e x; cbn [canonical_exponent_from].
  - lia.
  - case_bool_decide; [lia|]. specialize (IH (e + 1)%Z x). lia.
Qed.

Lemma canonical_exponent_range x : (emin <= cexp x <= emax - prec)%Z.
Proof.
  unfold canonical_exponent.
  pose proof (canonical_exponent_from_range
                (Z.to_nat (emax - prec - emin)) emin x). lia.
Qed.

Lemma canonical_exponent_from_lower fuel : forall e x,
  (e = emin \/ bpow (e + prec - 1) <= Rabs x) ->
  let c := canonical_exponent_from prec fuel e x in
  c = emin \/ bpow (c + prec - 1) <= Rabs x.
Proof.
  induction fuel as [|fuel IH]; intros e x He; cbn [canonical_exponent_from];
    cbv zeta; [exact He|].
  case_bool_decide as Hlt; [exact He|].
  apply IH. right.
  replace (e + 1 + prec - 1)%Z with (e + prec)%Z by lia. lra.
Qed.

Lemma canonical_exponent_lower x :
  cexp x = emin \/ bpow (cexp x + prec - 1) <= Rabs x.
Proof.
  apply (canonical_exponent_from_lower _ emin x). left. reflexivity.
Qed.

Lemma canonical_exponent_from_upper fuel : forall e x,
  let c := canonical_exponent_from prec fuel e x in
  (c < e + Z.of_nat fuel)%Z -> Rabs x < bpow (c + prec).
Proof.
  induction fuel as [|fuel IH]; intros e x; cbn [canonical_exponent_from];
    cbv zeta; [lia|].
  case_bool_decide as Hlt; [intros _; exact Hlt|].
  intros Hc. apply IH. lia.
Qed.

Lemma canonical_exponent_upper x :
  (cexp x < emax - prec)%Z -> Rabs x < bpow (cexp x + prec).
Proof.
  intros Hc. apply (canonical_exponent_from_upper _ emin x).
  fold (cexp x). lia.
Qed.

Lemma canonical_exponent_from_least fuel : forall e0 e x,
  (e0 <= e)%Z -> Rabs x < bpow (e + prec) ->
  (canonical_exponent_from prec fuel e0 x <= e)%Z.
Proof.
  induction fuel as [|fuel IH]; intros e0 e x He Hx;
    cbn [canonical_exponent_from]; [exact He|].
  case_bool_decide as Hlt; [exact He|].
  apply IH; [|exact Hx].
  destruct (Z.eq_dec e0 e) as [->|Hne]; [contradiction|lia].
Qed.

Lemma canonical_exponent_least e x :
  (emin <= e)%Z -> Rabs x < bpow (e + prec) -> (cexp x <= e)%Z.
Proof. apply canonical_exponent_from_least. Qed.

(** The exponent of a number whose binade is known. *)
Lemma canonical_exponent_eq e x :
  (emin <= e <= emax - prec)%Z ->
  e = emin \/ bpow (e + prec - 1) <= Rabs x ->
  Rabs x < bpow (e + prec) ->
  cexp x = e.
Proof.
  intros He Hlow Hup.
  pose proof (canonical_exponent_least e x (proj1 He) Hup) as Hle.
  pose proof (canonical_exponent_range x) as Hr.
  destruct Hlow as [->|Hlow]; [lia|].
  destruct (Z.eq_dec (cexp x) e) as [Heq|Hne]; [exact Heq|].
  exfalso.
  assert (Hc : (cexp x < emax - prec)%Z) by lia.
  apply canonical_exponent_upper in Hc.
  assert (Hb : bpow (cexp x + prec) <= bpow (e + prec - 1))
    by (apply bpow_le; lia).
  lra.
Qed.

(** The rounded value before the range check, and its distance to [x]. *)
Lemma round_value_error x :
  let e := cexp x in
  Rabs (IZR (round_half_even (x / bpow e)) * bpow e - x) <= bpow e / 2.
Proof.
  cbv zeta. set (e := cexp x).
  pose proof (bpow_pos e) as He.
  pose proof (round_half_even_error (x / bpow e)) as Herr.
  replace (IZR (round_half_even (x / bpow e)) * bpow e - x)
    with ((IZR (round_half_even (x / bpow e)) - x / bpow e) * bpow e)
    by (field; lra).
  rewrite Rabs_mult, (Rabs_pos_eq (bpow e)) by lra.
  nra.
Qed.

(** A number in the normal range that stays below the last binade is
    rounded to a finite value with a relative error of at most
    [2 ^ - prec]. *)
Lemma round_to_format_relative x :
  bpow (emin + prec - 1) <= Rabs x ->
  Rabs x <= bpow (emax - 1) ->
  exists eps, Rabs eps <= bpow (- prec) /\
              round x = Fin (x * (1 + eps)).
Proof.
  intros Hlow Hhigh.
  pose proof (round_value_error x) as Herr. cbv zeta in Herr.
  unfold round_to_format. cbv zeta.
  set (e := cexp x) in *.
  set (v := IZR (round_half_even (x / bpow e)) * bpow e) in *.
  assert (He : bpow (e + prec - 1) <= Rabs x).
  { destruct (canonical_exponent_lower x) as [Hmin|Hb]; [|exact Hb].
    fold e in Hmin. rewrite Hmin. exact Hlow. }
  assert (Hhalf : bpow e / 2 <= Rabs x * bpow (- prec)).
  { rewrite bpow_pred, bpow_add in He.
    pose proof (bpow_pos e). pose proof (bpow_pos prec).
    rewrite bpow_opp.
    apply Rmult_le_reg_r with (bpow prec); [lra|].
    replace (Rabs x * / bpow prec * bpow prec) with (Rabs x) by (field; lra).
    lra. }
  assert (Hx0 : x <> 0).
  { intros ->. rewrite Rabs_R0 in Hlow.
    pose proof (bpow_pos (emin + prec - 1)). lra. }
  assert (Hu : bpow (- prec) <= / 2).
  { apply Rle_trans with (bpow (0 - 1)).
    - apply bpow_le. lia.
    - rewrite bpow_pred, bpow_0. lra. }
  assert (Hv : Rabs v < bpow emax).
  { assert (Hvx : Rabs v <= Rabs x + Rabs (v - x)).
    { replace v with (x + (v - x)) at 1 by lra. apply Rabs_triang. }
    assert (Hx2 : Rabs x * bpow (- prec) <= Rabs x / 2).
    { pose proof (Rabs_pos x). nra. }
    assert (Hmax : bpow emax = 2 * bpow (emax - 1)).
    { rewrite bpow_pred. lra. }
    assert (Hxpos : 0 < Rabs x) by (apply Rabs_pos_lt; exact Hx0).
    lra. }
  rewrite bool_decide_eq_true_2 by exact Hv.
  exists ((v - x) / x). split.
  - unfold Rdiv. rewrite Rabs_mult, Rabs_inv.
    assert (Hxpos : 0 < Rabs x) by (apply Rabs_pos_lt; exact Hx0).
    apply Rmult_le_reg_r with (Rabs x); [exact Hxpos|].
    replace (Rabs (v - x) * / Rabs x * Rabs x) with (Rabs (v - x))
      by (field; lra).
    lra.
  - f_equal. field. exact Hx0.
Qed.

(** A finite value of the format is rounded to itself. *)
Lemma round_to_format_id (m e : Z) :
  (Z.abs m < 2 ^ prec)%Z -> (emin <= e <= emax - prec)%Z ->
  round (IZR m * bpow e) = Fin (IZR m * bpow e).
Proof.
  intros Hm He. set (x := IZR m * bpow e).
  assert (Hx : Rabs x < bpow (e + prec)).
  { unfold x. rewrite Rabs_mult, (Rabs_pos_eq (bpow e))
      by (apply Rlt_le, bpow_pos).
    rewrite bpow_add, Rmult_comm.
    apply Rmult_lt_compat_l; [apply bpow_pos|].
    rewrite bpow_IZR by lia. rewrite <- abs_IZR. apply IZR_lt. exact Hm. }
  pose proof (canonical_exponent_least e x (proj1 He) Hx) as Hle.
  pose proof (canonical_exponent_range x) as Hr.
  unfold round_to_format. cbv zeta.
  set (c := cexp x) in *.
  assert (Hy : x / bpow c = IZR (m * 2 ^ (e - c))).
  { unfold x. rewrite mult_IZR, <- bpow_IZR by lia.
    replace e with (c + (e - c))%Z at 1 by lia.
    rewrite bpow_add. pose proof (bpow_pos c). field. lra. }
  rewrite Hy, round_half_even_IZR, <- Hy.
  replace (x / bpow c * bpow c) with x
    by (pose proof (bpow_pos c); field; lra).
  rewrite bool_decide_eq_true_2; [reflexivity|].
  apply Rlt_le_trans with (bpow (e + prec)); [exact Hx|].
  apply bpow_le. lia.
Qed.

(** The value of [round] at a number that is not halfway between two
    neighbours of the format, from its binade and its nearest multiple of
    the unit in the last place. *)
Lemma round_to_format_eval (m e : Z) x :
  (emin <= e <= emax - prec)%Z ->
  e = emin \/ bpow (e + prec - 1) <= Rabs x ->
  Rabs x < bpow (e + prec) ->
  IZR m * bpow e - bpow e / 2 < x < IZR m * bpow e + bpow e / 2 ->
  Rabs (IZR m * bpow e) < bpow emax ->
  round x = Fin (IZR m * bpow e).
Proof.
  intros He Hlow Hup Hm Hv.
  unfold round_to_format. cbv zeta.
  rewrite (canonical_exponent_eq e x He Hlow Hup).
  rewrite (round_half_even_eval m).
  - rewrite bool_decide_eq_true_2 by exact Hv. reflexivity.
  - pose proof (bpow_pos e) as Hpos. destruct Hm as [Hm1 Hm2]. split.
    + apply Rmult_lt_reg_r with (bpow e); [exact Hpos|].
      replace (x / bpow e * bpow e) with x by (field; lra). lra.
    + apply Rmult_lt_reg_r with (bpow e); [exact Hpos|].
      replace (x / bpow e * bpow e) with x by (field; lra). lra.
Qed.

(** A number at or above the bound of the format overflows. *)
Lemma round_to_format_overflow x :
  bpow emax <= Rabs x ->
  round x = if bool_decide (0 < x) then PInf else NInf.
Proof.
  intros Hx. unfold round_to_format. cbv zeta.
  pose proof (round_value_error x) as Herr. cbv zeta in Herr.
  pose proof (canonical_exponent_range x) as Hr.
  set (e := cexp x) in *.
  set (v := IZR (round_half_even (x / bpow e)) * bpow e) in *.
  rewrite bool_decide_eq_false_2; [reflexivity|].
  (* the rounded value is a multiple of the unit, at least the bound *)
  pose proof (bpow_pos e) as Hpos.
  assert (Hmax : bpow emax = IZR (2 ^ (emax - e)) * bpow e).
  { rewrite <- bpow_IZR by lia. rewrite <- bpow_add. f_equal. lia. }
  intros Hv.
  assert (Hvx : Rabs x - Rabs v <= Rabs (v - x)).
  { replace (v - x) with (- (x - v)) by lra. rewrite Rabs_Ropp.
    apply Rabs_triang_inv. }
  assert (Hgap : Rabs v <= bpow emax - bpow e).
  { unfold v in *. rewrite Rabs_mult, (Rabs_pos_eq (bpow e)) in * by lra.
    rewrite <- abs_IZR in *. rewrite Hmax in Hv |- *.
    apply Rmult_lt_reg_r in Hv; [|exact Hpos].
    apply lt_IZR in Hv.
    assert (Hz : (Z.abs (round_half_even (x / bpow e)) <=
                  2 ^ (emax - e) - 1)%Z) by lia.
    apply IZR_le in Hz. rewrite minus_IZR in Hz. nra. }
  lra.
Qed.

(** The sign of the result. *)
Lemma round_to_format_nonneg x v :
  0 <= x -> round x = Fin v -> 0 <= v.
Proof.
  intros Hx. unfold round_to_format. cbv zeta.
  case_bool_decide; [|case_bool_decide; discriminate].
  intros Hv. injection Hv as <-.
  pose proof (bpow_pos (cexp x)) as Hpos.
  apply Rmult_le_pos; [|lra].
  apply IZR_le. apply round_half_even_nonneg.
  apply Rmult_le_pos; [exact Hx|]. apply Rlt_le, Rinv_0_lt_compat, Hpos.
Qed.

Lemma round_to_format_not_NInf x : 0 <= x -> round x <> NInf.
Proof.
  intros Hx. unfold round_to_format. cbv zeta.
  case_bool_decide as Hv; [discriminate|].
  case_bool_decide as H0; [discriminate|].
  exfalso. assert (x = 0) by lra. subst x. apply Hv.
  unfold Rdiv. rewrite Rmult_0_l.
  rewrite (round_half_even_IZR 0). rewrite Rmult_0_l, Rabs_R0.
  apply bpow_pos.
Qed.

Lemma round_to_format_nonpos x :
  x <= 0 -> round x = NInf \/ exists v, round x = Fin v /\ v <= 0.
Proof.
  intros Hx. unfold round_to_format. cbv zeta.
  case_bool_decide.
  - right. eexists. split; [reflexivity|].
    pose proof (bpow_pos (cexp x)) as Hpos.
    assert (Hm : IZR (round_half_even (x / bpow (cexp x))) <= 0).
    { apply IZR_le. apply round_half_even_nonpos.
      unfold Rdiv. pose proof (Rinv_0_lt_compat _ Hpos). nra. }
    nra.
  - left. rewrite bool_decide_eq_false_2 by lra. reflexivity.
Qed.

(** The absolute error of a rounding that stays finite: half the least
    positive value of the format for a number below the normal range, the
    relative error [2 ^ - prec] otherwise. *)
Lemma round_to_format_error x v :
  round x = Fin v ->
  Rabs (v - x) <= bpow emin / 2 \/ Rabs (v - x) <= Rabs x * bpow (- prec).
Proof.
  unfold round_to_format. cbv zeta.
  case_bool_decide; [|case_bool_decide; discriminate].
  intros Hv. injection Hv as <-.
  pose proof (round_value_error x) as Herr. cbv zeta in Herr.
  destruct (canonical_exponent_lower x) as [Hmin|Hb].
  - left. rewrite Hmin in Herr at 3. exact Herr.
  - right. set (e := cexp x) in *.
    rewrite bpow_pred, bpow_add in Hb.
    pose proof (bpow_pos e). pose proof (bpow_pos prec).
    rewrite bpow_opp.
    apply Rle_trans with (bpow e / 2); [exact Herr|].
    apply Rmult_le_reg_r with (bpow prec); [lra|].
    replace (Rabs x * / bpow prec * bpow prec) with (Rabs x) by (field; lra).
    lra.
Qed.

(** A number two binades below the bound of the format is rounded to a
    finite value. *)
Lemma round_to_format_finite x :
  Rabs x <= bpow (emax - 2) ->
  exists v, round x = Fin v /\ Rabs (v - x) <= (Rabs x + bpow emin) / 2.
Proof.
  intros Hx.
  pose proof (round_value_error x) as Herr. cbv zeta in Herr.
  unfold round_to_format. cbv zeta.
  set (e := cexp x) in *.
  set (v := IZR (round_half_even (x / bpow e)) * bpow e) in *.
  pose proof (bpow_pos emin) as Hmin. pose proof (Rabs_pos x) as Hx0.
  assert (He : bpow e <= Rabs x + bpow emin).
  { destruct (canonical_exponent_lower x) as [Heq|Hb].
    - fold e in Heq. rewrite Heq. lra.
    - fold e in Hb.
      apply Rle_trans with (bpow (e + prec - 1)); [apply bpow_le; lia|lra]. }
  assert (Hv : Rabs (v - x) <= (Rabs x + bpow emin) / 2) by lra.
  exists v. split; [|exact Hv].
  rewrite bool_decide_eq_true_2; [reflexivity|].
  assert (Hvx : Rabs v <= Rabs x + Rabs (v - x)).
  { replace v with (x + (v - x)) at 1 by lra. apply Rabs_triang. }
  assert (Hb1 : bpow emin <= bpow (emax - 1)) by (apply bpow_le; lia).
  assert (Hb2 : bpow (emax - 2) = bpow emax / 4).
  { replace (emax - 2)%Z with (emax - 1 - 1)%Z by lia.
    rewrite !bpow_pred. lra. }
  assert (Hb3 : bpow (emax - 1) = bpow emax / 2) by apply bpow_pred.
  pose proof (bpow_pos emax). lra.
Qed.

End FormatFacts.

(** *** The formats [float] and [double] *)

Lemma to_float_id (m e : Z) :
  (Z.abs m < 2 ^ 24)%Z -> (-149 <= e <= 104)%Z ->
  to_float (Fin (IZR m * bpow e)) = Fin (IZR m * bpow e).
Proof. intros Hm He. apply round_to_format_id; try lia; assumption. Qed.

Lemma to_double_id (m e : Z) :
  (Z.abs m < 2 ^ 53)%Z -> (-1074 <= e <= 971)%Z ->
  to_double (Fin (IZR m * bpow e)) = Fin (IZR m * bpow e).
Proof. intros Hm He. apply round_to_format_id; try lia; assumption. Qed.

(** Integers below [2 ^ 24] are values of both formats. *)
Lemma to_float_int (n : Z) :
  (Z.abs n < 2 ^ 24)%Z -> to_float (Fin (IZR n)) = Fin (IZR n).
Proof.
  intros Hn. pose proof (to_float_id n 0 Hn) as Hid.
  rewrite bpow_0, Rmult_1_r in Hid. apply Hid. lia.
Qed.

Lemma to_double_int (n : Z) :
  (Z.abs n < 2 ^ 53)%Z -> to_double (Fin (IZR n)) = Fin (IZR n).
Proof.
  intros Hn. pose proof (to_double_id n 0 Hn) as Hid.
  rewrite bpow_0, Rmult_1_r in Hid. apply Hid. lia.
Qed.

Lemma to_float_0 : to_float Fzero = Fzero.
Proof. apply (to_float_int 0). reflexivity. Qed.

Lemma to_float_1 : to_float Fone = Fone.
Proof. apply (to_float_int 1). reflexivity. Qed.

Lemma to_double_1 : to_double Fone = Fone.
Proof. apply (to_double_int 1). reflexivity. Qed.

Lemma to_float_relative x :
  bpow (-126) <= Rabs x -> Rabs x <= bpow 127 ->
  exists eps, Rabs eps <= bpow (-24) /\ to_float (Fin x) = Fin (x * (1 + eps)).
Proof.
  intros Hl Hu.
  apply (round_to_format_relative 24 (-149) 128); try lia; assumption.
Qed.

Lemma to_double_relative x :
  bpow (-1022) <= Rabs x -> Rabs x <= bpow 1023 ->
  exists eps, Rabs eps <= bpow (-53) /\ to_double (Fin x) = Fin (x * (1 + eps)).
Proof.
  intros Hl Hu.
  apply (round_to_format_relative 53 (-1074) 1024); try lia; assumption.
Qed.

Lemma to_float_overflow x : bpow 128 <= x -> to_float (Fin x) = PInf.
Proof.
  intros Hx. pose proof (bpow_pos 128) as Hpos. cbn [to_float].
  rewrite round_to_format_overflow; try lia; [|rewrite Rabs_pos_eq; lra].
  rewrite bool_decide_eq_true_2 by lra. reflexivity.
Qed.

Lemma round_to_format_not_NaN prec emin emax x :
  round_to_format prec emin emax x <> NaN.
Proof.
  unfold round_to_format. cbv zeta. repeat case_bool_decide; discriminate.
Qed.

Lemma to_float_NaN x : to_float x = NaN -> x = NaN.
Proof.
  destruct x as [r| | |]; cbn [to_float]; try discriminate; [|reflexivity].
  intros Hr. exfalso. exact (round_to_format_not_NaN _ _ _ _ Hr).
Qed.

Lemma to_float_fin_inv x v :
  to_float x = Fin v -> exists r, x = Fin r /\ to_float (Fin r) = Fin v.
Proof. destruct x as [r| | |]; try discriminate. eauto. Qed.

Lemma to_float_PInf_inv x :
  to_float x = PInf -> x = PInf \/ exists r, x = Fin r /\ 0 < r.
Proof.
  destruct x as [r| | |]; cbn [to_float]; try discriminate; [|auto].
  unfold round_to_format. cbv zeta.
  case_bool_decide; [discriminate|].
  case_bool_decide; [|discriminate]. eauto.
Qed.

(** Evaluation of [to_float] away from the halfway points. *)
Lemma to_float_eval (m e : Z) x :
  (-149 <= e <= 104)%Z ->
  bpow (e + 23) <= Rabs x < bpow (e + 24) ->
  IZR m * bpow e - bpow e / 2 < x < IZR m * bpow e + bpow e / 2 ->
  Rabs (IZR m * bpow e) < bpow 128 ->
  to_float (Fin x) = Fin (IZR m * bpow e).
Proof.
  intros He [Hl Hu] Hm Hv.
  apply (round_to_format_eval 24 (-149) 128); try assumption; try lia.
  right. replace (e + 24 - 1)%Z with (e + 23)%Z by lia. exact Hl.
Qed.

(** *** Ranges of positive values, by their binary exponents *)

Lemma Rabs_le_bounds x a : Rabs x <= a -> - a <= x <= a.
Proof. unfold Rabs. destruct (Rcase_abs x); lra. Qed.

Lemma bpow_mul_range (a b c d : Z) x y :
  bpow a <= x <= bpow b -> bpow c <= y <= bpow d ->
  bpow (a + c) <= x * y <= bpow (b + d).
Proof.
  intros [Hx1 Hx2] [Hy1 Hy2]. rewrite !bpow_add.
  pose proof (bpow_pos a). pose proof (bpow_pos c). split; nra.
Qed.

Lemma bpow_div_range (a b c d : Z) x y :
  bpow a <= x <= bpow b -> bpow c <= y <= bpow d ->
  bpow (a - d) <= x / y <= bpow (b - c).
Proof.
  intros Hx [Hy1 Hy2]. unfold Rdiv, Z.sub.
  pose proof (bpow_pos c) as Hc. pose proof (bpow_pos d) as Hd.
  apply bpow_mul_range; [exact Hx|].
  rewrite !bpow_opp. split.
  - apply Rinv_le_contravar; lra.
  - apply Rinv_le_contravar; lra.
Qed.

Lemma bpow_sqrt_range (a b : Z) x :
  bpow (2 * a) <= x <= bpow (2 * b) -> bpow a <= sqrt x <= bpow b.
Proof.
  intros [Hx1 Hx2].
  assert (Hsq : forall k, sqrt (bpow (2 * k)) = bpow k).
  { intros k. replace (2 * k)%Z with (k + k)%Z by lia. rewrite bpow_add.
    apply sqrt_square. apply Rlt_le, bpow_pos. }
  rewrite <- (Hsq a), <- (Hsq b).
  split; apply sqrt_le_1_alt; assumption.
Qed.

Lemma relative_error_range eps :
  Rabs eps <= bpow (-24) ->
  1 - bpow (-24) <= 1 + eps <= 1 + bpow (-24).
Proof. intros Heps. apply Rabs_le_bounds in Heps. lra. Qed.

Lemma bpow_m24_small : 0 < bpow (-24) <= / 16.
Proof.
  split; [apply bpow_pos|].
  replace (bpow (-24)) with (/ IZR (2 ^ 24))
    by (symmetry; apply (bpow_opp_IZR 24); lia).
  change (2 ^ 24)%Z with 16777216%Z. lra.
Qed.

Lemma bpow_m53_small : 0 < bpow (-53) <= / 16.
Proof.
  split; [apply bpow_pos|].
  apply Rle_trans with (bpow (-24)); [apply bpow_le; lia|].
  apply bpow_m24_small.
Qed.

(** Rounding a positive number whose range of exponents lies in the normal
    range of [float]: the result, its relative error and its range. *)
Lemma to_float_range (lo hi : Z) x :
  (-126 <= lo)%Z -> (hi <= 127)%Z ->
  bpow lo <= x <= bpow hi ->
  exists eps v,
    Rabs eps <= bpow (-24) /\ to_float (Fin x) = Fin v /\
    v = x * (1 + eps) /\ bpow (lo - 1) <= v <= bpow (hi + 1).
Proof.
  intros Hlo Hhi [Hx1 Hx2].
  pose proof (bpow_pos lo) as Hpos.
  destruct (to_float_relative x) as (eps & Heps & Hv).
  { rewrite Rabs_pos_eq by lra.
    apply Rle_trans with (bpow lo); [apply bpow_le; lia|exact Hx1]. }
  { rewrite Rabs_pos_eq by lra.
    apply Rle_trans with (bpow hi); [exact Hx2|apply bpow_le; lia]. }
  exists eps, (x * (1 + eps)). split; [exact Heps|].
  split; [exact Hv|]. split; [reflexivity|].
  pose proof (relative_error_range eps Heps) as Hr.
  pose proof bpow_m24_small as Hu.
  rewrite bpow_pred, bpow_succ. split; nra.
Qed.

Lemma to_double_range (lo hi : Z) x :
  (-1022 <= lo)%Z -> (hi <= 1023)%Z ->
  bpow lo <= x <= bpow hi ->
  exists eps v,
    Rabs eps <= bpow (-53) /\ to_double (Fin x) = Fin v /\
    v = x * (1 + eps) /\ bpow (lo - 1) <= v <= bpow (hi + 1).
Proof.
  intros Hlo Hhi [Hx1 Hx2].
  pose proof (bpow_pos lo) as Hpos.
  destruct (to_double_relative x) as (eps & Heps & Hv).
  { rewrite Rabs_pos_eq by lra.
    apply Rle_trans with (bpow lo); [apply bpow_le; lia|exact Hx1]. }
  { rewrite Rabs_pos_eq by lra.
    apply Rle_trans with (bpow hi); [exact Hx2|apply bpow_le; lia]. }
  exists eps, (x * (1 + eps)). split; [exact Heps|].
  split; [exact Hv|]. split; [reflexivity|].
  apply Rabs_le_bounds in Heps.
  pose proof bpow_m53_small as Hu.
  rewrite bpow_pred, bpow_succ. split; nra.
Qed.

(** The square root of a number close to one. *)
Lemma sqrt_near_one u t :
  0 <= u <= 1 -> 1 - u <= t <= 1 + u -> 1 - u <= sqrt t <= 1 + u.
Proof.
  intros Hu Ht. split.
  - rewrite <- (sqrt_square (1 - u)) by lra.
    apply sqrt_le_1_alt. nra.
  - rewrite <- (sqrt_square (1 + u)) by lra.
    apply sqrt_le_1_alt. nra.
Qed.

(** A quotient of products of factors close to one. *)
Lemma ratio_near_one u x1 x2 x3 x4 x5 :
  0 <= u <= / 16 ->
  1 - u <= x1 <= 1 + u -> 1 - u <= x2 <= 1 + u ->
  1 - u <= x3 <= 1 + u -> 1 - u <= x4 <= 1 + u -> 1 - u <= x5 <= 1 + u ->
  Rabs (x1 * x2 / (x3 * x4 * x5) - 1) <= 8 * u.
Proof.
  intros Hu H1 H2 H3 H4 H5.
  assert (HN : (1 - u) * (1 - u) <= x1 * x2 <= (1 + u) * (1 + u)) by nra.
  assert (H34 : (1 - u) * (1 - u) <= x3 * x4 <= (1 + u) * (1 + u)) by nra.
  assert (HD : (1 - u) * (1 - u) * (1 - u) <= x3 * x4 * x5
               <= (1 + u) * (1 + u) * (1 + u)).
  { split.
    - apply Rle_trans with ((1 - u) * (1 - u) * x5); nra.
    - apply Rle_trans with ((1 + u) * (1 + u) * x5); nra. }
  set (N := x1 * x2) in *. set (D := x3 * x4 * x5) in *.
  assert (Hlow : 0 < (1 - u) * (1 - u) * (1 - u)).
  { apply Rmult_lt_0_compat; [apply Rmult_lt_0_compat|]; lra. }
  assert (HD0 : 0 < D) by lra.
  assert (Hup : (1 + u) * (1 + u) <= (1 + 8 * u) * ((1 - u) * (1 - u) * (1 - u))).
  { assert (0 <= u * u) by nra. assert (u * u <= u / 16) by nra.
    assert (0 <= u * u * u) by nra. assert (u * u * u <= u * u / 16) by nra.
    assert (0 <= u * u * u * u) by nra.
    assert (u * u * u * u <= u * u * u / 16) by nra.
    nra. }
  assert (Hdn : (1 - 8 * u) * ((1 + u) * (1 + u) * (1 + u)) <= (1 - u) * (1 - u)).
  { assert (0 <= u * u) by nra. assert (0 <= u * u * u) by nra.
    assert (0 <= u * u * u * u) by nra. nra. }
  assert (H8 : 0 <= 1 - 8 * u) by lra.
  apply Rabs_le. split.
  - apply Rmult_le_reg_r with D; [exact HD0|].
    replace ((N / D - 1) * D) with (N - D) by (field; lra).
    assert ((1 - 8 * u) * D <= (1 - 8 * u) * ((1 + u) * (1 + u) * (1 + u)))
      by (apply Rmult_le_compat_l; lra).
    lra.
  - apply Rmult_le_reg_r with D; [exact HD0|].
    replace ((N / D - 1) * D) with (N - D) by (field; lra).
    assert ((1 + 8 * u) * ((1 - u) * (1 - u) * (1 - u)) <= (1 + 8 * u) * D)
      by (apply Rmult_le_compat_l; lra).
    lra.
Qed.

(** ** Train *)

Section TrainProps.
Context `{Compression} `{!RealParser} `{!Executor}.

Lemma same_model_refl st : same_model st st.
Proof. repeat split. Qed.

Lemma same_model_trans st1 st2 st3 :
  same_model st1 st2 -> same_model st2 st3 -> same_model st1 st3.
Proof.
  unfold same_model. intros (?&?&?&?&?&?) (?&?&?&?&?&?).
  repeat split; congruence.
Qed.

Lemma update_stats_same_model st name w o st' :
  update_stats st name w o = Ok st' -> same_model st st'.
Proof.
  unfold update_stats. intros Hu.
  destruct (UpdateStats _ name _ _ w o Fzero) as [[info log]|];
    [|discriminate].
  simpl in Hu. injection Hu as <-. repeat split.
Qed.

Lemma accept_deriv_same t computer io name scale deriv computer' :
  accept_deriv t computer io name scale deriv = Ok computer' ->
  computer_nnet computer' = computer_nnet computer /\
  computer_eg computer' = computer_eg computer.
Proof.
  unfold accept_deriv. intros Ha.
  destruct (if apply_deriv_weights (config_ t) && _ then _ else _) as [d|];
    [|discriminate].
  simpl in Ha. injection Ha as <-. split; reflexivity.
Qed.

Lemma process_regularizer_same_model io obj_type scale st st' :
  process_regularizer io obj_type scale st = Ok st' -> same_model st st'.
Proof.
  unfold process_regularizer. intros Hp.
  destruct (add_regularizer _); [|injection Hp as <-; apply same_model_refl].
  case_bool_decide; [|injection Hp as <-; apply same_model_refl].
  destruct (KALDI_ASSERT _) as [[]|]; [|discriminate]. simpl in Hp.
  destruct (ComputeRegularizer _ _ _ _) as [r|]; [|discriminate].
  simpl in Hp.
  destruct (match res_output_deriv r with Some _ => _ | None => _ end)
    as [computer|] eqn:Hc; [|discriminate].
  simpl in Hp. apply update_stats_same_model in Hp.
  destruct Hp as (?&?&?&?&Hn&He). simpl in *.
  assert (computer_nnet computer = computer_nnet (ps_computer st) /\
          computer_eg computer = computer_eg (ps_computer st)) as [Hn' He'].
  { destruct (res_output_deriv r).
    - eapply accept_deriv_same. exact Hc.
    - injection Hc as <-. split; reflexivity. }
  repeat split; congruence.
Qed.

Lemma process_io_same_model io st st' :
  process_io io st = Ok st' -> same_model st st'.
Proof.
  unfold process_io. intros Hp.
  destruct (KALDI_ASSERT _) as [[]|]; [|discriminate]. simpl in Hp.
  destruct (IsOutputNode _ _); [|injection Hp as <-; apply same_model_refl].
  destruct (ComputeObjectiveFunction _ _ _ _ _) as [r|]; [|discriminate].
  simpl in Hp.
  destruct (match res_output_deriv r with Some _ => _ | None => _ end)
    as [computer|] eqn:Hc; [|discriminate].
  simpl in Hp.
  destruct (update_stats _ _ _ _) as [st1|] eqn:Hu; [|discriminate].
  simpl in Hp.
  apply update_stats_same_model in Hu.
  apply process_regularizer_same_model in Hp.
  assert (computer_nnet computer = computer_nnet (ps_computer st) /\
          computer_eg computer = computer_eg (ps_computer st)) as [Hn' He'].
  { destruct (res_output_deriv r).
    - eapply accept_deriv_same. exact Hc.
    - injection Hc as <-. split; reflexivity. }
  destruct Hu as (?&?&?&?&?&?), Hp as (?&?&?&?&?&?). simpl in *.
  repeat split; congruence.
Qed.

Lemma process_ios_same_model ios : forall st st',
  process_ios ios st = Ok st' -> same_model st st'.
Proof.
  induction ios as [|io ios IH]; intros st st' Hp; simpl in Hp.
  - injection Hp as <-. apply same_model_refl.
  - destruct (process_io io st) as [st1|] eqn:Hio; [|discriminate].
    simpl in Hp. eapply same_model_trans.
    + eapply process_io_same_model. exact Hio.
    + apply IH. exact Hp.
Qed.

Lemma ProcessOutputs_same_model t eg st :
  ProcessOutputs t eg (mkNnetComputer (nnet_ t) eg []) = Ok st ->
  config_ (ps_trainer st) = config_ t /\
  nnet_ (ps_trainer st) = nnet_ t /\
  delta_nnet_ (ps_trainer st) = delta_nnet_ t /\
  objective_scales_ (ps_trainer st) = objective_scales_ t /\
  computer_nnet (ps_computer st) = nnet_ t /\
  computer_eg (ps_computer st) = eg.
Proof.
  intros Hp. apply process_ios_same_model in Hp. exact Hp.
Qed.


Lemma Backward_length computer nnet_to_update :
  length (params nnet_to_update) = length (params (computer_nnet computer)) ->
  length (params (Backward computer nnet_to_update)) =
    length (params nnet_to_update).
Proof.
  intros Hl. simpl. rewrite length_zip_with, BackwardDeriv_length. lia.
Qed.


End TrainProps.

(** ** ProcessOutputs and the regularizer node *)

Section RegularizerKind.
Context `{Compression} `{!Executor}.





Lemma UpdateStats_totals info name mpp counter w o a info' log :
  UpdateStats info name mpp counter w o a = Ok (info', log) ->
  tot_weight info' = Fadd (tot_weight info) w /\
  tot_objf info' = Fadd (tot_objf info) o.
Proof.
  unfold UpdateStats. intros Hu.
  case_bool_decide; [discriminate|].
  case_bool_decide; simpl in Hu.
  - destruct (KALDI_ASSERT _) as [[]|]; [|discriminate]. simpl in Hu.
    injection Hu as <- _. split; reflexivity.
  - injection Hu as <- _. split; reflexivity.
Qed.

Lemma update_stats_totals st name w o st' :
  update_stats st name w o = Ok st' ->
  exists info',
    objf_info_ (ps_trainer st') = <[name := info']> (objf_info_ (ps_trainer st)) /\
    tot_weight info' =
      Fadd (tot_weight (default ObjectiveFunctionInfo_new
                          (objf_info_ (ps_trainer st) !! name))) w /\
    tot_objf info' =
      Fadd (tot_objf (default ObjectiveFunctionInfo_new
                        (objf_info_ (ps_trainer st) !! name))) o.
Proof.
  unfold update_stats. intros Hu.
  destruct (UpdateStats _ name _ _ w o Fzero) as [[info' log]|] eqn:HU;
    [|discriminate].
  simpl in Hu. injection Hu as <-. simpl.
  exists info'. split; [reflexivity|].
  eapply UpdateStats_totals. exact HU.
Qed.



End RegularizerKind.

(** ** The update rule *)

Lemma Fadd_fin_inv x y r :
  Fadd x y = Fin r -> exists a b, x = Fin a /\ y = Fin b /\ r = a + b.
Proof.
  destruct x, y; simpl; intros Heq; try discriminate.
  injection Heq as <-. eauto.
Qed.

Lemma inf_times_not_fin pos a r : inf_times pos a <> Fin r.
Proof.
  unfold inf_times. repeat case_bool_decide; destruct pos; discriminate.
Qed.

Lemma Fmul_fin_inv x y r :
  Fmul x y = Fin r -> exists a b, x = Fin a /\ y = Fin b /\ r = a * b.
Proof.
  destruct x, y; simpl; intros Heq; try discriminate;
    try (exfalso; eapply inf_times_not_fin; exact Heq).
  injection Heq as <-. eauto.
Qed.

Lemma Fge_0_inv x :
  Fge x Fzero = true -> x = PInf \/ exists a, x = Fin a /\ 0 <= a.
Proof.
  unfold Fge. destruct x; simpl; try discriminate; [|auto].
  intros Hge. right. exists r. split; [reflexivity|].
  apply orb_true_iff in Hge.
  destruct Hge as [Hgt|Heq].
  - apply bool_decide_eq_true in Hgt. lra.
  - apply bool_decide_eq_true in Heq. lra.
Qed.

Lemma VecVec_cons x y u v :
  VecVec (x :: u) (y :: v) = Fadd (Fmul x y) (VecVec u v).
Proof. reflexivity. Qed.

Lemma VecVec_fin (xs : list R) : forall ys : list R,
  VecVec (Fin <$> xs) (Fin <$> ys) = Fin (Rdot xs ys).
Proof.
  induction xs as [|x xs IH]; intros [|y ys]; try reflexivity.
  rewrite !fmap_cons, VecVec_cons, IH. reflexivity.
Qed.

Lemma VecVec_self_finite (v : Vector) : forall r,
  VecVec v v = Fin r -> exists xs : list R, v = Fin <$> xs.
Proof.
  induction v as [|x v IH]; intros r Hr.
  - exists []. reflexivity.
  - rewrite VecVec_cons in Hr.
    apply Fadd_fin_inv in Hr as (a & b & Hx & Hv & _).
    apply Fmul_fin_inv in Hx as (a1 & _ & -> & _ & _).
    destruct (IH _ Hv) as (xs & ->).
    exists (a1 :: xs). reflexivity.
Qed.

Lemma Rdot_scale k (xs : list R) : forall ys : list R,
  Rdot (Rmult k <$> xs) (Rmult k <$> ys) = k * k * Rdot xs ys.
Proof.
  unfold Rdot.
  induction xs as [|x xs IH]; intros [|y ys]; simpl; try lra.
  rewrite IH. lra.
Qed.

Lemma Rdot_self_nonneg (xs : list R) : 0 <= Rdot xs xs.
Proof.
  unfold Rdot. induction xs as [|x xs IH]; simpl; [lra|]. nra.
Qed.

Lemma fmap_Fmul_fin k (xs : list R) :
  Fmul (Fin k) <$> (Fin <$> xs) = Fin <$> (Rmult k <$> xs).
Proof.
  induction xs as [|x xs IH]; [reflexivity|].
  rewrite !fmap_cons, IH. reflexivity.
Qed.

Lemma zip_with_Fadd_scaled alpha (dest src : Vector) :
  zip_with (fun d s => Fadd d (Fmul alpha s)) dest src =
    zip_with Fadd dest (Fmul alpha <$> src).
Proof.
  revert src. induction dest as [|d dest IH]; intros [|s src];
    try reflexivity.
  simpl. rewrite IH. reflexivity.
Qed.

Lemma zip_with_Fadd_zero (k : R) (dest : Vector) : forall src : Vector,
  length src = length dest ->
  zip_with (fun d s => Fadd d (Fmul (Fin k) s)) dest
    ((fun _ => Fzero) <$> src) = dest.
Proof.
  induction dest as [|d dest IH]; intros [|s src] Hl;
    try reflexivity; try discriminate.
  simpl. rewrite IH by (simpl in Hl; lia).
  f_equal. destruct d; simpl; try reflexivity. f_equal. lra.
Qed.

Lemma fmap_Fmul_zero (k : R) (src : Vector) :
  Fmul (Fin k) <$> ((fun _ => Fzero) <$> src) = replicate (length src) Fzero.
Proof.
  induction src as [|s src IH]; [reflexivity|].
  simpl. rewrite <- IH. f_equal. unfold Fzero. f_equal. lra.
Qed.

Lemma Fne_sub_self (p : R) :
  Fne (to_float (Fsub (Fin p) (Fin p))) Fzero = false.
Proof.
  unfold Fsub. cbn [Fopp Fadd].
  replace (p + - p) with 0 by lra.
  change (Fin 0) with Fzero. rewrite to_float_0.
  unfold Fne. rewrite Feq_0_0. reflexivity.
Qed.

(** Brings the exponents of the powers of two in [H] to literals. *)
Ltac norm_bpow_in H :=
  repeat match type of H with
  | context [bpow ?z] =>
      lazymatch z with
      | Z0 => fail
      | Zpos _ => fail
      | Zneg _ => fail
      | _ => let z' := eval vm_compute in z in
             change (bpow z) with (bpow z') in H
      end
  end.

(** The operations that lead to [param_delta], for a dot product [a] that
    [DotProduct] returned and a momentum [m] in ranges where none of them
    underflows or overflows: each result with its relative error. *)
Lemma param_delta_steps (a m p : R) :
  bpow (-126) <= a <= bpow 60 ->
  bpow (-24) <= 1 - m <= 1 ->
  to_float (Fmul (to_float (Fsqrt (Fin a)))
                 (to_float (to_double (Fsub Fone (Fin m))))) = Fin p ->
  exists e2 e4 c1,
    Rabs e2 <= bpow (-24) /\ Rabs e4 <= bpow (-24) /\
    to_float (to_double (Fsub Fone (Fin m))) = Fin c1 /\
    bpow (-26) <= c1 <= bpow 2 /\
    p = sqrt a * (1 + e2) * c1 * (1 + e4) /\
    bpow (-92) <= p <= bpow 35.
Proof.
  intros Ha Hm Hp.
  pose proof (bpow_pos (-126)) as Hpos126.
  cbn [Fsqrt] in Hp. rewrite bool_decide_eq_false_2 in Hp by lra.
  assert (Hs1 : bpow (-63) <= sqrt a <= bpow 30).
  { apply bpow_sqrt_range.
    change (2 * -63)%Z with (-126)%Z. change (2 * 30)%Z with 60%Z.
    exact Ha. }
  destruct (to_float_range (-63) 30 (sqrt a))
    as (e2 & a2 & He2 & Ha2 & Ha2v & Ha2r); [lia|lia|exact Hs1|].
  norm_bpow_in Ha2r. rewrite Ha2 in Hp.
  unfold Fsub in Hp |- *. cbn [Fopp Fadd Fone] in Hp |- *.
  destruct (to_double_range (-24) 0 (1 + - m))
    as (e0 & c0 & He0 & Hc0 & Hc0v & Hc0r); [lia|lia|rewrite bpow_0; lra|].
  norm_bpow_in Hc0r. rewrite Hc0 in Hp |- *.
  destruct (to_float_range (-25) 1 c0)
    as (e3 & c1 & He3 & Hc1 & Hc1v & Hc1r); [lia|lia|exact Hc0r|].
  norm_bpow_in Hc1r. rewrite Hc1 in Hp |- *.
  cbn [Fmul] in Hp.
  pose proof (bpow_mul_range _ _ _ _ _ _ Ha2r Hc1r) as Hpr0.
  norm_bpow_in Hpr0.
  destruct (to_float_range (-90) 33 (a2 * c1))
    as (e4 & p' & He4 & Hp' & Hpv & Hpr); [lia|lia|exact Hpr0|].
  norm_bpow_in Hpr. rewrite Hp' in Hp. injection Hp as ->.
  exists e2, e4, c1.
  split; [exact He2|]. split; [exact He4|]. split; [reflexivity|].
  split; [exact Hc1r|]. split; [rewrite Hpv, Ha2v; reflexivity|].
  split.
  - apply Rle_trans with (bpow (-91)); [apply bpow_le; lia|lra].
  - apply Rle_trans with (bpow 34); [lra|apply bpow_le; lia].
Qed.

Lemma bpow_m21 : bpow (-21) = 8 * bpow (-24).
Proof.
  change (-21)%Z with (3 + -24)%Z. rewrite bpow_add.
  f_equal. rewrite (bpow_IZR 3) by lia. reflexivity.
Qed.

(** The scale of a clipped step.  The scale [s] that the clipping branch
    computes from [param_delta = p > c] is a number that is not negative,
    and [s * sqrt a] is [c] up to a relative error of [2 ^ -21]. *)
Lemma clip_scale_norm (a m c p : R) :
  bpow (-126) <= a <= bpow 60 ->
  bpow (-24) <= 1 - m <= 1 ->
  bpow (-60) <= c ->
  to_float (Fmul (to_float (Fsqrt (Fin a)))
                 (to_float (to_double (Fsub Fone (Fin m))))) = Fin p ->
  c < p ->
  exists s,
    to_float (Fmul (to_float (to_double (Fsub Fone (Fin m))))
                   (to_float (Fdiv (Fin c) (Fin p)))) = Fin s /\
    0 <= s /\ Rabs (s * sqrt a - c) <= c * bpow (-21).
Proof.
  intros Ha Hm Hc Hp Hcp.
  pose proof bpow_m24_small as Hu.
  destruct (param_delta_steps a m p Ha Hm Hp)
    as (e2 & e4 & c1 & He2 & He4 & Hc1 & Hc1r & Hpv & Hpr).
  rewrite Hc1.
  pose proof (bpow_pos (-92)) as Hpos92.
  pose proof (bpow_pos (-60)) as Hpos60.
  (* the clipping factor *)
  cbn [Fdiv]. rewrite bool_decide_eq_false_2 by lra.
  assert (Hqr0 : bpow (-95) <= c / p <= bpow 0).
  { split.
    - assert (Hcr : bpow (-60) <= c <= bpow 35) by lra.
      pose proof (bpow_div_range _ _ _ _ _ _ Hcr Hpr) as Hdiv.
      norm_bpow_in Hdiv. lra.
    - rewrite bpow_0. apply Rmult_le_reg_r with p; [lra|].
      replace (c / p * p) with c by (field; lra). lra. }
  destruct (to_float_range (-95) 0 (c / p))
    as (e5 & q & He5 & Hq & Hqv & Hqr); [lia|lia|exact Hqr0|].
  norm_bpow_in Hqr. rewrite Hq. cbn [Fmul].
  (* the scale of the step *)
  pose proof (bpow_mul_range _ _ _ _ _ _ Hc1r Hqr) as Hsr0.
  norm_bpow_in Hsr0.
  destruct (to_float_range (-122) 3 (c1 * q))
    as (e6 & s & He6 & Hs & Hsv & Hsr); [lia|lia|exact Hsr0|].
  norm_bpow_in Hsr.
  exists s. split; [exact Hs|].
  pose proof (bpow_pos (-123)) as Hpos123.
  split; [lra|].
  (* the norm of the step *)
  pose proof (relative_error_range _ He2) as Hr2.
  pose proof (relative_error_range _ He4) as Hr4.
  pose proof (relative_error_range _ He5) as Hr5.
  pose proof (relative_error_range _ He6) as Hr6.
  rewrite bpow_m21.
  set (u := bpow (-24)) in *.
  pose proof (bpow_pos (-126)) as Hpos126.
  assert (Ha0 : 0 < a) by lra.
  pose proof (sqrt_lt_R0 a Ha0) as Hsa.
  pose proof (bpow_pos (-26)) as Hpos26.
  assert (Heq : s * sqrt a - c =
                c * ((1 + e5) * (1 + e6) / (1 * (1 + e2) * (1 + e4)) - 1)).
  { rewrite Hsv, Hqv, Hpv. field. repeat split; lra. }
  rewrite Heq, Rabs_mult, (Rabs_pos_eq c) by lra.
  apply Rmult_le_compat_l; [lra|].
  apply ratio_near_one; lra.
Qed.

(** The scale of a step that is not clipped: [s * sqrt a] is at most
    [param_delta] up to a relative error of [2 ^ -21]. *)
Lemma unclipped_scale_norm (a m p : R) :
  bpow (-126) <= a <= bpow 60 ->
  bpow (-24) <= 1 - m <= 1 ->
  to_float (Fmul (to_float (Fsqrt (Fin a)))
                 (to_float (to_double (Fsub Fone (Fin m))))) = Fin p ->
  exists s,
    to_float (to_double (Fsub Fone (Fin m))) = Fin s /\
    0 <= s /\ s * sqrt a <= p * (1 + bpow (-21)).
Proof.
  intros Ha Hm Hp.
  pose proof bpow_m24_small as Hu.
  destruct (param_delta_steps a m p Ha Hm Hp)
    as (e2 & e4 & c1 & He2 & He4 & Hc1 & Hc1r & Hpv & Hpr).
  exists c1. split; [exact Hc1|].
  pose proof (bpow_pos (-26)) as Hpos26.
  split; [lra|].
  pose proof (relative_error_range _ He2) as Hr2.
  pose proof (relative_error_range _ He4) as Hr4.
  rewrite bpow_m21.
  set (u := bpow (-24)) in *.
  pose proof (bpow_pos (-126)) as Hpos126.
  assert (Ha0 : 0 < a) by lra.
  pose proof (sqrt_lt_R0 a Ha0) as Hsa.
  pose proof (bpow_pos (-92)) as Hpos92.
  assert (Hone : 1 - u <= 1 <= 1 + u) by lra.
  pose proof (ratio_near_one u 1 1 1 (1 + e2) (1 + e4)
                ltac:(lra) Hone Hone Hone Hr2 Hr4) as Hratio.
  apply Rabs_le_bounds in Hratio.
  assert (Heq : c1 * sqrt a = p * (1 * 1 / (1 * (1 + e2) * (1 + e4)))).
  { rewrite Hpv. field. split; lra. }
  rewrite Heq. apply Rmult_le_compat_l; lra.
Qed.

(** The norm of a vector of numbers scaled by a number. *)
Lemma scaled_norm (s : R) (ds : list R) :
  Fsqrt (VecVec (Fmul (Fin s) <$> (Fin <$> ds)) (Fmul (Fin s) <$> (Fin <$> ds)))
    = Fin (Rabs s * sqrt (Rdot ds ds)).
Proof.
  rewrite fmap_Fmul_fin, VecVec_fin, Rdot_scale.
  pose proof (Rdot_self_nonneg ds) as HD.
  cbn [Fsqrt]. rewrite bool_decide_eq_false_2 by nra.
  f_equal. rewrite sqrt_mult by nra.
  f_equal. apply sqrt_Rsqr_abs.
Qed.

Lemma update_scale_zero config :
  momentum config = Fzero -> update_scale config = Fone.
Proof.
  intros Hm. unfold update_scale. rewrite Hm.
  unfold Fsub, Fone, Fzero. cbn [Fopp Fadd].
  replace (1 + - 0) with 1 by lra.
  change (Fin 1) with Fone. rewrite to_double_1. apply to_float_1.
Qed.

(** Writes the powers of two of the goal as numbers. *)
Ltac bpow_num :=
  repeat match goal with
  | |- context [bpow (Zneg ?p)] =>
      let n := eval vm_compute in (2 ^ Zpos p)%Z in
      replace (bpow (Zneg p)) with (/ IZR n)
        by (symmetry; apply (bpow_opp_IZR (Zpos p)); lia)
  | |- context [bpow (Zpos ?p)] =>
      let n := eval vm_compute in (2 ^ Zpos p)%Z in
      replace (bpow (Zpos p)) with (IZR n)
        by (symmetry; apply (bpow_IZR (Zpos p)); lia)
  | |- context [bpow Z0] => rewrite bpow_0
  end.

(** The dot product and [param_delta] for a delta network with the one
    parameter [0 + g], an integer, and no momentum. *)
Lemma DotProduct_single (delta : Nnet) (g : Z) :
  params delta = [Fin (0 + IZR g)] ->
  (g * g < 2 ^ 24)%Z ->
  DotProduct delta delta = Fin (IZR (g * g)).
Proof.
  intros Hp Hgg. unfold DotProduct. rewrite Hp.
  unfold VecVec, VecSum. cbn [zip_with foldr Fmul Fadd Fzero].
  replace ((0 + IZR g) * (0 + IZR g) + 0) with (IZR (g * g))
    by (rewrite mult_IZR; lra).
  apply to_float_int. nia.
Qed.

Lemma param_delta_of_single config (delta : Nnet) (g : Z) :
  params delta = [Fin (0 + IZR g)] ->
  momentum config = Fzero ->
  (0 <= g)%Z -> (g * g < 2 ^ 24)%Z ->
  param_delta_of config delta = Fin (IZR g).
Proof.
  intros Hp Hm Hg Hgg. unfold param_delta_of.
  rewrite (DotProduct_single _ g Hp Hgg).
  rewrite (update_scale_zero _ Hm). cbn [Fsqrt].
  assert (H0 : 0 <= IZR g) by (apply IZR_le; exact Hg).
  rewrite bool_decide_eq_false_2 by (rewrite mult_IZR; nra).
  rewrite mult_IZR, sqrt_square by exact H0.
  rewrite to_float_int by nia. unfold Fone. cbn [Fmul].
  rewrite Rmult_1_r. apply to_float_int. nia.
Qed.

(** The float nearest to [1 / 41]. *)
Lemma to_float_inv_41 :
  to_float (Fin (1 / 41)) = Fin (13094412 * bpow (-29)).
Proof.
  apply (to_float_eval 13094412 (-29)); [lia| | |].
  - rewrite Rabs_pos_eq by lra.
    change (-29 + 23)%Z with (-6)%Z. change (-29 + 24)%Z with (-5)%Z.
    bpow_num. lra.
  - bpow_num. lra.
  - rewrite Rabs_pos_eq by (pose proof (bpow_pos (-29)); lra).
    bpow_num. lra.
Qed.

Section UpdateRule.
Context `{Compression} `{!Executor}.

Lemma update_rule_clip config nnet delta_nnet p :
  Fne (max_param_change config) Fzero = true ->
  param_delta_of config delta_nnet = Fin p ->
  Fgt (Fin p) (max_param_change config) = true ->
  update_rule config nnet delta_nnet =
    (AddNnet delta_nnet
       (to_float (Fmul (update_scale config) (clip_factor config (Fin p))))
       nnet,
     ScaleNnet (momentum config) delta_nnet,
     [LogParameterChangeTooBig (Fin p) (max_param_change config)
        (clip_factor config (Fin p))]).
Proof.
  intros Hne Hp Hgt. unfold update_rule.
  rewrite Hne, Hp, Hgt.
  rewrite Fne_sub_self. reflexivity.
Qed.

Lemma update_rule_infinite config nnet delta_nnet :
  Fne (max_param_change config) Fzero = true ->
  param_delta_of config delta_nnet = PInf ->
  Fgt PInf (max_param_change config) = true ->
  update_rule config nnet delta_nnet =
    (AddNnet (SetZero false delta_nnet) (update_scale config) nnet,
     ScaleNnet (momentum config) (SetZero false delta_nnet),
     [WarnInfiniteParameterChange]).
Proof.
  intros Hne Hp Hgt. unfold update_rule.
  rewrite Hne, Hp, Hgt. reflexivity.
Qed.

(** A [param_delta] that does not compare greater than
    [max_param_change], a NaN for one, is applied as it is. *)
Lemma update_rule_not_greater config nnet delta_nnet :
  Fgt (param_delta_of config delta_nnet) (max_param_change config) = false ->
  update_rule config nnet delta_nnet =
    (AddNnet delta_nnet (update_scale config) nnet,
     ScaleNnet (momentum config) delta_nnet, []).
Proof.
  intros Hgt. unfold update_rule. rewrite Hgt.
  destruct (Fne (max_param_change config) Fzero); reflexivity.
Qed.

Lemma Train_with_delta t eg st d :
  delta_nnet_ t = Some d ->
  ProcessOutputs t eg (mkNnetComputer (nnet_ t) eg []) = Ok st ->
  Train t eg =
    let '(nnet, delta_nnet, log) :=
      update_rule (config_ t) (nnet_ t) (Backward (ps_computer st) d) in
    Ok (mkNnetTrainer (config_ t) nnet (Some delta_nnet)
          (num_minibatches_processed_ (ps_trainer st))
          (objf_info_ (ps_trainer st)) (objective_scales_ t),
        ps_log st ++ log).
Proof.
  intros Hd Hproc.
  destruct (ProcessOutputs_same_model _ _ _ Hproc)
    as (Hc' & Hn' & Hd' & Hs' & _).
  unfold Train. rewrite Hproc. simpl.
  rewrite Hd', Hd, Hc', Hn', Hs'. reflexivity.
Qed.

End UpdateRule.
Section ClippedStep.
Context `{Compression} `{!Executor}.

(** C3, as the code computes it.  In a call of [Train] on a trainer with
    a delta network and a nonzero [max_param_change], if the computed
    [param_delta] is finite and greater than [max_param_change], the call
    returns with the message of the clipping, the model after the call is
    the model before it plus the step [scale * delta], where [delta] is
    the delta network after the backward pass and [scale] is the float
    product of [1 - momentum] and the float quotient
    [max_param_change / param_delta], and the delta network kept is
    [momentum * delta].  The norm of the step is [|scale|] times the norm
    of [delta].  With the dot product [a] that [DotProduct] returned for
    [delta] in the place of its squared norm, that product is
    [max_param_change] up to the rounding of these operations: when [a],
    the momentum [m] and the bound [c] are in ranges where no operation
    underflows or overflows, [scale * sqrt a] differs from [c] by at most
    [c * 2 ^ -21]. *)
Theorem Train_clips_step (t : NnetTrainer) (eg : NnetExample)
    (st : ProcessState) (d : Nnet) (p : R) :
  delta_nnet_ t = Some d ->
  ProcessOutputs t eg (mkNnetComputer (nnet_ t) eg []) = Ok st ->
  Fne (max_param_change (config_ t)) Fzero = true ->
  param_delta_of (config_ t) (Backward (ps_computer st) d) = Fin p ->
  Fgt (Fin p) (max_param_change (config_ t)) = true ->
  let delta := params (Backward (ps_computer st) d) in
  let scale := to_float (Fmul (update_scale (config_ t))
                              (clip_factor (config_ t) (Fin p))) in
  let step := Fmul scale <$> delta in
  exists t',
    Train t eg =
      Ok (t', ps_log st ++
              [LogParameterChangeTooBig (Fin p) (max_param_change (config_ t))
                 (clip_factor (config_ t) (Fin p))]) /\
    params (nnet_ t') = zip_with Fadd (params (nnet_ t)) step /\
    (exists d', delta_nnet_ t' = Some d' /\
                params d' = Fmul (momentum (config_ t)) <$> delta) /\
    (forall D s : R,
       VecVec delta delta = Fin D -> scale = Fin s ->
       Fsqrt (VecVec step step) = Fin (Rabs s * sqrt D)) /\
    forall a m c : R,
      DotProduct (Backward (ps_computer st) d) (Backward (ps_computer st) d)
        = Fin a ->
      momentum (config_ t) = Fin m ->
      max_param_change (config_ t) = Fin c ->
      bpow (-126) <= a <= bpow 60 ->
      bpow (-24) <= 1 - m <= 1 ->
      bpow (-60) <= c ->
      exists s, scale = Fin s /\ 0 <= s /\
                Rabs (s * sqrt a - c) <= c * bpow (-21).
Proof.
  intros Hd Hproc Hne Hp Hgt delta scale step.
  rewrite (Train_with_delta _ _ _ _ Hd Hproc).
  rewrite (update_rule_clip _ _ _ _ Hne Hp Hgt).
  eexists. split; [reflexivity|].
  cbn [nnet_ delta_nnet_ AddNnet ScaleNnet params].
  split; [apply zip_with_Fadd_scaled|].
  split; [eexists; split; reflexivity|].
  split.
  - intros D s HD Hs.
    destruct (VecVec_self_finite _ _ HD) as (ds & Hds).
    fold delta in Hds.
    assert (HDv : D = Rdot ds ds).
    { rewrite Hds, VecVec_fin in HD. injection HD as <-. reflexivity. }
    unfold step. rewrite Hs, Hds, HDv. apply scaled_norm.
  - intros a m c Ha Hm Hc Har Hmr Hcr.
    rewrite Hc in Hgt. cbn [Fgt] in Hgt. apply bool_decide_eq_true in Hgt.
    unfold param_delta_of in Hp. rewrite Ha in Hp.
    unfold update_scale in Hp. rewrite Hm in Hp.
    destruct (clip_scale_norm a m c p Har Hmr Hcr Hp Hgt)
      as (s & Hs & Hs0 & Hnorm).
    exists s. split; [|split; assumption].
    unfold scale, update_scale, clip_factor. rewrite Hm, Hc. exact Hs.
Qed.

End ClippedStep.

(** ** The properties at concrete inputs *)

Section Instances.
Local Existing Instance sample_compression.
Local Existing Instance sample_parser.

Lemma sample_ProcessOutputs_ok (ex : Executor) (t : NnetTrainer)
    (eg : NnetExample) (r : result ProcessState) :
  r = ProcessOutputs t eg (mkNnetComputer (nnet_ t) eg []) ->
  (forall msg, r <> Fatal msg) ->
  exists st, ProcessOutputs t eg (mkNnetComputer (nnet_ t) eg []) = Ok st.
Proof.
  intros -> Hok.
  destruct (ProcessOutputs t eg _) as [st|msg]; [eauto|].
  exfalso. exact (Hok msg eq_refl).
Qed.

(** C1, on the code.  A NaN among the parameter derivatives makes
    [param_delta] a NaN; the test [param_delta > max_param_change] is then
    false, so the test for a non-finite value under it is not reached: the
    delta network is added to the model and is not zeroed, and nothing is
    logged. *)
Theorem Train_nan_delta_applied :
  let ex := sample_executor [[Fin 3]] NaN in
  let t := sample_trainer_delta Fzero Fone in
  let computer := mkNnetComputer (nnet_ t) sample_eg0 [] in
  delta_nnet_ t = Some (SetZero false sample_nnet) /\
  Fne (max_param_change (config_ t)) Fzero = true /\
  @ProcessOutputs _ ex t sample_eg0 computer =
    Ok (mkProcessState t computer []) /\
  param_delta_of (config_ t)
    (@Backward _ ex computer (SetZero false sample_nnet)) = NaN /\
  params (nnet_ t) = [Fone] /\
  (fun r => (params (nnet_ r.1), params <$> delta_nnet_ r.1, r.2))
    <$> @Train _ ex t sample_eg0 = Ok ([NaN], Some [NaN], []).
Proof.
  intros ex t computer.
  assert (Hne : Fne (max_param_change (config_ t)) Fzero = true).
  { unfold Fne. cbn. rewrite bool_decide_eq_false_2 by lra. reflexivity. }
  assert (Hproc : @ProcessOutputs _ ex t sample_eg0 computer =
                  Ok (mkProcessState t computer [])) by reflexivity.
  assert (Hpd : param_delta_of (config_ t)
                  (@Backward _ ex computer (SetZero false sample_nnet)) = NaN).
  { reflexivity. }
  split; [reflexivity|]. split; [exact Hne|]. split; [exact Hproc|].
  split; [exact Hpd|]. split; [reflexivity|].
  rewrite (@Train_with_delta _ ex t sample_eg0 _ _ eq_refl Hproc).
  cbn [ps_computer ps_trainer ps_log].
  rewrite update_rule_not_greater by (fold computer; rewrite Hpd; reflexivity).
  rewrite (update_scale_zero (config_ t) eq_refl).
  reflexivity.
Qed.

Lemma Train_clips_step_witness :
  let ex := sample_executor [[Fin 3]] (Fin 41) in
  let t := sample_trainer_delta Fzero Fone in
  exists st,
    @ProcessOutputs _ ex t sample_eg (mkNnetComputer (nnet_ t) sample_eg [])
      = Ok st /\
    let delta := [Fin (0 + 41)] in
    let scale := to_float (Fmul (update_scale (config_ t))
                                (clip_factor (config_ t) (Fin 41))) in
    let step := Fmul scale <$> delta in
    exists t',
      @Train _ ex t sample_eg =
        Ok (t', ps_log st ++
                [LogParameterChangeTooBig (Fin 41) Fone
                   (clip_factor (config_ t) (Fin 41))]) /\
      params (nnet_ t') = zip_with Fadd [Fone] step /\
      (exists d', delta_nnet_ t' = Some d' /\
                  params d' = Fmul Fzero <$> delta) /\
      exists s,
        scale = Fin s /\ 0 <= s /\
        Rabs (s * sqrt 1681 - 1) <= 1 * bpow (-21) /\
        Fsqrt (VecVec step step) = Fin (Rabs s * sqrt ((0 + 41) * (0 + 41) + 0)).
Proof.
  intros ex t.
  destruct (sample_ProcessOutputs_ok ex t sample_eg _ eq_refl) as [st Hst].
  { intros msg. vm_compute. resolve_R. discriminate. }
  exists st. split; [exact Hst|].
  destruct (ProcessOutputs_same_model _ _ _ Hst) as (_ & _ & _ & _ & Hcn & Hce).
  assert (Hb : params (@Backward _ ex (ps_computer st)
                         (SetZero false sample_nnet)) = [Fin (0 + 41)]).
  { unfold Backward. rewrite Hcn, Hce. reflexivity. }
  assert (Hp : param_delta_of (config_ t)
                 (@Backward _ ex (ps_computer st) (SetZero false sample_nnet))
               = Fin 41).
  { apply (param_delta_of_single (config_ t) _ 41 Hb eq_refl); lia. }
  cbv zeta. rewrite <- Hb.
  destruct (@Train_clips_step _ ex t sample_eg st (SetZero false sample_nnet) 41
              eq_refl Hst)
    as (t' & Htrain & Hparams & Hdelta & Hnorm & Hbound).
  - unfold Fne. cbn. rewrite bool_decide_eq_false_2 by lra. reflexivity.
  - exact Hp.
  - cbn. apply bool_decide_eq_true_2. lra.
  - exists t'. split; [exact Htrain|]. split; [exact Hparams|].
    split; [exact Hdelta|].
    destruct (Hbound 1681 0 1) as (s & Hs & Hs0 & Hsb).
    + apply (DotProduct_single _ 41 Hb). lia.
    + reflexivity.
    + reflexivity.
    + bpow_num. lra.
    + bpow_num. lra.
    + bpow_num. lra.
    + exists s. split; [exact Hs|]. split; [exact Hs0|].
      split; [exact Hsb|].
      apply (Hnorm _ s); [|exact Hs]. rewrite Hb. reflexivity.
Defined.

(** C3, on the code: the norm of a clipped step is not exactly
    [max_param_change].  For a delta network with the one parameter 41, no
    momentum and [max_param_change = 1], the computed [param_delta] is 41,
    finite and greater than 1; the clipping factor is the float nearest to
    1/41, that is 13094412 * 2^-29, and the step added to the model, 41
    times that factor, has a norm below 1. *)
Theorem Train_clipped_norm_inexact :
  let ex := sample_executor [[Fin 3]] (Fin 41) in
  let t := sample_trainer_zero Fzero Fone in
  let q := 13094412 * bpow (-29) in
  exists st,
    @ProcessOutputs _ ex t sample_eg (mkNnetComputer (nnet_ t) sample_eg [])
      = Ok st /\
    delta_nnet_ t = Some (SetZero false sample_nnet) /\
    Fne (max_param_change (config_ t)) Fzero = true /\
    param_delta_of (config_ t)
      (@Backward _ ex (ps_computer st) (SetZero false sample_nnet)) = Fin 41 /\
    Fgt (Fin 41) (max_param_change (config_ t)) = true /\
    params (nnet_ t) = [Fzero] /\
    exists t',
      @Train _ ex t sample_eg =
        Ok (t', ps_log st ++ [LogParameterChangeTooBig (Fin 41) Fone (Fin q)]) /\
      let step := [Fin (q * (0 + 41))] in
      params (nnet_ t') = zip_with Fadd [Fzero] step /\
      Fsqrt (VecVec step step) = Fin (q * 41) /\
      q * 41 < 1 /\
      max_param_change (config_ t) = Fin 1.
Proof.
  intros ex t q.
  destruct (sample_ProcessOutputs_ok ex t sample_eg _ eq_refl) as [st Hst].
  { intros msg. vm_compute. resolve_R. discriminate. }
  exists st. split; [exact Hst|].
  destruct (ProcessOutputs_same_model _ _ _ Hst) as (_ & _ & _ & _ & Hcn & Hce).
  assert (Hb : params (@Backward _ ex (ps_computer st)
                         (SetZero false sample_nnet)) = [Fin (0 + 41)]).
  { unfold Backward. rewrite Hcn, Hce. reflexivity. }
  assert (Hp : param_delta_of (config_ t)
                 (@Backward _ ex (ps_computer st) (SetZero false sample_nnet))
               = Fin 41).
  { apply (param_delta_of_single (config_ t) _ 41 Hb eq_refl); lia. }
  assert (Hne : Fne (max_param_change (config_ t)) Fzero = true).
  { unfold Fne. cbn. rewrite bool_decide_eq_false_2 by lra. reflexivity. }
  assert (Hgt : Fgt (Fin 41) (max_param_change (config_ t)) = true).
  { cbn. apply bool_decide_eq_true_2. lra. }
  assert (Hq : clip_factor (config_ t) (Fin 41) = Fin q).
  { unfold clip_factor. cbn [t sample_trainer_zero config_ sample_config
      max_param_change Fone Fdiv].
    rewrite bool_decide_eq_false_2 by lra. exact to_float_inv_41. }
  assert (Hs : to_float (Fmul (update_scale (config_ t))
                           (clip_factor (config_ t) (Fin 41))) = Fin q).
  { rewrite Hq, (update_scale_zero (config_ t) eq_refl).
    unfold Fone. cbn [Fmul]. rewrite Rmult_1_l.
    apply (to_float_id 13094412 (-29)); [reflexivity|lia]. }
  assert (Hq0 : 0 < q) by (unfold q; pose proof (bpow_pos (-29)); lra).
  split; [reflexivity|]. split; [exact Hne|]. split; [exact Hp|].
  split; [exact Hgt|]. split; [reflexivity|].
  rewrite (@Train_with_delta _ ex t sample_eg st _ eq_refl Hst).
  rewrite (update_rule_clip _ _ _ _ Hne Hp Hgt).
  rewrite Hs, Hq.
  eexists. split; [reflexivity|]. cbv zeta.
  cbn [nnet_ AddNnet params]. rewrite Hb.
  split; [reflexivity|].
  split.
  - unfold VecVec, VecSum. cbn [zip_with foldr Fmul Fadd Fzero Fsqrt].
    rewrite bool_decide_eq_false_2 by nra.
    f_equal.
    replace (q * (0 + 41) * (q * (0 + 41)) + 0) with ((q * 41) * (q * 41))
      by lra.
    apply sqrt_square. lra.
  - split; [|reflexivity]. unfold q. bpow_num. lra.
Qed.



End Instances.

Lemma Fne_0_0 : Fne Fzero Fzero = false.
Proof. unfold Fne. rewrite Feq_0_0. reflexivity. Qed.

Lemma Fne_1_0 : Fne Fone Fzero = true.
Proof. unfold Fne. simpl. rewrite bool_decide_eq_false_2 by lra. reflexivity. Qed.

Lemma PrintTotalStats_true_iff_witness :
  let order := [("output2", sample_info Fone); ("output", sample_info Fzero)] in
  ((PrintTotalStats_in order).2 = true <->
   exists name info, sample_table !! name = Some info /\
                     Fne (tot_weight info) Fzero = true) /\
  (PrintTotalStats_in order).2 = (PrintTotalStats sample_trainer_stats).2.
Proof.
  intros order.
  apply (PrintTotalStats_true_iff sample_trainer_stats order).
  simpl. unfold sample_table, order.
  rewrite map_to_list_insert by reflexivity.
  rewrite map_to_list_insert by reflexivity.
  rewrite map_to_list_empty. apply perm_swap.
Defined.

Lemma PrintTotalStats_short_circuit_witness :
  PrintTotalStats_in
    ([("output", sample_info Fzero)] ++
     ("output2", sample_info Fone) :: [("output3", sample_info Fone)]) =
    (total_reports
       ([("output", sample_info Fzero)] ++ [("output2", sample_info Fone)]),
     true) /\
  (PrintTotalStats_all
     ([("output", sample_info Fzero)] ++
      ("output2", sample_info Fone) :: [("output3", sample_info Fone)])
     false).2 = true.
Proof.
  apply PrintTotalStats_short_circuit.
  - constructor; [exact Fne_0_0 | constructor].
  - exact Fne_1_0.
Defined.

(** ** The linear objective and the encodings of the supervision *)

Lemma VecSum_cons x (v : Vector) : VecSum (x :: v) = Fadd x (VecSum v).
Proof. reflexivity. Qed.






Lemma foldl_write_length pairs : forall acc,
  length (foldl write_pair acc pairs) = length acc.
Proof.
  induction pairs as [|p pairs IH]; intros acc; simpl; [reflexivity|].
  rewrite IH. apply length_insert.
Qed.



Lemma SparseVector_ToVec_length sv :
  length (SparseVector_ToVec sv) = sv_dim sv.
Proof.
  unfold SparseVector_ToVec.
  rewrite (foldl_write_length (sv_pairs sv)). apply length_replicate.
Qed.



Lemma SparseMatrix_ToMat_shape smat :
  shape (SparseMatrix_ToMat smat) = SparseMatrix_shape smat.
Proof.
  unfold shape, SparseMatrix_ToMat, SparseMatrix_shape.
  induction smat as [|sv smat IH]; [reflexivity|].
  simpl. rewrite IH, SparseVector_ToVec_length. reflexivity.
Qed.



Section Encodings.
Context `{Compression}.





End Encodings.



Section Closed.
Local Existing Instance sample_compression.
Local Existing Instance sample_parser.

(** C2, on the code.  With the scale map [{output: 2.0}] (no entry for
    "output-reg"), a linear output "output" and a regularizer output of
    value 3, the total objective reported for "output-reg" is 6: the
    regularizer's objective 3 times the scale 2.0 of "output", where its own
    entry (the default 1.0) gives 3.  The derivative accepted for
    "output-reg" is the all-ones matrix scaled by its own 1.0. *)
Theorem ProcessOutputs_regularizer_scale :
  let ex := sample_executor [[Fin 3]] Fone in
  (t ← sample_trainer (sample_config Fzero Fzero true "output:2.0");
   st ← @ProcessOutputs _ ex t sample_eg (@mkNnetComputer _ (nnet_ t) sample_eg []);
   Ok (objective_scales_ t !! "output-reg",
       tot_objf <$> objf_info_ (ps_trainer st) !! "output-reg",
       computer_output_derivs (ps_computer st) !! 1%nat)) =
  Ok (None, Some (Fin 6), Some ("output-reg", [[Fin 1]])).
Proof.
  intros ex.
  eval_step (sample_trainer (sample_config Fzero Fzero true "output:2.0")).
  match goal with
  | |- context [@ProcessOutputs ?c ?e ?t ?eg ?cm] =>
      eval_step (@ProcessOutputs c e t eg cm)
  end.
  vm_compute. do 3 f_equal. f_equal. f_equal. lra.
Qed.

(** C5, on the code.  One call of [Train] on an example with the two
    outputs "output" and "output2" leaves the minibatch counter at 2; with
    [print_interval = 1] the second call then fails the assertion of
    [UpdateStats] on the phase of "output", which jumps from 0 to 2. *)
Theorem Train_counter_two_outputs :
  let ex := sample_executor [[Fin 3]] Fone in
  (t ← sample_trainer (sample_config Fzero Fzero false "");
   r ← @Train _ ex t sample_eg2;
   Ok (num_minibatches_processed_ t, num_minibatches_processed_ r.1)) =
  Ok (0%Z, 2%Z) /\
  (t ← sample_trainer
         (mkNnetTrainerOptions false false 1 Fzero Fzero false false "");
   r ← @Train _ ex t sample_eg2;
   @Train _ ex r.1 sample_eg2) = Fatal "KALDI_ASSERT failed".
Proof.
  intros ex. split.
  - eval_step (sample_trainer (sample_config Fzero Fzero false "")).
    match goal with
    | |- context [@Train ?c ?e ?t ?eg] => eval_step (@Train c e t eg)
    end.
    reflexivity.
  - eval_step (sample_trainer
      (mkNnetTrainerOptions false false 1 Fzero Fzero false false "")).
    match goal with
    | |- context [@Train ?c ?e ?t ?eg] => eval_step (@Train c e t eg)
    end.
    match goal with
    | |- context [@Train ?c ?e ?t ?eg] => eval_step (@Train c e t eg)
    end.
    reflexivity.
Qed.

End Closed.

(** * Further properties of the code *)

(** ** The statistics tracker over a whole run *)

Lemma next_counter_phase (mpp n : Z) :
  (0 < mpp)%Z -> (1 <= n)%Z ->
  (n ÷ mpp = (n - 1) ÷ mpp)%Z \/
  ((n ÷ mpp = (n - 1) ÷ mpp + 1)%Z /\ (n = mpp * ((n - 1) ÷ mpp + 1))%Z).
Proof.
  intros Hm Hn.
  rewrite !Z.quot_div_nonneg by lia.
  pose proof (Z.div_mod (n - 1) mpp ltac:(lia)) as Hdm.
  pose proof (Z.mod_pos_bound (n - 1) mpp Hm) as Hb.
  set (q := ((n - 1) / mpp)%Z) in *.
  set (r := ((n - 1) mod mpp)%Z) in *.
  destruct (decide (r + 1 < mpp)%Z) as [Hlt|Hge].
  - left. symmetry. apply (Z.div_unique n mpp q (r + 1)); lia.
  - right. assert (r + 1 = mpp)%Z by lia.
    split; [|lia].
    symmetry. apply (Z.div_unique n mpp (q + 1) 0); lia.
Qed.

Lemma UpdateStats_calls_snoc info name mpp counter calls call :
  UpdateStats_calls info name mpp counter (calls ++ [call]) =
    '(info1, log1) ← UpdateStats_calls info name mpp counter calls;
    '(info2, log2) ← UpdateStats info1 name mpp
                       (counter + Z.of_nat (length calls))%Z
                       call.1 call.2 Fzero;
    Ok (info2, log1 ++ log2).
Proof.
  rewrite UpdateStats_calls_app.
  destruct (UpdateStats_calls info name mpp counter calls) as [[i1 l1]|];
    [|reflexivity].
  simpl.
  destruct (UpdateStats i1 name mpp _ call.1 call.2 Fzero) as [[i2 l2]|];
    [|reflexivity].
  simpl. rewrite app_nil_r. reflexivity.
Qed.

Lemma PrintStatsForThisPhase_length info name mpp :
  length (PrintStatsForThisPhase info name mpp) = 1%nat.
Proof.
  unfold PrintStatsForThisPhase.
  destruct (Feq (tot_aux_objf_this_phase info) Fzero); reflexivity.
Qed.

(** X1.  A run of [UpdateStats] for one output, from a fresh record, with
    a positive [minibatches_per_phase] and the counter values 0, 1, ...,
    [n - 1] never fails the phase assertion.  It leaves the record in the
    phase of the last counter value, [(n - 1) / minibatches_per_phase], and
    has emitted as many phase reports as that phase index; the all-time
    totals are the sums over all the calls and the phase-scoped totals the
    sums over the calls of the last phase. *)
Theorem UpdateStats_run_from_zero (name : string) (mpp : Z)
    (calls : list (BaseFloat * BaseFloat)) :
  (0 < mpp)%Z ->
  calls <> [] ->
  let last_phase := ((Z.of_nat (length calls) - 1) ÷ mpp)%Z in
  let in_last_phase := drop (Z.to_nat (mpp * last_phase)) calls in
  exists info log,
    UpdateStats_calls ObjectiveFunctionInfo_new name mpp 0 calls =
      Ok (info, log) /\
    current_phase info = last_phase /\
    Z.of_nat (length log) = last_phase /\
    tot_weight info = foldl Fadd Fzero calls.*1 /\
    tot_objf info = foldl Fadd Fzero calls.*2 /\
    tot_weight_this_phase info = foldl Fadd Fzero in_last_phase.*1 /\
    tot_objf_this_phase info = foldl Fadd Fzero in_last_phase.*2.
Proof.
  intros Hm. cbv zeta.
  induction calls as [|call calls IH] using rev_ind; [congruence|].
  intros _.
  destruct (decide (calls = [])) as [->|Hne].
  { (* the first call, counter 0 *)
    cbn [app UpdateStats_calls].
    rewrite UpdateStats_same_phase; [|lia|apply Z.quot_0_l; lia].
    unfold mbind, result_bind. cbv beta iota.
    eexists _, _. split; [reflexivity|].
    cbn [length]. replace (Z.of_nat 1 - 1)%Z with 0%Z by lia.
    rewrite Z.quot_0_l by lia. rewrite Z.mul_0_r.
    repeat split; try reflexivity. }
  destruct (IH Hne) as (info & log & Hrun & Hphase & Hlog & Hw & Ho & Hwp & Hop).
  clear IH.
  set (n := Z.of_nat (length calls)) in *.
  assert (Hn : (1 <= n)%Z).
  { subst n. destruct calls; [congruence | cbn [length]; lia]. }
  pose proof (next_counter_phase mpp n Hm Hn) as Hcases.
  rewrite length_app. cbn [length].
  replace (Z.of_nat (length calls + 1) - 1)%Z with n by (subst n; lia).
  rewrite UpdateStats_calls_snoc, Hrun.
  unfold mbind at 1, result_bind at 1. cbv beta iota.
  replace (0 + Z.of_nat (length calls))%Z with n by (subst n; lia).
  set (q := ((n - 1) ÷ mpp)%Z) in *.
  assert (Hq : (0 <= q)%Z).
  { subst q. apply Z.quot_pos; lia. }
  assert (Hqn : (mpp * q <= n - 1)%Z).
  { subst q. rewrite Z.quot_div_nonneg by lia.
    apply Z.mul_div_le. lia. }
  destruct Hcases as [Hsame|[Hnext Hexact]].
  - (* the call stays in the phase *)
    rewrite UpdateStats_same_phase; [|lia|congruence].
    unfold mbind, result_bind. cbv beta iota.
    eexists _, _. split; [reflexivity|].
    rewrite Hsame, app_nil_r.
    rewrite drop_app_le by (subst n; lia).
    rewrite !fmap_app, !foldl_app.
    cbn [add_minibatch current_phase tot_weight tot_objf
         tot_weight_this_phase tot_objf_this_phase fmap list_fmap foldl].
    rewrite Hw, Ho, Hwp, Hop.
    repeat split; try reflexivity; assumption.
  - (* the call enters the next phase *)
    rewrite UpdateStats_next_phase; [|lia|congruence].
    unfold mbind, result_bind. cbv beta iota.
    eexists _, _. split; [reflexivity|].
    rewrite Hnext.
    rewrite length_app, PrintStatsForThisPhase_length.
    replace (Z.to_nat (mpp * (q + 1))) with (length calls) by (subst n; lia).
    rewrite drop_app_length.
    rewrite !fmap_app, !foldl_app.
    cbn [add_minibatch start_phase current_phase tot_weight tot_objf
         tot_weight_this_phase tot_objf_this_phase fmap list_fmap foldl].
    rewrite Hw, Ho.
    repeat split; try reflexivity; lia.
Qed.

Lemma UpdateStats_run_from_zero_witness :
  exists info log,
    UpdateStats_calls ObjectiveFunctionInfo_new "output" 3 0
      (replicate 8 (Fone, Fin 2)) = Ok (info, log) /\
    current_phase info = 2%Z /\
    length log = 2%nat /\
    tot_weight info = foldl Fadd Fzero (replicate 8 Fone) /\
    tot_weight_this_phase info = foldl Fadd Fzero (replicate 2 Fone).
Proof.
  destruct (UpdateStats_run_from_zero "output" 3 (replicate 8 (Fone, Fin 2)))
    as (info & log & Hrun & Hphase & Hlog & Hw & _ & Hwp & _);
    [lia | discriminate |].
  exists info, log. split; [exact Hrun|].
  split; [exact Hphase|].
  split; [change (Z.of_nat (length log) = 2%Z) in Hlog; lia|].
  split; [exact Hw | exact Hwp].
Defined.

(** ** PrintTotalStats when no output has weight *)

Lemma Fne_0_inv (w : BaseFloat) : Fne w Fzero = false -> w = Fzero.
Proof.
  unfold Fne. destruct w; simpl; try discriminate.
  case_bool_decide as Hr; [|discriminate]. intros _. subst. reflexivity.
Qed.

Lemma Fdiv_zero_not_finite (x : BaseFloat) : is_finite (Fdiv x Fzero) = false.
Proof.
  destruct x; simpl; try reflexivity.
  - rewrite bool_decide_eq_true_2 by reflexivity.
    unfold inf_times. repeat case_bool_decide; reflexivity.
  - case_bool_decide; reflexivity.
  - case_bool_decide; reflexivity.
Qed.

(** X2.  When no entry of the statistics table has a nonzero total weight
    (the empty table included), [PrintTotalStats] returns false after every
    entry has reported, two messages per entry, and no average it prints on
    a log-prob-per-frame line is a finite number: each is the division of
    a total by a zero weight. *)
Theorem PrintTotalStats_no_weight
    (entries : list (string * ObjectiveFunctionInfo)) :
  Forall (fun e => Fne (tot_weight e.2) Fzero = false) entries ->
  PrintTotalStats_in entries = (total_reports entries, false) /\
  length (total_reports entries) = (2 * length entries)%nat /\
  Forall (fun ev => match ev with
                    | LogProbPerFrame objf => is_finite objf = false
                    | _ => True
                    end) (total_reports entries).
Proof.
  intros Hz. split; [|split].
  - unfold PrintTotalStats_in.
    rewrite <- (app_nil_r entries) at 1.
    rewrite PrintTotalStats_loop_no_weight by exact Hz.
    simpl. rewrite app_nil_r. reflexivity.
  - clear Hz.
    induction entries as [|e entries IH]; [reflexivity|].
    change (total_reports (e :: entries))
      with ((Info_PrintTotalStats e.2 e.1).1 ++ total_reports entries).
    rewrite length_app, IH. cbn [Info_PrintTotalStats fst length]. lia.
  - induction Hz as [|e entries Hw _ IH]; [constructor|].
    change (total_reports (e :: entries))
      with ((Info_PrintTotalStats e.2 e.1).1 ++ total_reports entries).
    apply Forall_app. split; [|exact IH].
    apply Fne_0_inv in Hw.
    cbn [Info_PrintTotalStats fst].
    constructor.
    { destruct (Feq (tot_aux_objf e.2) Fzero); exact I. }
    constructor; [|constructor].
    rewrite Hw. apply Fdiv_zero_not_finite.
Qed.

Lemma PrintTotalStats_no_weight_witness :
  PrintTotalStats_in [("output", sample_info Fzero)] =
    (total_reports [("output", sample_info Fzero)], false) /\
  length (total_reports [("output", sample_info Fzero)]) = 2%nat.
Proof.
  destruct (PrintTotalStats_no_weight [("output", sample_info Fzero)])
    as (Hp & Hl & _).
  - constructor; [exact Fne_0_0 | constructor].
  - split; [exact Hp | exact Hl].
Defined.

(** ** The constructor *)

Lemma Feq_0_inv (x : BaseFloat) : Feq x Fzero = true -> x = Fzero.
Proof.
  destruct x; simpl; try discriminate.
  intros Hx. apply bool_decide_eq_true in Hx. subst. reflexivity.
Qed.

Lemma Fge_split (x y : BaseFloat) :
  Fge x y = true -> Feq x y = false -> Fgt x y = true.
Proof. unfold Fge. intros Hge Hne. rewrite Hne, orb_false_r in Hge. exact Hge. Qed.

Lemma Fgt_0_0 : Fgt Fzero Fzero = false.
Proof. simpl. apply bool_decide_eq_false_2. lra. Qed.

Lemma Fge_0_0 : Fge Fzero Fzero = true.
Proof. unfold Fge. rewrite Feq_0_0. apply orb_true_r. Qed.

Section Constructor.
Context `{!RealParser}.

(** X3.  When the constructor succeeds, the momentum and the maximum
    parameter change are both greater than or equal to zero (neither is
    negative or a NaN), and the trainer holds a delta network exactly when
    one of the two is greater than zero; that network has the nodes of the
    model and one zero for each parameter of the model.  The trainer starts
    with the counter at zero and an empty statistics table. *)
Theorem NnetTrainer_new_delta_iff (config : NnetTrainerOptions) (nnet : Nnet)
    (t : NnetTrainer) :
  NnetTrainer_new config nnet = Ok t ->
  Fge (momentum config) Fzero = true /\
  Fge (max_param_change config) Fzero = true /\
  (is_Some (delta_nnet_ t) <->
   Fgt (momentum config) Fzero = true \/
   Fgt (max_param_change config) Fzero = true) /\
  (forall d, delta_nnet_ t = Some d ->
     nodes d = nodes (nnet_ t) /\
     params d = replicate (length (params (nnet_ t))) Fzero) /\
  num_minibatches_processed_ t = 0%Z /\
  objf_info_ t = ∅.
Proof.
  unfold NnetTrainer_new. intros Hnew.
  destruct (Feq (momentum config) Fzero && Feq (max_param_change config) Fzero)
    eqn:Hz.
  - apply andb_true_iff in Hz as [Hm Hc].
    apply Feq_0_inv in Hm. apply Feq_0_inv in Hc.
    cbn [mbind result_bind] in Hnew.
    destruct (if bool_decide (objective_scales_str config = "") then _ else _)
      as [scales|]; [|discriminate].
    cbn [mbind result_bind] in Hnew. injection Hnew as <-.
    cbn [delta_nnet_ nnet_ num_minibatches_processed_ objf_info_].
    rewrite Hm, Hc.
    split; [exact Fge_0_0|]. split; [exact Fge_0_0|].
    split; [|split; [discriminate | split; reflexivity]].
    rewrite Fgt_0_0. split.
    + intros [d Hd]. discriminate.
    + intros [?|?]; discriminate.
  - cbn [mbind result_bind] in Hnew.
    destruct (Fge (momentum config) Fzero && Fge (max_param_change config) Fzero)
      eqn:Hge; [|discriminate].
    cbn [KALDI_ASSERT mbind result_bind] in Hnew.
    destruct (if bool_decide (objective_scales_str config = "") then _ else _)
      as [scales|]; [|discriminate].
    cbn [mbind result_bind] in Hnew. injection Hnew as <-.
    cbn [delta_nnet_ nnet_ num_minibatches_processed_ objf_info_].
    apply andb_true_iff in Hge as [Hm Hc].
    split; [exact Hm|]. split; [exact Hc|].
    split; [|split; [|split; reflexivity]].
    + split; [intros _ | intros _; eexists; reflexivity].
      apply andb_false_iff in Hz as [Hz|Hz].
      * left. apply Fge_split; assumption.
      * right. apply Fge_split; assumption.
    + intros d Hd. injection Hd as <-. cbn [SetZero nodes params].
      split; [reflexivity|].
      generalize (params (if zero_component_stats config
                          then ZeroComponentStats nnet else nnet)).
      intros l. induction l as [|x l IH]; [reflexivity|].
      cbn [map length replicate]. rewrite IH. reflexivity.
Qed.

Lemma SplitStringToVector_length (s : string) :
  length (SplitStringToVector s) = S (count_colons s).
Proof.
  induction s as [|c s IH]; [reflexivity|].
  cbn [SplitStringToVector count_colons].
  case_bool_decide.
  - cbn [length]. rewrite IH. lia.
  - destruct (SplitStringToVector s) as [|tok toks];
      cbn [length] in *; lia.
Qed.

Lemma SplitStringToVector_colon_free (s : string) :
  count_colons s = 0%nat -> SplitStringToVector s = [s].
Proof.
  induction s as [|c s IH]; [reflexivity|].
  cbn [SplitStringToVector count_colons].
  case_bool_decide; [lia|].
  intros Hs. rewrite IH by lia. reflexivity.
Qed.

Lemma SplitStringToVector_app_colon (a rest : string) :
  count_colons a = 0%nat ->
  SplitStringToVector (a +:+ ":" +:+ rest) = a :: SplitStringToVector rest.
Proof.
  induction a as [|c a IH].
  - intros _. simpl. reflexivity.
  - simpl. case_bool_decide; [lia|].
    intros Hs. rewrite IH by lia. reflexivity.
Qed.

(** The tokens come back from the string that joins them. *)
Lemma SplitStringToVector_join (toks : list string) :
  toks <> [] ->
  Forall (fun tok => count_colons tok = 0%nat) toks ->
  SplitStringToVector (join_tokens toks) = toks.
Proof.
  induction toks as [|tok toks IH]; [congruence|].
  intros _ Hfree. inversion Hfree as [|? ? Htok Hrest]; subst.
  destruct toks as [|tok' toks].
  - cbn [join_tokens]. apply SplitStringToVector_colon_free. exact Htok.
  - change (join_tokens (tok :: tok' :: toks))
      with (tok +:+ ":" +:+ join_tokens (tok' :: toks)).
    rewrite SplitStringToVector_app_colon by exact Htok.
    rewrite IH; [reflexivity | discriminate | exact Hrest].
Qed.

Lemma parse_objective_scales_pairs (pairs : list (string * string)) :
  forall scales : gmap string BaseFloat,
  Forall (fun p => is_Some (ConvertStringToReal p.2)) pairs ->
  exists scales' : gmap string BaseFloat,
    parse_objective_scales (scale_tokens pairs) scales = Ok scales' /\
    forall name,
      scales' !! name =
        match scale_of pairs name with
        | Some v => ConvertStringToReal v
        | None => scales !! name
        end.
Proof.
  induction pairs as [|[n v] pairs IH]; intros scales Hconv.
  - exists scales. split; [reflexivity|]. intros name. reflexivity.
  - inversion Hconv as [|? ? [x Hx] Hrest]; subst. cbn [snd] in Hx.
    destruct (IH (<[n := x]> scales) Hrest) as (scales' & Hparse & Hlook).
    exists scales'. split.
    + cbn [scale_tokens flat_map app fst snd parse_objective_scales].
      rewrite Hx. exact Hparse.
    + intros name. rewrite Hlook. cbn [scale_of fst snd].
      destruct (scale_of pairs name) as [v'|]; [reflexivity|].
      case_bool_decide as Hn.
      * subst. rewrite lookup_insert_eq. symmetry. exact Hx.
      * rewrite lookup_insert_ne by exact Hn. reflexivity.
Qed.

Lemma parse_objective_scales_bad (pairs : list (string * string)) :
  forall scales : gmap string BaseFloat,
  Exists (fun p => ConvertStringToReal p.2 = None) pairs ->
  parse_objective_scales (scale_tokens pairs) scales =
    Fatal "Could not convert objective-scale to float.".
Proof.
  induction pairs as [|[n v] pairs IH]; intros scales Hbad.
  - inversion Hbad.
  - cbn [scale_tokens flat_map app fst snd parse_objective_scales].
    destruct (ConvertStringToReal v) as [x|] eqn:Hx; [|reflexivity].
    apply IH. inversion Hbad as [? ? Hv|? ? Hrest]; subst;
      [cbn [snd] in Hv; congruence | exact Hrest].
Qed.

Lemma scale_tokens_length (pairs : list (string * string)) :
  length (scale_tokens pairs) = (2 * length pairs)%nat.
Proof.
  induction pairs as [|p pairs IH]; [reflexivity|].
  change (scale_tokens (p :: pairs)) with (p.1 :: p.2 :: scale_tokens pairs).
  cbn [length]. rewrite IH. lia.
Qed.

Lemma join_tokens_nonempty (a b : string) (rest : list string) :
  join_tokens (a :: b :: rest) <> EmptyString.
Proof.
  change (join_tokens (a :: b :: rest))
    with (a +:+ ":" +:+ join_tokens (b :: rest)).
  intros Heq. apply (f_equal String.length) in Heq.
  rewrite !string_length_app in Heq. cbn [String.length] in Heq. lia.
Qed.

(** X4.  For a configuration that passes the assertion on the momentum and
    the maximum parameter change, and whose [objective_scales_str] is the
    colon-joined list of one or more pairs (name, value) without a colon
    inside a token: if every value converts to a number the constructor
    succeeds and its scale map gives each name the number of the last pair
    that names it, and no entry to any other name; if some value does not
    convert the constructor is fatal. *)
Theorem NnetTrainer_new_scales (config : NnetTrainerOptions) (nnet : Nnet)
    (pairs : list (string * string)) :
  Fge (momentum config) Fzero && Fge (max_param_change config) Fzero = true ->
  pairs <> [] ->
  Forall (fun tok => count_colons tok = 0%nat) (scale_tokens pairs) ->
  objective_scales_str config = join_tokens (scale_tokens pairs) ->
  (Forall (fun p => is_Some (ConvertStringToReal p.2)) pairs ->
   exists t,
     NnetTrainer_new config nnet = Ok t /\
     forall name,
       objective_scales_ t !! name = scale_of pairs name ≫= ConvertStringToReal) /\
  (Exists (fun p => ConvertStringToReal p.2 = None) pairs ->
   NnetTrainer_new config nnet =
     Fatal "Could not convert objective-scale to float.").
Proof.
  intros Hge Hne Hfree Hstr.
  assert (Hsplit : SplitStringToVector (objective_scales_str config) =
                   scale_tokens pairs).
  { rewrite Hstr. apply SplitStringToVector_join; [|exact Hfree].
    destruct pairs; [congruence | discriminate]. }
  assert (Hnonempty : objective_scales_str config <> EmptyString).
  { rewrite Hstr. destruct pairs as [|p pairs]; [congruence|].
    apply join_tokens_nonempty. }
  assert (Hdelta : exists delta : option Nnet,
    (if Feq (momentum config) Fzero && Feq (max_param_change config) Fzero
     then Ok None
     else
       _ ← KALDI_ASSERT (Fge (momentum config) Fzero &&
                         Fge (max_param_change config) Fzero);
       Ok (Some (SetZero false
                   (if zero_component_stats config
                    then ZeroComponentStats nnet else nnet)))) = Ok delta).
  { rewrite Hge.
    destruct (Feq (momentum config) Fzero && Feq (max_param_change config) Fzero);
      eexists; reflexivity. }
  destruct Hdelta as [delta Hdelta].
  unfold NnetTrainer_new. rewrite Hdelta. cbn [mbind result_bind].
  rewrite (bool_decide_eq_false_2 _ Hnonempty).
  rewrite Hsplit.
  rewrite bool_decide_eq_false_2.
  2:{ rewrite scale_tokens_length. intros Hodd. apply Hodd.
      rewrite Nat.mul_comm. apply Nat.Div0.mod_mul. }
  split.
  - intros Hconv.
    destruct (parse_objective_scales_pairs pairs ∅ Hconv)
      as (scales & Hparse & Hlook).
    rewrite Hparse. eexists. split; [reflexivity|].
    intros name. cbn [objective_scales_]. rewrite Hlook.
    destruct (scale_of pairs name); [reflexivity|].
    apply lookup_empty.
  - intros Hbad. rewrite (parse_objective_scales_bad pairs ∅ Hbad).
    reflexivity.
Qed.

(** X5.  A nonempty [objective_scales_str] with an even number of colons,
    that is, an odd number of tokens, is a fatal configuration error of the
    constructor, whatever the tokens are, once the assertion on the
    momentum and the maximum parameter change has passed. *)
Theorem NnetTrainer_new_odd_tokens (config : NnetTrainerOptions) (nnet : Nnet) :
  Fge (momentum config) Fzero && Fge (max_param_change config) Fzero = true ->
  objective_scales_str config <> EmptyString ->
  Nat.Even (count_colons (objective_scales_str config)) ->
  NnetTrainer_new config nnet =
    Fatal "Incorrect format for objective-scales-str".
Proof.
  intros Hge Hnonempty [k Hk].
  unfold NnetTrainer_new.
  rewrite Hge.
  rewrite (bool_decide_eq_false_2 _ Hnonempty).
  rewrite SplitStringToVector_length, Hk.
  rewrite bool_decide_eq_true_2.
  2:{ replace (S (2 * k)) with (1 + k * 2)%nat by lia.
      rewrite Nat.Div0.mod_add. cbn. lia. }
  destruct (Feq (momentum config) Fzero && Feq (max_param_change config) Fzero);
    reflexivity.
Qed.

End Constructor.

Lemma sample_assertion_passes :
  Fge Fzero Fzero && Fge Fzero Fzero = true.
Proof. rewrite Fge_0_0. reflexivity. Qed.

Lemma NnetTrainer_new_delta_iff_witness :
  let config := sample_config (Fin (1/2)) Fzero false "" in
  exists t,
    @NnetTrainer_new sample_parser config sample_nnet = Ok t /\
    is_Some (delta_nnet_ t) /\
    forall d, delta_nnet_ t = Some d -> params d = [Fzero].
Proof.
  intros config.
  destruct (@NnetTrainer_new sample_parser config sample_nnet) as [t|msg]
    eqn:Hnew.
  - exists t. split; [reflexivity|].
    destruct (@NnetTrainer_new_delta_iff sample_parser config sample_nnet t Hnew)
      as (_ & _ & Hiff & Hd & _).
    assert (Hnn : nnet_ t = sample_nnet).
    { revert Hnew. vm_compute. resolve_R. intros Hnew.
      injection Hnew as <-. reflexivity. }
    split.
    + apply Hiff. left. simpl. apply bool_decide_eq_true_2. lra.
    + intros d Hdd. destruct (Hd d Hdd) as [_ Hp].
      rewrite Hp, Hnn. reflexivity.
  - exfalso. revert Hnew. vm_compute. resolve_R. discriminate.
Defined.

Lemma NnetTrainer_new_scales_witness :
  let config := sample_config Fzero Fzero false "output:2.0:output2:0.5" in
  exists t,
    @NnetTrainer_new sample_parser config sample_nnet = Ok t /\
    objective_scales_ t !! "output" = Some (Fin 2) /\
    objective_scales_ t !! "output2" = Some (Fin (1/2)) /\
    objective_scales_ t !! "output-reg" = None.
Proof.
  intros config.
  destruct (@NnetTrainer_new_scales sample_parser config sample_nnet
              [("output", "2.0"); ("output2", "0.5")])
    as [Hok _].
  - exact sample_assertion_passes.
  - discriminate.
  - repeat constructor.
  - reflexivity.
  - destruct Hok as (t & Hnew & Hlook).
    + repeat constructor; eexists; reflexivity.
    + exists t. split; [exact Hnew|].
      rewrite !Hlook. repeat split; reflexivity.
Defined.

Lemma NnetTrainer_new_odd_tokens_witness :
  @NnetTrainer_new sample_parser
    (sample_config Fzero Fzero false "output:2.0:output2") sample_nnet =
  Fatal "Incorrect format for objective-scales-str".
Proof.
  apply (@NnetTrainer_new_odd_tokens sample_parser).
  - exact sample_assertion_passes.
  - discriminate.
  - exists 1%nat. reflexivity.
Defined.

(** ** Shapes in the objective functions *)

(** Splits a hypothesis [H : (x ← e; k x) = Ok r] on the outcome of [e]. *)
Ltac inv_bind H :=
  match type of H with
  | mbind _ ?e = Ok _ =>
      let E := fresh "Hstep" in
      destruct e eqn:E; [cbn [mbind result_bind] in H | discriminate H]
  end.

Lemma shape_mat_map f (M : Matrix) : shape (mat_map f M) = shape M.
Proof.
  unfold shape, mat_map. induction M as [|row M IH]; [reflexivity|].
  cbn [map]. rewrite IH, length_map. reflexivity.
Qed.

Lemma shape_mat_zip f (A : Matrix) : forall B : Matrix,
  shape A = shape B -> shape (mat_zip f A B) = shape A.
Proof.
  unfold shape, mat_zip.
  induction A as [|a A IH]; intros [|b B] Hs; try reflexivity;
    try discriminate.
  cbn [map] in Hs. injection Hs as Hab Hs.
  cbn [zip_with map]. rewrite (IH B Hs).
  rewrite length_zip_with. f_equal. lia.
Qed.

Lemma shape_NewMatrix rows cols x :
  shape (NewMatrix rows cols x) = replicate rows cols.
Proof.
  unfold shape, NewMatrix. induction rows as [|rows IH]; [reflexivity|].
  cbn [replicate map]. rewrite IH, length_replicate. reflexivity.
Qed.

Lemma same_shape_eq (A B : Matrix) : same_shape A B = true -> shape A = shape B.
Proof. unfold same_shape. intros Hs. apply bool_decide_eq_true in Hs. exact Hs. Qed.

Lemma CopyFromMat_inv (dest src r : Matrix) :
  CopyFromMat dest src = Ok r -> r = src /\ shape dest = shape src.
Proof.
  unfold CopyFromMat. destruct (same_shape dest src) eqn:Hs; [|discriminate].
  intros Hr. injection Hr as <-. split; [reflexivity|].
  apply same_shape_eq. exact Hs.
Qed.

Lemma AddMat_inv alpha (src dest r : Matrix) :
  AddMat alpha src dest = Ok r ->
  r = mat_zip (fun d s => Fadd d (Fmul alpha s)) dest src /\
  shape dest = shape src /\ shape r = shape dest.
Proof.
  unfold AddMat. destruct (same_shape dest src) eqn:Hs; [|discriminate].
  intros Hr. injection Hr as <-. apply same_shape_eq in Hs.
  split; [reflexivity|]. split; [exact Hs|].
  apply shape_mat_zip. exact Hs.
Qed.

Lemma DivElements_inv (dest src r : Matrix) :
  DivElements dest src = Ok r ->
  r = mat_zip Fdiv dest src /\ shape dest = shape src /\ shape r = shape dest.
Proof.
  unfold DivElements. destruct (same_shape dest src) eqn:Hs; [|discriminate].
  intros Hr. injection Hr as <-. apply same_shape_eq in Hs.
  split; [reflexivity|]. split; [exact Hs|].
  apply shape_mat_zip. exact Hs.
Qed.

Lemma TraceMatMat_inv (A B : Matrix) x :
  TraceMatMat A B = Ok x ->
  x = VecSum (zip_with VecVec A B) /\ shape A = shape B.
Proof.
  unfold TraceMatMat. destruct (same_shape A B) eqn:Hs; [|discriminate].
  intros Hr. injection Hr as <-. split; [reflexivity|].
  apply same_shape_eq. exact Hs.
Qed.

Section ObjectiveShapes.
Context `{Compression}.

Lemma shape_GetMatrix (g : GeneralMatrix) :
  shape (GetMatrix g) = GeneralMatrix_shape g.
Proof.
  destruct g; cbn [GetMatrix GeneralMatrix_shape]; try reflexivity.
  apply SparseMatrix_ToMat_shape.
Qed.

Lemma CopyFromGeneralMat_inv (dest : Matrix) g (r : Matrix) :
  CopyFromGeneralMat dest g = Ok r ->
  r = GetMatrix g /\ shape dest = GeneralMatrix_shape g.
Proof.
  unfold CopyFromGeneralMat. case_bool_decide as Hs; [|discriminate].
  intros Hr. injection Hr as <-. split; [reflexivity | exact Hs].
Qed.

Lemma CrossEntropyObjective_shape supervision output od r :
  CrossEntropyObjective supervision output od = Ok r ->
  shape output = GeneralMatrix_shape supervision /\
  match od with
  | Some _ => exists d, res_output_deriv r = Some d /\ shape d = shape output
  | None => res_output_deriv r = None
  end.
Proof.
  unfold CrossEntropyObjective. intros Hr.
  inv_bind Hr. apply CopyFromGeneralMat_inv in Hstep as [-> Hsup].
  inv_bind Hr. apply AddMat_inv in Hstep as (-> & _ & _).
  inv_bind Hr. apply AddMat_inv in Hstep as (-> & _ & _).
  inv_bind Hr. apply TraceMatMat_inv in Hstep as (-> & Hs1).
  inv_bind Hr. apply TraceMatMat_inv in Hstep as (-> & Hs2).
  unfold ApplyLog in Hs1. rewrite shape_mat_map, shape_GetMatrix in Hs1.
  split; [exact Hs1|].
  destruct od as [d|].
  - inv_bind Hr. apply DivElements_inv in Hstep as (-> & _ & _).
    inv_bind Hr. apply DivElements_inv in Hstep as (-> & Hd1 & Hd2).
    inv_bind Hr. apply CopyFromMat_inv in Hstep as (-> & _).
    inv_bind Hr. apply AddMat_inv in Hstep as (-> & Ha1 & Ha2).
    injection Hr as <-. cbn [res_output_deriv].
    eexists. split; [reflexivity|].
    etrans; [apply Ha2|]. etrans; [apply Hd2|].
    rewrite shape_GetMatrix. symmetry. exact Hs1.
  - injection Hr as <-. reflexivity.
Qed.

Lemma LinearObjective_shape supervision output od r :
  LinearObjective supervision output od = Ok r ->
  shape output = GeneralMatrix_shape supervision /\
  match od with
  | Some _ => exists d, res_output_deriv r = Some d /\ shape d = shape output
  | None => res_output_deriv r = None
  end.
Proof.
  unfold LinearObjective. intros Hr.
  destruct supervision as [mat|cmat|smat].
  - destruct od as [d|].
    + inv_bind Hr. apply CopyFromGeneralMat_inv in Hstep as [-> Hsup].
      inv_bind Hr. apply TraceMatMat_inv in Hstep as (-> & Hs).
      injection Hr as <-. cbn [res_output_deriv GetMatrix] in *.
      split; [exact Hs|]. eexists. split; [reflexivity|].
      symmetry. exact Hs.
    + inv_bind Hr. apply TraceMatMat_inv in Hstep as (-> & Hs).
      injection Hr as <-. split; [exact Hs | reflexivity].
  - destruct od as [d|].
    + inv_bind Hr. apply CopyFromMat_inv in Hstep as [-> Hsup].
      inv_bind Hr. apply TraceMatMat_inv in Hstep as (-> & Hs).
      injection Hr as <-. cbn [res_output_deriv GetMatrix] in *.
      split; [exact Hs|]. eexists. split; [reflexivity|].
      symmetry. exact Hs.
    + inv_bind Hr. apply TraceMatMat_inv in Hstep as (-> & Hs).
      injection Hr as <-. split; [exact Hs | reflexivity].
  - inv_bind Hr. unfold TraceMatSmat in Hstep.
    case_bool_decide as Hs; [|discriminate]. clear Hstep.
    cbn [GeneralMatrix_shape]. split; [exact Hs|].
    destruct od as [d|].
    + inv_bind Hr. unfold SparseMatrix_CopyToMat in Hstep.
      case_bool_decide as Hd; [|discriminate]. injection Hstep as <-.
      injection Hr as <-. cbn [res_output_deriv].
      eexists. split; [reflexivity|].
      rewrite SparseMatrix_ToMat_shape. symmetry. exact Hs.
    + injection Hr as <-. reflexivity.
Qed.

Lemma QuadraticObjective_shape supervision output od r :
  QuadraticObjective supervision output od = Ok r ->
  shape output = GeneralMatrix_shape supervision /\
  match od with
  | Some _ => exists d, res_output_deriv r = Some d /\ shape d = shape output
  | None => res_output_deriv r = None
  end.
Proof.
  unfold QuadraticObjective. intros Hr.
  destruct od as [d|].
  - inv_bind Hr. apply CopyFromGeneralMat_inv in Hstep as [-> Hsup].
    inv_bind Hr. apply AddMat_inv in Hstep as (-> & Ha1 & Ha2).
    inv_bind Hr. injection Hr as <-. cbn [res_output_deriv].
    rewrite shape_GetMatrix in Ha1, Ha2.
    split; [symmetry; exact Ha1|].
    eexists. split; [reflexivity|]. etrans; [apply Ha2|]. exact Ha1.
  - inv_bind Hr. apply CopyFromGeneralMat_inv in Hstep as [-> Hsup].
    inv_bind Hr. apply AddMat_inv in Hstep as (-> & Ha1 & Ha2).
    inv_bind Hr. injection Hr as <-.
    rewrite shape_GetMatrix in Ha1.
    split; [symmetry; exact Ha1 | reflexivity].
Qed.

(** X6.  Whenever [ComputeObjectiveFunction] returns, for any objective
    kind and any encoding of the supervision, the output of the network has
    exactly the shape of the supervision (a mismatch of rows as well as of
    columns is fatal); a derivative is written exactly when one was
    requested, and it has the shape of the output. *)
Theorem ComputeObjectiveFunction_shapes (supervision : GeneralMatrix)
    (objective_type : ObjectiveType) (output_name : string)
    (output : Matrix) (output_deriv : option Matrix) (r : ObjfResult) :
  ComputeObjectiveFunction supervision objective_type output_name
    output output_deriv = Ok r ->
  shape output = GeneralMatrix_shape supervision /\
  match output_deriv with
  | Some _ => exists d, res_output_deriv r = Some d /\ shape d = shape output
  | None => res_output_deriv r = None
  end.
Proof.
  unfold ComputeObjectiveFunction. case_bool_decide; [discriminate|].
  destruct objective_type; intros Hr.
  - eapply LinearObjective_shape. exact Hr.
  - eapply QuadraticObjective_shape. exact Hr.
  - eapply CrossEntropyObjective_shape. exact Hr.
  - discriminate.
Qed.

End ObjectiveShapes.

Lemma ComputeObjectiveFunction_shapes_witness :
  let output := [[Fin 3; Fin 4]] in
  shape output = [2%nat] /\
  exists d,
    res_output_deriv
      (mkObjfResult (Sum [[Fone; Fzero]])
         (VecSum (zip_with VecVec output [[Fone; Fzero]]))
         (Some [[Fone; Fzero]])) = Some d /\
    shape d = shape output.
Proof.
  intros output.
  apply (@ComputeObjectiveFunction_shapes sample_compression
           (@GFull sample_compression [[Fone; Fzero]]) kLinear "output"
           output (Some [[Fzero; Fzero]])).
  reflexivity.
Defined.

(** ** The totals do not depend on the request of a derivative *)

Section DerivativeRequest.
Context `{Compression}.

(** X7.  If [ComputeObjectiveFunction] returns when a derivative is
    requested, it also returns when none is, with the same total weight and
    the same total objective: the two copies of the arithmetic in each
    branch of the code agree.  (The supervision is rectangular, as every
    matrix of the library is.) *)
Theorem ComputeObjectiveFunction_totals_without_deriv
    (supervision : GeneralMatrix) (objective_type : ObjectiveType)
    (output_name : string) (output deriv : Matrix) (r : ObjfResult) :
  rectangular supervision ->
  ComputeObjectiveFunction supervision objective_type output_name
    output (Some deriv) = Ok r ->
  ComputeObjectiveFunction supervision objective_type output_name
    output None =
    Ok (mkObjfResult (res_tot_weight r) (res_tot_objf r) None).
Proof.
  intros Hrect. unfold ComputeObjectiveFunction.
  case_bool_decide; [discriminate|].
  destruct objective_type; intros Hr.
  - (* kLinear *)
    unfold LinearObjective in *.
    destruct supervision as [mat|cmat|smat].
    + inv_bind Hr. apply CopyFromGeneralMat_inv in Hstep as [-> _].
      cbn [GetMatrix] in Hr.
      destruct (TraceMatMat output mat) as [x|]; [|discriminate].
      cbn [mbind result_bind] in *. injection Hr as <-. reflexivity.
    + inv_bind Hr. apply CopyFromMat_inv in Hstep as [-> _].
      destruct (TraceMatMat output _) as [x|]; [|discriminate].
      cbn [mbind result_bind] in *. injection Hr as <-. reflexivity.
    + destruct (TraceMatSmat output smat) as [x|]; [|discriminate].
      cbn [mbind result_bind] in *.
      inv_bind Hr. injection Hr as <-. reflexivity.
  - (* kQuadratic *)
    unfold QuadraticObjective in *.
    inv_bind Hr. apply CopyFromGeneralMat_inv in Hstep as [-> _].
    assert (Hcopy : CopyFromGeneralMat
              (NewMatrix (GeneralMatrix_NumRows supervision)
                         (GeneralMatrix_NumCols supervision) Fzero)
              supervision = Ok (GetMatrix supervision)).
    { unfold CopyFromGeneralMat. rewrite shape_NewMatrix.
      rewrite bool_decide_eq_true_2; [reflexivity|].
      symmetry. exact Hrect. }
    rewrite Hcopy. cbn [mbind result_bind].
    destruct (AddMat (Fin (-1)) output (GetMatrix supervision)) as [diff|];
      [|discriminate].
    cbn [mbind result_bind] in *.
    destruct (TraceMatMat diff diff) as [tr|]; [|discriminate].
    cbn [mbind result_bind] in *. injection Hr as <-. reflexivity.
  - (* kCrossEntropy *)
    unfold CrossEntropyObjective in *.
    destruct (CopyFromGeneralMat _ supervision) as [cu_post|]; [|discriminate].
    cbn [mbind result_bind] in *.
    destruct (AddMat (Fin (-1)) cu_post _) as [n_cu_post|]; [|discriminate].
    cbn [mbind result_bind] in *.
    destruct (AddMat (Fin (-1)) output _) as [n_output|]; [|discriminate].
    cbn [mbind result_bind] in *.
    destruct (TraceMatMat (ApplyLog output) cu_post) as [t1|]; [|discriminate].
    cbn [mbind result_bind] in *.
    destruct (TraceMatMat (ApplyLog n_output) n_cu_post) as [t2|];
      [|discriminate].
    cbn [mbind result_bind] in *.
    inv_bind Hr. inv_bind Hr. inv_bind Hr. inv_bind Hr.
    injection Hr as <-. reflexivity.
  - discriminate.
Qed.

End DerivativeRequest.

Lemma ComputeObjectiveFunction_totals_without_deriv_witness :
  let diff := [[Fadd Fone (Fmul (Fin (-1)) (Fin 3));
                Fadd (Fin 2) (Fmul (Fin (-1)) (Fin 4))]] in
  let objf := Fmul (Fin (-1/2)) (VecSum (zip_with VecVec diff diff)) in
  @ComputeObjectiveFunction sample_compression
    (@GFull sample_compression [[Fone; Fin 2]]) kQuadratic "output"
    [[Fin 3; Fin 4]] None =
  Ok (mkObjfResult (Fin (INR 1)) objf None).
Proof.
  intros diff objf.
  apply (@ComputeObjectiveFunction_totals_without_deriv sample_compression
           (@GFull sample_compression [[Fone; Fin 2]]) kQuadratic "output"
           [[Fin 3; Fin 4]] [[Fzero; Fzero]]
           (mkObjfResult (Fin (INR 1)) objf (Some diff))).
  - reflexivity.
  - reflexivity.
Defined.

(** ** The quadratic objective and the regularizer *)

Lemma not_negative_square (x : BaseFloat) : not_negative (Fmul x x).
Proof. destruct x; simpl; try exact I. nra. Qed.

Lemma not_negative_add (x y : BaseFloat) :
  not_negative x -> not_negative y -> not_negative (Fadd x y).
Proof. destruct x, y; simpl; try tauto. lra. Qed.

Lemma not_negative_VecSum (v : Vector) :
  Forall not_negative v -> not_negative (VecSum v).
Proof.
  induction 1 as [|x v Hx _ IH]; [simpl; lra|].
  rewrite VecSum_cons. apply not_negative_add; assumption.
Qed.

Lemma not_negative_VecVec_self (v : Vector) : not_negative (VecVec v v).
Proof.
  unfold VecVec. apply not_negative_VecSum.
  induction v as [|x v IH]; [constructor|].
  cbn [zip_with]. constructor; [apply not_negative_square | exact IH].
Qed.

Lemma not_negative_trace_self (M : Matrix) :
  not_negative (VecSum (zip_with VecVec M M)).
Proof.
  apply not_negative_VecSum.
  induction M as [|row M IH]; [constructor|].
  cbn [zip_with]. constructor; [apply not_negative_VecVec_self | exact IH].
Qed.

Lemma minus_half_not_positive (x : BaseFloat) :
  not_negative x -> Fgt (Fmul (Fin (-1/2)) x) Fzero = false.
Proof.
  destruct x; simpl; try tauto.
  - intros Hr. apply bool_decide_eq_false_2. lra.
  - intros _. unfold inf_times.
    rewrite bool_decide_eq_false_2 by lra.
    rewrite bool_decide_eq_false_2 by lra. reflexivity.
Qed.

Lemma Fmul_1_l (x : BaseFloat) : Fmul Fone x = x.
Proof.
  destruct x; simpl; try reflexivity.
  - f_equal. lra.
  - unfold inf_times. rewrite bool_decide_eq_false_2 by lra.
    rewrite bool_decide_eq_true_2 by lra. reflexivity.
  - unfold inf_times. rewrite bool_decide_eq_false_2 by lra.
    rewrite bool_decide_eq_true_2 by lra. reflexivity.
Qed.

Lemma Scale_1 (M : Matrix) : Scale Fone M = M.
Proof.
  unfold Scale, mat_map.
  induction M as [|row M IH]; [reflexivity|].
  cbn [map]. rewrite IH. f_equal.
  induction row as [|x row IHr]; [reflexivity|].
  cbn [map]. rewrite IHr, Fmul_1_l. reflexivity.
Qed.

Lemma TraceMatMat_self (M : Matrix) :
  TraceMatMat M M = Ok (VecSum (zip_with VecVec M M)).
Proof.
  unfold TraceMatMat, same_shape.
  rewrite bool_decide_eq_true_2 by reflexivity. reflexivity.
Qed.

Section Quadratic.
Context `{Compression}.

(** X8.  When the quadratic objective returns, the total weight is the
    number of rows of the output, the total objective is never greater than
    zero, and the derivative, when requested, is the supervision minus the
    output, entry by entry. *)
Theorem ComputeObjectiveFunction_quadratic (supervision : GeneralMatrix)
    (output_name : string) (output : Matrix) (output_deriv : option Matrix)
    (r : ObjfResult) :
  ComputeObjectiveFunction supervision kQuadratic output_name output
    output_deriv = Ok r ->
  res_tot_weight r = Fin (INR (NumRows output)) /\
  Fgt (res_tot_objf r) Fzero = false /\
  res_output_deriv r =
    (fun _ => mat_zip (fun x y => Fadd x (Fmul (Fin (-1)) y))
                (GetMatrix supervision) output) <$> output_deriv.
Proof.
  unfold ComputeObjectiveFunction. case_bool_decide; [discriminate|].
  unfold QuadraticObjective. intros Hr.
  assert (Hrows : forall diff : Matrix,
    shape diff = shape (GetMatrix supervision) ->
    shape (GetMatrix supervision) = shape output ->
    NumRows diff = NumRows output).
  { intros diff H1 H2. unfold NumRows.
    rewrite <- (length_map length diff), <- (length_map length output).
    unfold shape in *. congruence. }
  destruct output_deriv as [d|].
  - inv_bind Hr. apply CopyFromGeneralMat_inv in Hstep as [-> _].
    inv_bind Hr. apply AddMat_inv in Hstep as (-> & Ha1 & Ha2).
    inv_bind Hr. apply TraceMatMat_inv in Hstep as (-> & _).
    injection Hr as <-. cbn [res_tot_weight res_tot_objf res_output_deriv].
    split; [|split; [|reflexivity]].
    + f_equal. f_equal. apply Hrows; assumption.
    + apply minus_half_not_positive, not_negative_trace_self.
  - inv_bind Hr. apply CopyFromGeneralMat_inv in Hstep as [-> _].
    inv_bind Hr. apply AddMat_inv in Hstep as (-> & Ha1 & Ha2).
    inv_bind Hr. apply TraceMatMat_inv in Hstep as (-> & _).
    injection Hr as <-. cbn [res_tot_weight res_tot_objf res_output_deriv].
    split; [|split; [|reflexivity]].
    + f_equal. f_equal. apply Hrows; assumption.
    + apply minus_half_not_positive, not_negative_trace_self.
Qed.

End Quadratic.

(** X9.  [ComputeRegularizer] by objective kind.  For [kLinear] it always
    returns: the weight is the number of rows of the output, the objective
    the sum of its entries, and the derivative the matrix it was handed
    with every entry set to one (its shape is not compared with the
    output).  For [kQuadratic] it returns exactly when no derivative is
    requested or the matrix handed has the shape of the output; the
    objective is never greater than zero and the derivative is the output
    itself.  For any other kind, [kCrossEntropy] included, it is fatal. *)
Theorem ComputeRegularizer_by_kind (objective_type : ObjectiveType)
    (output_name : string) (output : Matrix) (output_deriv : option Matrix) :
  match objective_type with
  | kLinear =>
      ComputeRegularizer objective_type output_name output output_deriv =
        Ok (mkObjfResult (Fin (INR (NumRows output))) (Sum output)
              (SetMat Fone <$> output_deriv))
  | kQuadratic =>
      if deriv_shape_ok output output_deriv then
        exists objf,
          ComputeRegularizer objective_type output_name output output_deriv =
            Ok (mkObjfResult (Fin (INR (NumRows output))) objf
                  ((fun _ => output) <$> output_deriv)) /\
          Fgt objf Fzero = false
      else
        exists msg,
          ComputeRegularizer objective_type output_name output output_deriv =
            Fatal msg
  | _ =>
      ComputeRegularizer objective_type output_name output output_deriv =
        Fatal "Regularizer objective function type not handled."
  end.
Proof.
  destruct objective_type; try reflexivity.
  unfold ComputeRegularizer. rewrite TraceMatMat_self.
  cbn [mbind result_bind].
  destruct output_deriv as [d|]; cbn [deriv_shape_ok].
  - unfold CopyFromMat, same_shape.
    case_bool_decide; cbn [mbind result_bind].
    + eexists. rewrite Scale_1. split; [reflexivity|].
      apply minus_half_not_positive, not_negative_trace_self.
    + eexists. reflexivity.
  - eexists. split; [reflexivity|].
    apply minus_half_not_positive, not_negative_trace_self.
Qed.

Lemma ComputeObjectiveFunction_quadratic_witness :
  let diff := [[Fadd Fone (Fmul (Fin (-1)) (Fin 3));
                Fadd (Fin 2) (Fmul (Fin (-1)) (Fin 4))]] in
  let objf := Fmul (Fin (-1/2)) (VecSum (zip_with VecVec diff diff)) in
  Fgt objf Fzero = false /\
  @ComputeObjectiveFunction sample_compression
    (@GFull sample_compression [[Fone; Fin 2]]) kQuadratic "output"
    [[Fin 3; Fin 4]] (Some [[Fzero; Fzero]]) =
  Ok (mkObjfResult (Fin (INR 1)) objf (Some diff)).
Proof.
  intros diff objf.
  assert (Hrun : @ComputeObjectiveFunction sample_compression
    (@GFull sample_compression [[Fone; Fin 2]]) kQuadratic "output"
    [[Fin 3; Fin 4]] (Some [[Fzero; Fzero]]) =
    Ok (mkObjfResult (Fin (INR 1)) objf (Some diff))) by reflexivity.
  split; [|exact Hrun].
  apply (@ComputeObjectiveFunction_quadratic sample_compression _ _ _ _ _
           Hrun).
Defined.

(** ** ProcessOutputs: the counter, the derivatives, the fatal entries *)

Lemma find_node_not_found name (l : list NetworkNode) : forall i,
  name ∉ node_name <$> l -> find_node name l i = (-1)%Z.
Proof.
  induction l as [|n l IH]; intros i Hnot; [reflexivity|].
  cbn [find_node]. rewrite fmap_cons in Hnot.
  apply not_elem_of_cons in Hnot as [Hne Hnot].
  rewrite bool_decide_eq_false_2 by congruence.
  apply IH. exact Hnot.
Qed.

Lemma ComputeRegularizer_deriv_some objective_type name output d r :
  ComputeRegularizer objective_type name output (Some d) = Ok r ->
  is_Some (res_output_deriv r).
Proof.
  unfold ComputeRegularizer. destruct objective_type; try discriminate.
  - intros Hr. injection Hr as <-. eexists. reflexivity.
  - intros Hr. inv_bind Hr. inv_bind Hr. injection Hr as <-.
    eexists. reflexivity.
Qed.

Section ProcessCounts.
Context `{Compression} `{!Executor}.

Lemma ComputeObjectiveFunction_deriv_some supervision kind name output d r :
  ComputeObjectiveFunction supervision kind name output (Some d) = Ok r ->
  is_Some (res_output_deriv r).
Proof.
  unfold ComputeObjectiveFunction. case_bool_decide; [discriminate|].
  destruct kind; intros Hr; try discriminate.
  - apply LinearObjective_shape in Hr as (_ & d' & Hd & _). eauto.
  - apply QuadraticObjective_shape in Hr as (_ & d' & Hd & _). eauto.
  - apply CrossEntropyObjective_shape in Hr as (_ & d' & Hd & _). eauto.
Qed.

Lemma accept_deriv_length t computer io name scale deriv computer' :
  accept_deriv t computer io name scale deriv = Ok computer' ->
  length (computer_output_derivs computer') =
    S (length (computer_output_derivs computer)).
Proof.
  unfold accept_deriv. intros Ha. inv_bind Ha. injection Ha as <-.
  cbn [AcceptOutputDeriv computer_output_derivs].
  rewrite length_app. cbn [length]. lia.
Qed.

Lemma update_stats_counter st name w o st' :
  update_stats st name w o = Ok st' ->
  num_minibatches_processed_ (ps_trainer st') =
    (num_minibatches_processed_ (ps_trainer st) + 1)%Z /\
  ps_computer st' = ps_computer st.
Proof.
  unfold update_stats. intros Hu. inv_bind Hu.
  destruct a as [info log]. injection Hu as <-. split; reflexivity.
Qed.

Lemma process_regularizer_counts io obj_type scale st st' :
  process_regularizer io obj_type scale st = Ok st' ->
  let n := if add_regularizer (config_ (ps_trainer st)) &&
              bool_decide (0 <= GetNodeIndex (nnet_ (ps_trainer st))
                                  (io_name io +:+ "-reg"))%Z
           then 1%nat else 0%nat in
  num_minibatches_processed_ (ps_trainer st') =
    (num_minibatches_processed_ (ps_trainer st) + Z.of_nat n)%Z /\
  length (computer_output_derivs (ps_computer st')) =
    (length (computer_output_derivs (ps_computer st)) + n)%nat.
Proof.
  unfold process_regularizer. intros Hp. cbv zeta.
  destruct (add_regularizer (config_ (ps_trainer st)));
    [|injection Hp as <-; cbn [andb]; split; lia].
  cbn [andb].
  case_bool_decide; [|injection Hp as <-; split; lia].
  inv_bind Hp. inv_bind Hp.
  destruct (ComputeRegularizer_deriv_some _ _ _ _ _ Hstep0) as [d Hd].
  rewrite Hd in Hp. inv_bind Hp.
  apply accept_deriv_length in Hstep1.
  apply update_stats_counter in Hp as [Hc Hcomp].
  cbn [ps_trainer ps_computer] in Hc, Hcomp.
  rewrite Hc, Hcomp, Hstep1. split; lia.
Qed.

Lemma process_io_counts io st st' :
  process_io io st = Ok st' ->
  let n := outputs_processed (nnet_ (ps_trainer st)) (config_ (ps_trainer st))
             (io_name io) in
  num_minibatches_processed_ (ps_trainer st') =
    (num_minibatches_processed_ (ps_trainer st) + Z.of_nat n)%Z /\
  length (computer_output_derivs (ps_computer st')) =
    (length (computer_output_derivs (ps_computer st)) + n)%nat.
Proof.
  unfold process_io, outputs_processed. intros Hp. cbv zeta.
  inv_bind Hp.
  destruct (IsOutputNode (nnet_ (ps_trainer st)) _);
    [|injection Hp as <-; split; lia].
  inv_bind Hp.
  destruct (ComputeObjectiveFunction_deriv_some _ _ _ _ _ _ Hstep0) as [d Hd].
  rewrite Hd in Hp. inv_bind Hp.
  apply accept_deriv_length in Hstep1.
  inv_bind Hp.
  pose proof (update_stats_same_model _ _ _ _ _ Hstep2) as (Hcfg & Hnn & _).
  apply update_stats_counter in Hstep2 as [Hc Hcomp].
  cbn [ps_trainer ps_computer] in Hc, Hcomp, Hcfg, Hnn.
  apply process_regularizer_counts in Hp. cbv zeta in Hp.
  rewrite Hcfg, Hnn, Hc, Hcomp, Hstep1 in Hp.
  destruct Hp as [Hp1 Hp2]. rewrite Hp1, Hp2.
  destruct (add_regularizer (config_ (ps_trainer st)) && _); split; lia.
Qed.

Lemma process_ios_counts ios : forall st st',
  process_ios ios st = Ok st' ->
  let n := total_outputs_processed (nnet_ (ps_trainer st))
             (config_ (ps_trainer st)) (io_name <$> ios) in
  num_minibatches_processed_ (ps_trainer st') =
    (num_minibatches_processed_ (ps_trainer st) + Z.of_nat n)%Z /\
  length (computer_output_derivs (ps_computer st')) =
    (length (computer_output_derivs (ps_computer st)) + n)%nat.
Proof.
  induction ios as [|io ios IH]; intros st st' Hp; cbv zeta.
  - injection Hp as <-. cbn. split; lia.
  - cbn [process_ios] in Hp. inv_bind Hp.
    pose proof (process_io_same_model _ _ _ Hstep) as (Hcfg & Hnn & _).
    apply process_io_counts in Hstep. cbv zeta in Hstep.
    apply IH in Hp. cbv zeta in Hp. rewrite Hcfg, Hnn in Hp.
    rewrite fmap_cons. cbn [total_outputs_processed foldr].
    fold (total_outputs_processed (nnet_ (ps_trainer st))
            (config_ (ps_trainer st)) (io_name <$> ios)).
    destruct Hstep as [H1 H2], Hp as [H3 H4].
    rewrite H3, H4, H1, H2. split; lia.
Qed.

(** X10.  A call of [Train] that returns advances the minibatch counter
    by the number of calls of [UpdateStats] it made: one for each entry of
    the example that names an output node, one more for each of them whose
    regularizer output exists under [add_regularizer], none for the other
    entries.  The statistics, the configuration and the scale map are those
    [ProcessOutputs] left. *)
Theorem Train_counter (t : NnetTrainer) (eg : NnetExample)
    (t' : NnetTrainer) (log : list LogEvent) :
  Train t eg = Ok (t', log) ->
  num_minibatches_processed_ t' =
    (num_minibatches_processed_ t +
     Z.of_nat (total_outputs_processed (nnet_ t) (config_ t)
                 (io_name <$> eg_io eg)))%Z /\
  config_ t' = config_ t /\
  objective_scales_ t' = objective_scales_ t.
Proof.
  unfold Train. intros Ht. inv_bind Ht.
  pose proof (ProcessOutputs_same_model _ _ _ Hstep) as (Hcfg & _ & _ & Hsc & _).
  unfold ProcessOutputs in Hstep.
  apply process_ios_counts in Hstep as [Hc _]. cbn [ps_trainer] in Hc.
  destruct (delta_nnet_ (ps_trainer a)) as [d|].
  - destruct (update_rule _ _ _) as [[nnet' delta'] log'].
    injection Ht as <- _. cbn [num_minibatches_processed_ config_
      objective_scales_]. rewrite Hc, Hcfg, Hsc. repeat split; reflexivity.
  - injection Ht as <- _. cbn [num_minibatches_processed_ config_
      objective_scales_]. rewrite Hc, Hcfg, Hsc. repeat split; reflexivity.
Qed.

(** X11.  [ProcessOutputs] hands the computer exactly one output
    derivative for each call of [UpdateStats] it makes: when it returns,
    the number of derivatives the computer holds and the minibatch counter
    have grown by the same amount. *)
Theorem ProcessOutputs_one_deriv_per_update (t : NnetTrainer)
    (eg : NnetExample) (computer : NnetComputer) (st : ProcessState) :
  ProcessOutputs t eg computer = Ok st ->
  Z.of_nat (length (computer_output_derivs (ps_computer st))) =
    (Z.of_nat (length (computer_output_derivs computer)) +
     (num_minibatches_processed_ (ps_trainer st) -
      num_minibatches_processed_ t))%Z.
Proof.
  unfold ProcessOutputs. intros Hp.
  apply process_ios_counts in Hp as [Hc Hd].
  cbn [ps_trainer ps_computer] in Hc, Hd. rewrite Hc, Hd. lia.
Qed.

Lemma process_ios_fatal_member ios : forall (st : ProcessState) io,
  io ∈ ios ->
  (forall st', same_model st st' -> exists msg, process_io io st' = Fatal msg) ->
  exists msg, process_ios ios st = Fatal msg.
Proof.
  induction ios as [|io0 ios IH]; intros st io Hin Hbad.
  - inversion Hin.
  - cbn [process_ios].
    destruct (process_io io0 st) as [st1|msg] eqn:Hio0; [|eauto].
    cbn [mbind result_bind].
    apply elem_of_cons in Hin as [->|Hin].
    + destruct (Hbad st (same_model_refl st)) as [msg Hmsg]. congruence.
    + apply (IH st1 io Hin). intros st' Hst'. apply Hbad.
      eapply same_model_trans; [|exact Hst'].
      eapply process_io_same_model. exact Hio0.
Qed.

(** X12.  An example with an entry whose name is not the name of a node
    of the network is never trained on: [Train] is fatal, wherever the
    entry stands in the example. *)
Theorem Train_unknown_node (t : NnetTrainer) (eg : NnetExample) (io : NnetIo) :
  io ∈ eg_io eg ->
  io_name io ∉ node_name <$> nodes (nnet_ t) ->
  exists msg, Train t eg = Fatal msg.
Proof.
  intros Hin Hnot.
  assert (Hp : exists msg,
    ProcessOutputs t eg (mkNnetComputer (nnet_ t) eg []) = Fatal msg).
  { unfold ProcessOutputs.
    apply (process_ios_fatal_member _ _ io Hin).
    intros st' (_ & Hnn & _). cbn [ps_trainer] in Hnn.
    unfold process_io, GetNodeIndex. rewrite Hnn.
    rewrite (find_node_not_found _ _ _ Hnot).
    rewrite bool_decide_eq_false_2 by lia. eexists. reflexivity. }
  destruct Hp as [msg Hp]. exists msg. unfold Train. rewrite Hp. reflexivity.
Qed.

(** X13.  Under [add_regularizer], an entry for an output node whose
    objective kind is neither linear nor quadratic, and whose regularizer
    node exists, is never processed: the loop body is fatal, even where the
    objective of the output itself can be computed (cross-entropy). *)
Theorem process_io_regularizer_unhandled (io : NnetIo) (st : ProcessState) :
  let nnet := nnet_ (ps_trainer st) in
  let kind := GetObjectiveType nnet (GetNodeIndex nnet (io_name io)) in
  add_regularizer (config_ (ps_trainer st)) = true ->
  IsOutputNode nnet (GetNodeIndex nnet (io_name io)) = true ->
  (0 <= GetNodeIndex nnet (io_name io +:+ "-reg"))%Z ->
  kind <> kLinear -> kind <> kQuadratic ->
  exists msg, process_io io st = Fatal msg.
Proof.
  cbv zeta. intros Hadd Hout Hidx Hl Hq.
  destruct (process_io io st) as [st'|msg] eqn:Hp; [|eauto].
  exfalso. unfold process_io in Hp.
  inv_bind Hp. rewrite Hout in Hp.
  inv_bind Hp. inv_bind Hp. inv_bind Hp.
  pose proof (update_stats_same_model _ _ _ _ _ Hstep2) as (Hcfg & Hnn & _).
  cbn [ps_trainer] in Hcfg, Hnn.
  unfold process_regularizer in Hp.
  rewrite Hcfg, Hnn, Hadd in Hp.
  rewrite bool_decide_eq_true_2 in Hp by exact Hidx.
  inv_bind Hp.
  destruct (GetObjectiveType _ _); try congruence; discriminate.
Qed.

End ProcessCounts.

Section ProcessInstances.
Local Existing Instance sample_compression.
Local Existing Instance sample_parser.

Lemma Train_counter_witness :
  let ex := sample_executor [[Fin 3]] Fone in
  let t := mkNnetTrainer (sample_config Fzero Fzero true "") sample_nnet
             None 0 ∅ ∅ in
  exists t' log,
    @Train _ ex t sample_eg2 = Ok (t', log) /\
    num_minibatches_processed_ t' = 3%Z.
Proof.
  intros ex t.
  destruct (@Train _ ex t sample_eg2) as [[t' log]|msg] eqn:Ht.
  - exists t', log. split; [reflexivity|].
    destruct (@Train_counter _ ex t sample_eg2 t' log Ht) as (Hc & _).
    rewrite Hc. reflexivity.
  - exfalso. revert Ht. vm_compute. resolve_R. discriminate.
Defined.

Lemma ProcessOutputs_one_deriv_per_update_witness :
  let ex := sample_executor [[Fin 3]] Fone in
  let t := mkNnetTrainer (sample_config Fzero Fzero true "") sample_nnet
             None 0 ∅ ∅ in
  exists st,
    @ProcessOutputs _ ex t sample_eg (mkNnetComputer sample_nnet sample_eg [])
      = Ok st /\
    Z.of_nat (length (computer_output_derivs (ps_computer st))) =
      (0 + (num_minibatches_processed_ (ps_trainer st) - 0))%Z.
Proof.
  intros ex t.
  destruct (@ProcessOutputs _ ex t sample_eg
              (mkNnetComputer sample_nnet sample_eg [])) as [st|msg] eqn:Hp.
  - exists st. split; [reflexivity|].
    apply (@ProcessOutputs_one_deriv_per_update _ ex t sample_eg
             (mkNnetComputer sample_nnet sample_eg []) st Hp).
  - exfalso. revert Hp. vm_compute. resolve_R. discriminate.
Defined.

Lemma Train_unknown_node_witness :
  let ex := sample_executor [[Fin 3]] Fone in
  let t := mkNnetTrainer (sample_config Fzero Fzero false "") sample_nnet
             None 0 ∅ ∅ in
  exists msg,
    @Train _ ex t (mkNnetExample [sample_io "output"; sample_io "missing"])
      = Fatal msg.
Proof.
  intros ex t.
  apply (@Train_unknown_node _ ex t _ (sample_io "missing")).
  - apply elem_of_cons. right. apply elem_of_cons. left. reflexivity.
  - cbn. intros Hin.
    repeat (apply elem_of_cons in Hin as [Hin|Hin]; [discriminate Hin|]).
    inversion Hin.
Defined.

Lemma process_io_regularizer_unhandled_witness :
  let ex := sample_executor [[Fin (1/2)]] Fone in
  let t := mkNnetTrainer (sample_config Fzero Fzero true "") sample_nnet_ce
             None 0 ∅ ∅ in
  exists msg,
    @process_io _ ex (sample_io "output")
      (mkProcessState t (mkNnetComputer sample_nnet_ce sample_eg []) [])
      = Fatal msg.
Proof.
  intros ex t.
  apply (@process_io_regularizer_unhandled _ ex).
  - reflexivity.
  - reflexivity.
  - vm_compute. discriminate.
  - discriminate.
  - discriminate.
Defined.

End ProcessInstances.
(** ** The update rule without clipping, and what it keeps *)

(** The square root that [param_delta] starts from: a NaN, plus infinity
    or a number that is not negative. *)
Lemma to_float_Fsqrt_cases (y : BaseFloat) :
  to_float (Fsqrt y) = NaN \/ to_float (Fsqrt y) = PInf \/
  exists a, to_float (Fsqrt y) = Fin a /\ 0 <= a.
Proof.
  destruct y as [r| | |]; cbn [Fsqrt to_float]; auto.
  case_bool_decide; cbn [to_float]; [auto|].
  pose proof (sqrt_pos r) as Hs.
  destruct (round_to_format 24 (-149) 128 (sqrt r)) as [v| | |] eqn:Hv; auto.
  - right. right. exists v. split; [reflexivity|].
    exact (round_to_format_nonneg _ _ _ _ _ Hs Hv).
  - exfalso. exact (round_to_format_not_NInf _ _ _ _ Hs Hv).
Qed.

(** The scale [1 - momentum] for a momentum that passed the assertion of
    the constructor: minus infinity, a number that is not positive, or a
    number computed from a finite momentum. *)
Lemma update_scale_cases config :
  Fge (momentum config) Fzero = true ->
  update_scale config = NInf \/
  (exists k, update_scale config = Fin k /\ k <= 0) \/
  (exists k mm, update_scale config = Fin k /\ momentum config = Fin mm).
Proof.
  intros Hm. unfold update_scale.
  apply Fge_0_inv in Hm as [->|(mm & -> & Hmm)]; [left; reflexivity|].
  unfold Fsub, Fone. cbn [Fopp Fadd].
  destruct (Rle_dec (1 + - mm) 0) as [Hx|Hx].
  - destruct (round_to_format_nonpos 53 (-1074) 1024 _ Hx)
      as [Hr|(v & Hr & Hv)]; cbn [to_double]; rewrite Hr.
    + left. reflexivity.
    + destruct (round_to_format_nonpos 24 (-149) 128 _ Hv)
        as [Hr2|(w & Hr2 & Hw)]; cbn [to_float]; rewrite Hr2.
      * left. reflexivity.
      * right. left. eauto.
  - right. right.
    assert (Hx1 : Rabs (1 + - mm) <= 1) by (apply Rabs_le; lra).
    pose proof (bpow_pos (-1074)) as Hp1.
    assert (Hmin1 : bpow (-1074) <= 1).
    { rewrite <- bpow_0. apply bpow_le. lia. }
    destruct (round_to_format_finite 53 (-1074) 1024 ltac:(lia) ltac:(lia)
                (1 + - mm)) as (v & Hv & Hverr).
    { apply Rle_trans with 1; [exact Hx1|].
      rewrite <- bpow_0. apply bpow_le. lia. }
    cbn [to_double]. rewrite Hv.
    assert (Hv2 : Rabs v <= 2).
    { replace v with (1 + - mm + (v - (1 + - mm))) by lra.
      eapply Rle_trans; [apply Rabs_triang|]. lra. }
    pose proof (bpow_pos (-149)) as Hp2.
    destruct (round_to_format_finite 24 (-149) 128 ltac:(lia) ltac:(lia) v)
      as (k & Hk & _).
    { apply Rle_trans with 2; [exact Hv2|].
      rewrite <- bpow_1. apply bpow_le. lia. }
    cbn [to_float]. rewrite Hk. eauto.
Qed.

Lemma param_delta_PInf_scale config delta :
  Fge (momentum config) Fzero = true ->
  param_delta_of config delta = PInf ->
  exists k mm, update_scale config = Fin k /\ momentum config = Fin mm.
Proof.
  intros Hm Hpd. unfold param_delta_of in Hpd.
  apply to_float_PInf_inv in Hpd.
  destruct (update_scale_cases config Hm) as [Hs|[(k & Hs & Hk)|Hs]];
    [| |exact Hs]; exfalso; rewrite Hs in Hpd;
    destruct (to_float_Fsqrt_cases (DotProduct delta delta))
      as [Ha|[Ha|(a & Ha & Ha0)]]; rewrite Ha in Hpd; cbn [Fmul] in Hpd;
    unfold inf_times in Hpd;
    repeat case_bool_decide;
    destruct Hpd as [Hpd|(r & Hpd & Hr)];
    try discriminate; try (injection Hpd as Hpd; nra); lra.
Qed.

Section UpdateRuleMore.
Context `{Compression} `{!Executor}.

(** X14.  In a call of [Train] on a trainer with a delta network, when
    [max_param_change] is zero or the computed [param_delta] does not
    compare greater than it, the step is not clipped and nothing is logged:
    the model receives [scale * delta], where [scale] is [1 - momentum] as
    a float and [delta] is the delta network after the backward pass, and
    the delta network keeps [momentum * delta].  With a momentum of zero
    the step is [delta] itself. *)
Theorem Train_unclipped_step (t : NnetTrainer) (eg : NnetExample)
    (st : ProcessState) (d : Nnet) :
  delta_nnet_ t = Some d ->
  ProcessOutputs t eg (mkNnetComputer (nnet_ t) eg []) = Ok st ->
  Fne (max_param_change (config_ t)) Fzero = false \/
  Fgt (param_delta_of (config_ t) (Backward (ps_computer st) d))
      (max_param_change (config_ t)) = false ->
  let delta := params (Backward (ps_computer st) d) in
  let m := momentum (config_ t) in
  let step := Fmul (update_scale (config_ t)) <$> delta in
  exists t',
    Train t eg = Ok (t', ps_log st ++ []) /\
    params (nnet_ t') = zip_with Fadd (params (nnet_ t)) step /\
    (exists d', delta_nnet_ t' = Some d' /\ params d' = Fmul m <$> delta) /\
    (m = Fzero -> step = delta).
Proof.
  intros Hd Hproc Hcase. cbv zeta.
  rewrite (Train_with_delta _ _ _ _ Hd Hproc).
  assert (Hrule : update_rule (config_ t) (nnet_ t) (Backward (ps_computer st) d)
    = (AddNnet (Backward (ps_computer st) d) (update_scale (config_ t))
         (nnet_ t),
       ScaleNnet (momentum (config_ t)) (Backward (ps_computer st) d), [])).
  { destruct Hcase as [Hz|Hgt].
    - unfold update_rule. rewrite Hz. reflexivity.
    - apply update_rule_not_greater. exact Hgt. }
  rewrite Hrule.
  eexists. split; [reflexivity|].
  cbn [nnet_ delta_nnet_ AddNnet ScaleNnet params].
  split; [apply zip_with_Fadd_scaled|].
  split; [eexists; split; reflexivity|].
  intros Hm. rewrite (update_scale_zero _ Hm).
  induction (params (Backward (ps_computer st) d)) as [|x l IH];
    [reflexivity|].
  rewrite fmap_cons, IH, Fmul_1_l. reflexivity.
Qed.

(** X15.  In a call of [Train] on a trainer with a delta network, with
    the dot product [a] that [DotProduct] returned for the delta network
    after the backward pass, a momentum [m] and a bound
    [c = max_param_change] in ranges where no operation of the update
    underflows or overflows: the scale [s] of the step that the call adds
    to the model, clipped or not, is not negative, and [s * sqrt a] does
    not exceed [c] by more than the rounding of these operations, at most
    [c * 2 ^ -21]. *)
Theorem Train_step_norm_bounded (t : NnetTrainer) (eg : NnetExample)
    (st : ProcessState) (d : Nnet) (p a m c : R) :
  delta_nnet_ t = Some d ->
  ProcessOutputs t eg (mkNnetComputer (nnet_ t) eg []) = Ok st ->
  param_delta_of (config_ t) (Backward (ps_computer st) d) = Fin p ->
  DotProduct (Backward (ps_computer st) d) (Backward (ps_computer st) d)
    = Fin a ->
  momentum (config_ t) = Fin m ->
  max_param_change (config_ t) = Fin c ->
  bpow (-126) <= a <= bpow 60 ->
  bpow (-24) <= 1 - m <= 1 ->
  bpow (-60) <= c ->
  let delta := params (Backward (ps_computer st) d) in
  exists t' log s,
    Train t eg = Ok (t', log) /\
    params (nnet_ t') =
      zip_with Fadd (params (nnet_ t)) (Fmul (Fin s) <$> delta) /\
    0 <= s /\ s * sqrt a <= c * (1 + bpow (-21)).
Proof.
  intros Hd Hproc Hp Ha Hm Hc Har Hmr Hcr. cbv zeta.
  pose proof (bpow_pos (-60)) as Hpos60.
  pose proof (bpow_pos (-21)) as Hpos21.
  assert (Hne : Fne (max_param_change (config_ t)) Fzero = true).
  { rewrite Hc. unfold Fne, Fzero. cbn [Feq].
    rewrite bool_decide_eq_false_2 by lra. reflexivity. }
  rewrite (Train_with_delta _ _ _ _ Hd Hproc).
  pose proof Hp as Hp'. unfold param_delta_of in Hp'. rewrite Ha in Hp'.
  unfold update_scale in Hp'. rewrite Hm in Hp'.
  destruct (Fgt (Fin p) (max_param_change (config_ t))) eqn:Hgt.
  - rewrite (update_rule_clip _ _ _ _ Hne Hp Hgt).
    rewrite Hc in Hgt. cbn [Fgt] in Hgt. apply bool_decide_eq_true in Hgt.
    destruct (clip_scale_norm a m c p Har Hmr Hcr Hp' Hgt)
      as (s & Hs & Hs0 & Hnorm).
    assert (Hscale : to_float (Fmul (update_scale (config_ t))
                                 (clip_factor (config_ t) (Fin p))) = Fin s).
    { unfold update_scale, clip_factor. rewrite Hm, Hc. exact Hs. }
    rewrite Hscale.
    eexists _, _, s. split; [reflexivity|].
    cbn [nnet_ AddNnet params].
    split; [apply zip_with_Fadd_scaled|].
    split; [exact Hs0|].
    apply Rabs_le_bounds in Hnorm. lra.
  - rewrite update_rule_not_greater by (rewrite Hp; exact Hgt).
    rewrite Hc in Hgt. cbn [Fgt] in Hgt. apply bool_decide_eq_false in Hgt.
    destruct (unclipped_scale_norm a m p Har Hmr Hp')
      as (s & Hs & Hs0 & Hnorm).
    assert (Hscale : update_scale (config_ t) = Fin s).
    { unfold update_scale. rewrite Hm. exact Hs. }
    rewrite Hscale.
    eexists _, _, s. split; [reflexivity|].
    cbn [nnet_ AddNnet params].
    split; [apply zip_with_Fadd_scaled|].
    split; [exact Hs0|].
    assert (Hpc : p <= c) by lra.
    apply Rle_trans with (p * (1 + bpow (-21))); [exact Hnorm|].
    apply Rmult_le_compat_r; lra.
Qed.

(** X16.  A call of [Train] that returns keeps the invariant of the
    trainer and the frame of the model: the nodes and the number of
    parameters of the model are unchanged, a delta network is neither
    created nor dropped, and when there is one it still has the shape of
    the model. *)
Theorem Train_keeps_shape (t : NnetTrainer) (eg : NnetExample)
    (t' : NnetTrainer) (log : list LogEvent) :
  trainer_wf t ->
  Train t eg = Ok (t', log) ->
  trainer_wf t' /\
  nodes (nnet_ t') = nodes (nnet_ t) /\
  length (params (nnet_ t')) = length (params (nnet_ t)) /\
  (is_Some (delta_nnet_ t') <-> is_Some (delta_nnet_ t)).
Proof.
  intros Hwf Ht. unfold Train in Ht. inv_bind Ht.
  destruct (ProcessOutputs_same_model _ _ _ Hstep)
    as (Hcfg & Hnn & Hdd & _ & Hcn & _).
  rewrite Hdd, Hcfg, Hnn in Ht. unfold trainer_wf in *.
  destruct (delta_nnet_ t) as [d|] eqn:Hd.
  - destruct Hwf as [Hlen Hok].
    assert (Hblen : length (params (Backward (ps_computer a) d)) =
                    length (params (nnet_ t))).
    { rewrite Backward_length; [exact Hlen|]. rewrite Hcn. exact Hlen. }
    assert (Hrule : forall nnet' delta' log',
      update_rule (config_ t) (nnet_ t) (Backward (ps_computer a) d) =
        (nnet', delta', log') ->
      nodes nnet' = nodes (nnet_ t) /\
      length (params nnet') = length (params (nnet_ t)) /\
      length (params delta') = length (params (nnet_ t))).
    { unfold update_rule. intros nnet' delta' log' Hr.
      repeat match type of Hr with
             | context [if ?b then _ else _] => destruct b
             end;
        injection Hr as <- <- _;
        cbn [AddNnet ScaleNnet SetZero nodes params];
        rewrite length_zip_with, !length_map, Hblen;
        repeat split; lia. }
    destruct (update_rule _ _ _) as [[nnet' delta'] log'] eqn:Hr.
    destruct (Hrule _ _ _ eq_refl) as (Hn & Hl & Hdl).
    injection Ht as <- _. cbn [delta_nnet_ nnet_ config_].
    split; [split; [congruence | exact Hok]|].
    split; [exact Hn|]. split; [exact Hl|].
    split; intros _; eexists; reflexivity.
  - injection Ht as <- _. cbn [delta_nnet_ nnet_ config_].
    split; [exact I|]. split; [reflexivity|].
    split.
    + cbn [Backward params]. rewrite length_zip_with, BackwardDeriv_length.
      rewrite Hcn. lia.
    + split; intros [x Hx]; discriminate.
Qed.


(** X22.  In a call of [Train] on a trainer with a delta network and a
    nonzero [max_param_change], if the computed [param_delta] is not
    finite and passes the test [param_delta > max_param_change] (it is
    then plus infinity, from an infinite parameter derivative or from the
    overflow of the dot product of a finite delta network), the call
    returns with the warning, the parameters of the model are those before
    the call and every parameter of the delta network is zero. *)
Theorem Train_infinite_delta (t : NnetTrainer) (eg : NnetExample)
    (st : ProcessState) (d : Nnet) :
  trainer_wf t ->
  delta_nnet_ t = Some d ->
  ProcessOutputs t eg (mkNnetComputer (nnet_ t) eg []) = Ok st ->
  Fne (max_param_change (config_ t)) Fzero = true ->
  is_finite (param_delta_of (config_ t) (Backward (ps_computer st) d))
    = false ->
  Fgt (param_delta_of (config_ t) (Backward (ps_computer st) d))
      (max_param_change (config_ t)) = true ->
  exists t',
    Train t eg = Ok (t', ps_log st ++ [WarnInfiniteParameterChange]) /\
    params (nnet_ t') = params (nnet_ t) /\
    exists d', delta_nnet_ t' = Some d' /\
               params d' = replicate (length (params (nnet_ t))) Fzero.
Proof.
  intros Hwf Hd Hproc Hne Hinf Hgt.
  unfold trainer_wf in Hwf. rewrite Hd in Hwf.
  destruct Hwf as (Hlen & Hcfg). apply andb_true_iff in Hcfg as [Hm _].
  destruct (ProcessOutputs_same_model _ _ _ Hproc) as (_ & _ & _ & _ & Hcn & _).
  assert (Hblen : length (params (Backward (ps_computer st) d)) =
                  length (params (nnet_ t))).
  { rewrite Backward_length; [exact Hlen|]. rewrite Hcn. exact Hlen. }
  set (delta := Backward (ps_computer st) d) in *.
  assert (Hpd : param_delta_of (config_ t) delta = PInf).
  { destruct (param_delta_of (config_ t) delta); try discriminate.
    - reflexivity.
    - destruct (max_param_change (config_ t)); discriminate. }
  rewrite Hpd in Hgt.
  destruct (param_delta_PInf_scale _ _ Hm Hpd) as (k & mm & Hk & Hmm).
  rewrite (Train_with_delta _ _ _ _ Hd Hproc).
  rewrite (update_rule_infinite _ _ _ Hne Hpd Hgt).
  eexists. split; [reflexivity|].
  cbn [nnet_ delta_nnet_ AddNnet ScaleNnet SetZero params].
  rewrite Hk, Hmm.
  split.
  - apply zip_with_Fadd_zero. exact Hblen.
  - eexists. split; [reflexivity|].
    rewrite <- Hblen. apply (fmap_Fmul_zero mm (params delta)).
Qed.

End UpdateRuleMore.

Section UpdateInstances.
Local Existing Instance sample_compression.
Local Existing Instance sample_parser.

Lemma sample_Backward_params (g : BaseFloat)
    (ex := sample_executor [[Fin 3]] g)
    (t : NnetTrainer) (st : ProcessState) :
  nnet_ t = sample_nnet ->
  @ProcessOutputs _ ex t sample_eg (mkNnetComputer (nnet_ t) sample_eg [])
    = Ok st ->
  params (@Backward _ ex (ps_computer st) (SetZero false sample_nnet))
    = [Fadd Fzero g].
Proof.
  intros Hnn Hst.
  destruct (ProcessOutputs_same_model _ _ _ Hst) as (_ & _ & _ & _ & Hcn & Hce).
  unfold Backward. rewrite Hcn, Hce, Hnn. reflexivity.
Qed.

Lemma Train_unclipped_step_witness :
  let ex := sample_executor [[Fin 3]] (Fin 3) in
  let t := sample_trainer_delta Fzero (Fin 5) in
  let delta := [Fin (0 + 3)] in
  exists st,
    @ProcessOutputs _ ex t sample_eg (mkNnetComputer (nnet_ t) sample_eg [])
      = Ok st /\
    exists t',
      @Train _ ex t sample_eg = Ok (t', ps_log st ++ []) /\
      params (nnet_ t') = zip_with Fadd [Fone] delta /\
      (exists d', delta_nnet_ t' = Some d' /\
                  params d' = Fmul Fzero <$> delta).
Proof.
  intros ex t delta. subst ex.
  set (ex := sample_executor [[Fin 3]] (Fin 3)).
  destruct (sample_ProcessOutputs_ok ex t sample_eg _ eq_refl) as [st Hst].
  { intros msg. vm_compute. resolve_R. discriminate. }
  exists st. split; [exact Hst|].
  pose proof (sample_Backward_params (Fin 3) t st eq_refl Hst) as Hb.
  fold ex in Hb. change (Fadd Fzero (Fin 3)) with (Fin (0 + 3)) in Hb.
  destruct (@Train_unclipped_step _ ex t sample_eg st
              (SetZero false sample_nnet) eq_refl Hst)
    as (t' & Htrain & Hparams & Hdelta & Hstep).
  { right.
    rewrite (param_delta_of_single (config_ t) _ 3 Hb eq_refl) by lia.
    cbn. apply bool_decide_eq_false_2. lra. }
  rewrite (Hstep eq_refl), Hb in Hparams. rewrite Hb in Hdelta.
  exists t'. split; [exact Htrain|]. split; [exact Hparams|]. exact Hdelta.
Defined.

Lemma Train_step_norm_bounded_witness :
  let ex := sample_executor [[Fin 3]] (Fin 41) in
  let t := sample_trainer_delta Fzero Fone in
  let delta := [Fin (0 + 41)] in
  exists st,
    @ProcessOutputs _ ex t sample_eg (mkNnetComputer (nnet_ t) sample_eg [])
      = Ok st /\
    exists t' log s,
      @Train _ ex t sample_eg = Ok (t', log) /\
      params (nnet_ t') = zip_with Fadd [Fone] (Fmul (Fin s) <$> delta) /\
      0 <= s /\ s * sqrt 1681 <= 1 * (1 + bpow (-21)).
Proof.
  intros ex t delta. subst ex.
  set (ex := sample_executor [[Fin 3]] (Fin 41)).
  destruct (sample_ProcessOutputs_ok ex t sample_eg _ eq_refl) as [st Hst].
  { intros msg. vm_compute. resolve_R. discriminate. }
  exists st. split; [exact Hst|].
  pose proof (sample_Backward_params (Fin 41) t st eq_refl Hst) as Hb.
  fold ex in Hb. change (Fadd Fzero (Fin 41)) with (Fin (0 + 41)) in Hb.
  destruct (@Train_step_norm_bounded _ ex t sample_eg st
              (SetZero false sample_nnet) 41 1681 0 1)
    as (t' & log & s & Htrain & Hparams & Hs0 & Hnorm).
  - reflexivity.
  - exact Hst.
  - apply (param_delta_of_single (config_ t) _ 41 Hb eq_refl); lia.
  - apply (DotProduct_single _ 41 Hb). lia.
  - reflexivity.
  - reflexivity.
  - bpow_num. lra.
  - bpow_num. lra.
  - bpow_num. lra.
  - rewrite Hb in Hparams.
    exists t', log, s. split; [exact Htrain|].
    split; [exact Hparams|]. split; [exact Hs0 | exact Hnorm].
Defined.

(** The dot product of a delta network with the one parameter [2 ^ 64]
    overflows. *)
Lemma Train_infinite_delta_witness :
  let ex := sample_executor [[Fin 3]] (Fin 18446744073709551616) in
  let t := sample_trainer_delta Fzero Fone in
  exists st,
    @ProcessOutputs _ ex t sample_eg (mkNnetComputer (nnet_ t) sample_eg [])
      = Ok st /\
    params (@Backward _ ex (ps_computer st) (SetZero false sample_nnet))
      = [Fin (0 + 18446744073709551616)] /\
    exists t',
      @Train _ ex t sample_eg =
        Ok (t', ps_log st ++ [WarnInfiniteParameterChange]) /\
      params (nnet_ t') = [Fone] /\
      exists d', delta_nnet_ t' = Some d' /\ params d' = [Fzero].
Proof.
  intros ex t. subst ex.
  set (ex := sample_executor [[Fin 3]] (Fin 18446744073709551616)).
  destruct (sample_ProcessOutputs_ok ex t sample_eg _ eq_refl) as [st Hst].
  { intros msg. vm_compute. resolve_R. discriminate. }
  exists st. split; [exact Hst|].
  pose proof (sample_Backward_params (Fin 18446744073709551616) t st
                eq_refl Hst) as Hb.
  fold ex in Hb.
  change (Fadd Fzero (Fin 18446744073709551616))
    with (Fin (0 + 18446744073709551616)) in Hb.
  split; [exact Hb|].
  assert (Hpd : param_delta_of (config_ t)
                  (@Backward _ ex (ps_computer st) (SetZero false sample_nnet))
                = PInf).
  { unfold param_delta_of, DotProduct. rewrite Hb.
    rewrite (update_scale_zero (config_ t) eq_refl).
    unfold VecVec, VecSum. cbn [zip_with foldr Fmul Fadd Fzero].
    rewrite to_float_overflow by (bpow_num; lra).
    cbn [Fsqrt to_float]. rewrite Fmul_comm, Fmul_1_l. reflexivity. }
  apply (@Train_infinite_delta _ ex t sample_eg st (SetZero false sample_nnet)).
  - split; [reflexivity|].
    unfold Fge. cbn. rewrite (bool_decide_eq_true_2 (0 = 0)) by reflexivity.
    rewrite (bool_decide_eq_true_2 (0 < 1)) by lra.
    rewrite orb_true_r. reflexivity.
  - reflexivity.
  - exact Hst.
  - unfold Fne. cbn. rewrite bool_decide_eq_false_2 by lra. reflexivity.
  - rewrite Hpd. reflexivity.
  - rewrite Hpd. reflexivity.
Defined.

Lemma Train_keeps_shape_witness :
  let ex := sample_executor [[Fin 3]] (Fin 3) in
  let t := sample_trainer_delta (Fin (1/2)) Fzero in
  exists t' log,
    @Train _ ex t sample_eg = Ok (t', log) /\
    trainer_wf t' /\
    nodes (nnet_ t') = nodes sample_nnet /\
    length (params (nnet_ t')) = 1%nat /\
    is_Some (delta_nnet_ t').
Proof.
  intros ex t.
  destruct (@Train _ ex t sample_eg) as [[t' log]|msg] eqn:Ht.
  - exists t', log. split; [reflexivity|].
    destruct (@Train_keeps_shape _ ex t sample_eg t' log)
      as (Hwf & Hn & Hl & Hd).
    + split; [reflexivity|].
      unfold Fge. simpl.
      rewrite (bool_decide_eq_true_2 (0 < 1 / 2)) by lra.
      rewrite (bool_decide_eq_true_2 (0 = 0)) by reflexivity.
      rewrite orb_true_r. reflexivity.
    + exact Ht.
    + split; [exact Hwf|]. split; [exact Hn|]. split; [exact Hl|].
      apply Hd. eexists. reflexivity.
  - exfalso.
    destruct (sample_ProcessOutputs_ok ex t sample_eg _ eq_refl) as [st Hst].
    { intros msg'. vm_compute. resolve_R. discriminate. }
    rewrite (@Train_with_delta _ ex t sample_eg st _ eq_refl Hst) in Ht.
    destruct (update_rule _ _ _) as [[n' d'] l']. discriminate.
Defined.

End UpdateInstances.

(** ** The objective scale of an output *)

Lemma Feq_1_inv (x : BaseFloat) : Feq x Fone = true -> x = Fone.
Proof.
  destruct x; simpl; try discriminate.
  intros Hx. apply bool_decide_eq_true in Hx. subst. reflexivity.
Qed.

Lemma Scale_unless_one (scale : BaseFloat) (M : Matrix) :
  (if Fne scale Fone then Scale scale M else M) = Scale scale M.
Proof.
  unfold Fne. destruct (Feq scale Fone) eqn:Heq; [|reflexivity].
  apply Feq_1_inv in Heq. subst. cbn [negb]. symmetry. apply Scale_1.
Qed.

Section OutputScale.
Context `{Compression} `{!Executor}.

Lemma process_regularizer_frame io obj_type scale st st' :
  process_regularizer io obj_type scale st = Ok st' ->
  (exists extra,
     computer_output_derivs (ps_computer st') =
       computer_output_derivs (ps_computer st) ++ extra) /\
  (forall name, name <> io_name io +:+ "-reg" ->
     objf_info_ (ps_trainer st') !! name = objf_info_ (ps_trainer st) !! name).
Proof.
  unfold process_regularizer. intros Hp.
  assert (Hsame :
    (exists extra,
       computer_output_derivs (ps_computer st) =
         computer_output_derivs (ps_computer st) ++ extra) /\
    (forall name, name <> io_name io +:+ "-reg" ->
       objf_info_ (ps_trainer st) !! name =
         objf_info_ (ps_trainer st) !! name)).
  { split; [exists []; rewrite app_nil_r|]; reflexivity. }
  destruct (add_regularizer _); [|injection Hp as <-; exact Hsame].
  case_bool_decide; [|injection Hp as <-; exact Hsame].
  clear Hsame.
  inv_bind Hp. inv_bind Hp. inv_bind Hp.
  assert (Hcomp : exists extra,
            computer_output_derivs a1 =
              computer_output_derivs (ps_computer st) ++ extra).
  { destruct (res_output_deriv a0).
    - unfold accept_deriv in Hstep1. inv_bind Hstep1.
      injection Hstep1 as <-. eexists. reflexivity.
    - injection Hstep1 as <-. exists []. rewrite app_nil_r. reflexivity. }
  pose proof (update_stats_counter _ _ _ _ _ Hp) as [_ Hc].
  apply update_stats_totals in Hp as (info' & Hins & _).
  cbn [ps_trainer ps_computer] in Hins, Hc.
  split.
  - rewrite Hc. exact Hcomp.
  - intros name Hne. rewrite Hins. apply lookup_insert_ne. congruence.
Qed.

(** X17.  For an entry that names an output node, when the loop body
    returns: the first derivative it hands to the computer is the
    derivative of the objective function, multiplied row by row by the
    derivative weights when those apply, times the scale of the output,
    whether or not the code skips the multiplication by a scale equal to 1;
    the objective added to the statistics of the output is the computed
    objective times the same scale, and the weight added is not scaled. *)
Theorem process_io_output_scale (io : NnetIo) (st st' : ProcessState) :
  let t := ps_trainer st in
  let node_index := GetNodeIndex (nnet_ t) (io_name io) in
  let scale := default Fone (objective_scales_ t !! io_name io) in
  let nnet_output := GetOutput (ps_computer st) (io_name io) in
  let prev := default ObjectiveFunctionInfo_new
                (objf_info_ t !! io_name io) in
  process_io io st = Ok st' ->
  IsOutputNode (nnet_ t) node_index = true ->
  exists r d weighted info',
    ComputeObjectiveFunction (io_features io)
      (GetObjectiveType (nnet_ t) node_index) (io_name io) nnet_output
      (Some (NewMatrix (NumRows nnet_output) (NumCols nnet_output) Fzero))
      = Ok r /\
    res_output_deriv r = Some d /\
    (if apply_deriv_weights (config_ t) &&
        bool_decide (length (io_deriv_weights io) <> 0%nat)
     then MulRowsVec (io_deriv_weights io) d else Ok d) = Ok weighted /\
    computer_output_derivs (ps_computer st') !!
      length (computer_output_derivs (ps_computer st)) =
      Some (io_name io, Scale scale weighted) /\
    objf_info_ (ps_trainer st') !! io_name io = Some info' /\
    tot_weight info' = Fadd (tot_weight prev) (res_tot_weight r) /\
    tot_objf info' = Fadd (tot_objf prev) (Fmul (res_tot_objf r) scale).
Proof.
  cbv zeta. intros Hp Hout.
  unfold process_io in Hp. inv_bind Hp. rewrite Hout in Hp.
  assert (Hscale : match objective_scales_ (ps_trainer st) !! io_name io with
                   | Some s => s
                   | None => Fone
                   end = default Fone (objective_scales_ (ps_trainer st)
                                         !! io_name io)).
  { destruct (objective_scales_ (ps_trainer st) !! io_name io); reflexivity. }
  rewrite Hscale in Hp.
  set (scale := default Fone (objective_scales_ (ps_trainer st) !! io_name io))
    in *.
  inv_bind Hp.
  destruct (ComputeObjectiveFunction_deriv_some _ _ _ _ _ _ Hstep0) as [d Hd].
  rewrite Hd in Hp. inv_bind Hp.
  unfold accept_deriv in Hstep1. inv_bind Hstep1.
  injection Hstep1 as <-. rewrite Scale_unless_one in Hp.
  inv_bind Hp.
  pose proof (update_stats_counter _ _ _ _ _ Hstep1) as [_ Hc].
  apply update_stats_totals in Hstep1 as (info' & Hins & Hw & Ho).
  cbn [ps_trainer ps_computer] in Hins, Hw, Ho, Hc.
  apply process_regularizer_frame in Hp as [[extra Hextra] Hframe].
  exists a0, d, a2, info'.
  split; [reflexivity|]. split; [exact Hd|]. split; [exact Hstep2|].
  split; [|split; [|split; assumption]].
  - rewrite Hextra, Hc. cbn [AcceptOutputDeriv computer_output_derivs].
    rewrite <- app_assoc. rewrite lookup_app_r by lia.
    rewrite Nat.sub_diag. reflexivity.
  - rewrite Hframe.
    + rewrite Hins. apply lookup_insert_eq.
    + intros Heq. symmetry in Heq. exact (reg_name_neq _ Heq).
Qed.

End OutputScale.

Lemma process_io_output_scale_witness :
  let ex := sample_executor [[Fin 3]] Fone in
  let t := mkNnetTrainer (sample_config Fzero Fzero false "") sample_nnet
             None 0 ∅ (<["output" := Fin 2]> ∅) in
  let st := @mkProcessState sample_compression t
              (@mkNnetComputer sample_compression sample_nnet sample_eg []) [] in
  exists st' r d weighted info',
    @process_io sample_compression ex (sample_io "output") st = Ok st' /\
    res_output_deriv r = Some d /\
    Ok d = Ok weighted /\
    computer_output_derivs (ps_computer st') !! 0%nat =
      Some ("output", Scale (Fin 2) weighted) /\
    objf_info_ (ps_trainer st') !! "output" = Some info' /\
    tot_objf info' = Fadd Fzero (Fmul (res_tot_objf r) (Fin 2)).
Proof.
  intros ex t st.
  destruct (@process_io sample_compression ex (sample_io "output") st)
    as [st'|msg] eqn:Hp.
  - destruct (@process_io_output_scale sample_compression ex
                (sample_io "output") st st' Hp eq_refl)
      as (r & d & weighted & info' & _ & Hd & Hw & Hderiv & Hinfo & _ & Ho).
    exists st', r, d, weighted, info'.
    split; [reflexivity|]. split; [exact Hd|]. split; [exact Hw|].
    split; [exact Hderiv|]. split; [exact Hinfo | exact Ho].
  - exfalso. revert Hp. vm_compute. resolve_R. discriminate.
Defined.

(** ** The cross-entropy objective *)

Lemma zip_with_zip_with {A B C D E : Type} (f : C -> D -> E)
    (g : A -> B -> C) (h : A -> B -> D) (l : list A) : forall k : list B,
  zip_with f (zip_with g l k) (zip_with h l k) =
    zip_with (fun a b => f (g a b) (h a b)) l k.
Proof.
  induction l as [|a l IH]; intros [|b k]; try reflexivity.
  cbn [zip_with]. rewrite IH. reflexivity.
Qed.

Lemma mat_map_map f g (M : Matrix) :
  mat_map f (mat_map g M) = mat_map (fun x => f (g x)) M.
Proof.
  unfold mat_map. rewrite map_map. apply map_ext. intros row.
  apply map_map.
Qed.

Lemma mat_zip_map_l f g (A B : Matrix) :
  mat_zip f (mat_map g A) B = mat_zip (fun a b => f (g a) b) A B.
Proof.
  unfold mat_zip, mat_map. revert B.
  induction A as [|ra A IH]; intros [|rb B]; try reflexivity.
  cbn [map zip_with]. rewrite IH. f_equal.
  revert rb. induction ra as [|a ra IHr]; intros [|b rb]; try reflexivity.
  cbn [map zip_with]. rewrite IHr. reflexivity.
Qed.

Lemma mat_zip_map_r f g (A B : Matrix) :
  mat_zip f A (mat_map g B) = mat_zip (fun a b => f a (g b)) A B.
Proof.
  unfold mat_zip, mat_map. revert B.
  induction A as [|ra A IH]; intros [|rb B]; try reflexivity.
  cbn [map zip_with]. rewrite IH. f_equal.
  revert rb. induction ra as [|a ra IHr]; intros [|b rb]; try reflexivity.
  cbn [map zip_with]. rewrite IHr. reflexivity.
Qed.

Lemma mat_zip_zip f g h (A B : Matrix) :
  mat_zip f (mat_zip g A B) (mat_zip h A B) =
    mat_zip (fun a b => f (g a b) (h a b)) A B.
Proof.
  unfold mat_zip. revert B.
  induction A as [|ra A IH]; intros [|rb B]; try reflexivity.
  cbn [zip_with]. rewrite IH, zip_with_zip_with. reflexivity.
Qed.

(** A matrix of one value zipped with a matrix of the same shape. *)
Lemma mat_zip_const f (c : BaseFloat) (N : Matrix) : forall A : Matrix,
  shape N = shape A ->
  mat_zip f (mat_map (fun _ => c) N) A = mat_map (f c) A.
Proof.
  unfold shape, mat_zip, mat_map.
  induction N as [|rn N IH]; intros [|ra A] Hs; try reflexivity;
    try discriminate.
  cbn [map] in Hs. injection Hs as Hlen Hs.
  cbn [map zip_with]. rewrite (IH A Hs). f_equal.
  clear -Hlen. revert ra Hlen.
  induction rn as [|x rn IHr]; intros [|a ra] Hlen; try reflexivity;
    try discriminate.
  cbn [map zip_with]. rewrite IHr by (cbn [length] in Hlen; lia).
  reflexivity.
Qed.

Lemma ce_deriv_inside (a b : R) :
  0 < b < 1 ->
  ce_deriv (Fin a) (Fin b) = Fin (a / b - (1 - a) / (1 - b)).
Proof.
  intros Hb. unfold ce_deriv, one_minus. simpl.
  rewrite (bool_decide_eq_false_2 (b < 0)) by lra.
  rewrite (bool_decide_eq_false_2 (b = 0)) by lra.
  rewrite (bool_decide_eq_false_2 (1 + -1 * b < 0)) by lra.
  rewrite (bool_decide_eq_false_2 (1 + -1 * b = 0)) by lra.
  simpl.
  rewrite !exp_ln by lra.
  rewrite (bool_decide_eq_false_2 (b = 0)) by lra.
  rewrite (bool_decide_eq_false_2 (1 + -1 * b = 0)) by lra.
  simpl. f_equal. field. lra.
Qed.

Lemma is_finite_Fadd (x y : BaseFloat) :
  is_finite (Fadd x y) = true -> is_finite x = true /\ is_finite y = true.
Proof. destruct x, y; simpl; try discriminate. auto. Qed.

Lemma is_finite_Fmul (x y : BaseFloat) :
  is_finite (Fmul x y) = true -> is_finite x = true /\ is_finite y = true.
Proof.
  destruct x, y; simpl; try discriminate; auto;
    unfold inf_times; repeat case_bool_decide; discriminate.
Qed.

Lemma is_finite_Fdiv_exp_log (x : BaseFloat) (b : R) :
  is_finite (Fdiv x (Fexp (Flog (Fin b)))) = true -> 0 < b.
Proof.
  destruct (Rlt_dec 0 b) as [Hpos|Hnpos]; [intros _; exact Hpos|].
  intros Hfin. exfalso. revert Hfin. cbn [Flog].
  destruct (Rlt_dec b 0) as [Hneg|Hnneg].
  - rewrite bool_decide_eq_true_2 by exact Hneg. cbn [Fexp].
    destruct x; cbn [Fdiv is_finite]; discriminate.
  - rewrite bool_decide_eq_false_2 by exact Hnneg.
    rewrite bool_decide_eq_true_2 by lra. cbn [Fexp].
    destruct x; cbn [Fdiv].
    + rewrite bool_decide_eq_true_2 by reflexivity.
      unfold inf_times. repeat case_bool_decide; discriminate.
    + case_bool_decide; discriminate.
    + case_bool_decide; discriminate.
    + discriminate.
Qed.

Lemma ce_deriv_outside (a b : R) :
  is_finite (ce_deriv (Fin a) (Fin b)) = true -> 0 < b < 1.
Proof.
  unfold ce_deriv. intros Hfin.
  apply is_finite_Fadd in Hfin as [H1 H2].
  apply is_finite_Fmul in H2 as [_ H2].
  apply is_finite_Fdiv_exp_log in H1.
  change (one_minus (Fin b)) with (Fin (1 + -1 * b)) in H2.
  apply is_finite_Fdiv_exp_log in H2.
  lra.
Qed.

Section CrossEntropy.
Context `{Compression}.

(** X18.  When the cross-entropy objective returns, with [x] the decoded
    supervision and [y] the output: the total weight is the number of
    entries of [x]; the total objective is the sum over the entries of
    [log(y) * x] plus the sum over the entries of [log(1 - y) * (1 - x)];
    and the derivative, when requested, has the entry [ce_deriv x y], that
    is [x / exp(log y) - (1 - x) / exp(log(1 - y))].  For numbers [x] and
    [y] that entry is the number [x / y - (1 - x) / (1 - y)] when
    [0 < y < 1], and it is not finite for any other [y]. *)
Theorem ComputeObjectiveFunction_cross_entropy (supervision : GeneralMatrix)
    (output_name : string) (output : Matrix) (output_deriv : option Matrix)
    (r : ObjfResult) :
  ComputeObjectiveFunction supervision kCrossEntropy output_name output
    output_deriv = Ok r ->
  let x := GetMatrix supervision in
  res_tot_weight r = Fin (INR (NumRows x * NumCols x)) /\
  res_tot_objf r =
    Fadd (VecSum (zip_with VecVec (mat_map Flog output) x))
         (VecSum (zip_with VecVec
                    (mat_map (fun y => Flog (one_minus y)) output)
                    (mat_map one_minus x))) /\
  res_output_deriv r = (fun _ => mat_zip ce_deriv x output) <$> output_deriv /\
  (forall a b : R, 0 < b < 1 ->
     ce_deriv (Fin a) (Fin b) = Fin (a / b - (1 - a) / (1 - b))) /\
  (forall a b : R, is_finite (ce_deriv (Fin a) (Fin b)) = true -> 0 < b < 1).
Proof.
  unfold ComputeObjectiveFunction. case_bool_decide; [discriminate|].
  unfold CrossEntropyObjective. intros Hr. cbv zeta.
  inv_bind Hr. apply CopyFromGeneralMat_inv in Hstep as [-> _].
  inv_bind Hr. apply AddMat_inv in Hstep as (-> & Hs1 & _).
  inv_bind Hr. apply AddMat_inv in Hstep as (-> & Hs2 & _).
  unfold SetMat in *. rewrite shape_mat_map in Hs1, Hs2.
  rewrite (mat_zip_const _ _ _ _ Hs1) in Hr.
  rewrite (mat_zip_const _ _ _ _ Hs2) in Hr.
  change (fun s : BaseFloat => Fadd Fone (Fmul (Fin (-1)) s))
    with one_minus in Hr.
  unfold ApplyLog, ApplyExp in Hr. rewrite !mat_map_map in Hr.
  inv_bind Hr. apply TraceMatMat_inv in Hstep as (-> & _).
  inv_bind Hr. apply TraceMatMat_inv in Hstep as (-> & _).
  split; [|split; [|split; [|split]]];
    [ | | |exact ce_deriv_inside|exact ce_deriv_outside].
  - destruct output_deriv as [d|].
    + inv_bind Hr. inv_bind Hr. inv_bind Hr. inv_bind Hr.
      injection Hr as <-. reflexivity.
    + injection Hr as <-. reflexivity.
  - destruct output_deriv as [d|].
    + inv_bind Hr. inv_bind Hr. inv_bind Hr. inv_bind Hr.
      injection Hr as <-. reflexivity.
    + injection Hr as <-. reflexivity.
  - destruct output_deriv as [d|].
    + inv_bind Hr. apply DivElements_inv in Hstep as (-> & _ & _).
      inv_bind Hr. apply DivElements_inv in Hstep as (-> & _ & _).
      inv_bind Hr. apply CopyFromMat_inv in Hstep as (-> & _).
      inv_bind Hr. apply AddMat_inv in Hstep as (-> & _ & _).
      injection Hr as <-. cbn [res_output_deriv fmap option_fmap option_map].
      f_equal.
      rewrite mat_zip_map_l. rewrite !mat_zip_map_r.
      rewrite mat_zip_zip. reflexivity.
    + injection Hr as <-. reflexivity.
Qed.

End CrossEntropy.

Lemma ComputeObjectiveFunction_cross_entropy_witness :
  exists r,
    @ComputeObjectiveFunction sample_compression
      (@GFull sample_compression [[Fin (7/10)]]) kCrossEntropy "output"
      [[Fin (3/10)]] (Some [[Fzero]]) = Ok r /\
    res_tot_weight r = Fin (INR 1) /\
    res_output_deriv r =
      Some [[Fin (7/10 / (3/10) - (1 - 7/10) / (1 - 3/10))]].
Proof.
  destruct (@ComputeObjectiveFunction sample_compression
      (@GFull sample_compression [[Fin (7/10)]]) kCrossEntropy "output"
      [[Fin (3/10)]] (Some [[Fzero]])) as [r|msg] eqn:Hr.
  - exists r. split; [reflexivity|].
    destruct (@ComputeObjectiveFunction_cross_entropy sample_compression
                _ _ _ _ _ Hr) as (Hw & _ & Hd & Hin & _).
    split; [exact Hw|].
    rewrite Hd. cbn [fmap option_fmap option_map mat_zip zip_with GetMatrix].
    rewrite (Hin (7/10) (3/10)); [reflexivity | lra].
  - exfalso. revert Hr. unfold ComputeObjectiveFunction.
    rewrite bool_decide_eq_false_2 by (intros Hne; apply Hne; reflexivity).
    unfold CrossEntropyObjective.
    cbn [GeneralMatrix_NumRows GeneralMatrix_NumCols GeneralMatrix_shape
         GetMatrix shape map length].
    unfold CopyFromGeneralMat, AddMat, TraceMatMat, DivElements, CopyFromMat,
      same_shape.
    cbn. discriminate.
Defined.

(** ** The phase reports of a run *)

Lemma UpdateStats_inv info name mpp counter w o a info' log :
  UpdateStats info name mpp counter w o a = Ok (info', log) ->
  (log = [] /\ info' = add_minibatch info w o a) \/
  (log = PrintStatsForThisPhase info name mpp /\
   info' = add_minibatch (start_phase info (current_phase info + 1)) w o a).
Proof.
  unfold UpdateStats. intros Hu.
  case_bool_decide; [discriminate|].
  case_bool_decide as Hphase.
  - cbn [mbind result_bind] in Hu.
    unfold KALDI_ASSERT in Hu.
    case_bool_decide as Hnext; [|discriminate].
    cbn [mbind result_bind] in Hu. injection Hu as <- <-.
    right. rewrite Hnext. split; reflexivity.
  - cbn [mbind result_bind] in Hu. injection Hu as <- <-.
    left. split; reflexivity.
Qed.

Lemma PrintStatsForThisPhase_range info name mpp :
  exists ev,
    PrintStatsForThisPhase info name mpp = [ev] /\
    report_range ev =
      Some (name, (current_phase info * mpp)%Z,
            (current_phase info * mpp + mpp - 1)%Z) /\
    (tot_aux_objf_this_phase info = Fzero -> is_aux_event ev = false).
Proof.
  unfold PrintStatsForThisPhase.
  destruct (Feq (tot_aux_objf_this_phase info) Fzero) eqn:Haux.
  - eexists. split; [reflexivity|]. split; reflexivity.
  - eexists. split; [reflexivity|]. split; [reflexivity|].
    intros Hz. rewrite Hz, Feq_0_0 in Haux. discriminate.
Qed.



(** ** The trainer never accumulates an auxiliary objective *)

Lemma Fadd_0_0 : Fadd Fzero Fzero = Fzero.
Proof. unfold Fzero. cbn [Fadd]. f_equal. lra. Qed.

Lemma UpdateStats_no_aux info name mpp counter w o info' log :
  tot_aux_objf info = Fzero ->
  tot_aux_objf_this_phase info = Fzero ->
  UpdateStats info name mpp counter w o Fzero = Ok (info', log) ->
  (tot_aux_objf info' = Fzero /\ tot_aux_objf_this_phase info' = Fzero) /\
  Forall not_aux log.
Proof.
  intros Ha Hp Hu.
  apply UpdateStats_inv in Hu as [[-> ->]|[-> ->]].
  - cbn [add_minibatch tot_aux_objf tot_aux_objf_this_phase].
    rewrite Ha, Hp, Fadd_0_0. repeat split. constructor.
  - cbn [add_minibatch start_phase tot_aux_objf tot_aux_objf_this_phase].
    rewrite Ha, Fadd_0_0. repeat split.
    destruct (PrintStatsForThisPhase_range info name mpp)
      as (ev & -> & _ & Hev).
    constructor; [exact (Hev Hp)|constructor].
Qed.

Section NoAux.
Context `{Compression} `{!Executor}.

Lemma update_stats_no_aux st name w o st' :
  state_no_aux st -> update_stats st name w o = Ok st' -> state_no_aux st'.
Proof.
  unfold update_stats. intros [Htable Hlog] Hu. inv_bind Hu.
  destruct a as [info log]. injection Hu as <-.
  assert (Hinfo : tot_aux_objf
            (default ObjectiveFunctionInfo_new
               (objf_info_ (ps_trainer st) !! name)) = Fzero /\
          tot_aux_objf_this_phase
            (default ObjectiveFunctionInfo_new
               (objf_info_ (ps_trainer st) !! name)) = Fzero).
  { destruct (objf_info_ (ps_trainer st) !! name) as [i|] eqn:Hi.
    - exact (Htable name i Hi).
    - split; reflexivity. }
  destruct Hinfo as [Ha Hp].
  destruct (UpdateStats_no_aux _ _ _ _ _ _ _ _ Ha Hp Hstep) as [Hnew Hnewlog].
  split; cbn [ps_trainer ps_log objf_info_].
  - intros n i Hn. destruct (decide (n = name)) as [->|Hne].
    + rewrite lookup_insert_eq in Hn. injection Hn as <-. exact Hnew.
    + rewrite lookup_insert_ne in Hn by congruence. exact (Htable n i Hn).
  - apply Forall_app. split; assumption.
Qed.

Lemma process_regularizer_no_aux io obj_type scale st st' :
  state_no_aux st ->
  process_regularizer io obj_type scale st = Ok st' -> state_no_aux st'.
Proof.
  unfold process_regularizer. intros Hst Hp.
  destruct (add_regularizer (config_ (ps_trainer st)));
    [|injection Hp as <-; exact Hst].
  case_bool_decide; [|injection Hp as <-; exact Hst].
  inv_bind Hp. inv_bind Hp. inv_bind Hp.
  eapply update_stats_no_aux; [|exact Hp]. exact Hst.
Qed.

Lemma process_io_no_aux io st st' :
  state_no_aux st -> process_io io st = Ok st' -> state_no_aux st'.
Proof.
  unfold process_io. intros Hst Hp. inv_bind Hp.
  destruct (IsOutputNode (nnet_ (ps_trainer st)) _);
    [|injection Hp as <-; exact Hst].
  inv_bind Hp. inv_bind Hp. inv_bind Hp.
  eapply process_regularizer_no_aux; [|exact Hp].
  eapply update_stats_no_aux; [|exact Hstep2]. exact Hst.
Qed.

Lemma process_ios_no_aux ios : forall st st',
  state_no_aux st -> process_ios ios st = Ok st' -> state_no_aux st'.
Proof.
  induction ios as [|io ios IH]; intros st st' Hst Hp.
  - injection Hp as <-. exact Hst.
  - cbn [process_ios] in Hp. inv_bind Hp.
    eapply IH; [|exact Hp]. eapply process_io_no_aux; eassumption.
Qed.

Lemma update_rule_no_aux config nnet delta nnet' delta' log :
  update_rule config nnet delta = (nnet', delta', log) -> Forall not_aux log.
Proof.
  unfold update_rule. intros Hu.
  destruct (Fne (max_param_change config) Fzero).
  - destruct (Fgt _ _).
    + destruct (Fne (to_float (Fsub _ _)) Fzero); injection Hu as _ _ <-;
        repeat constructor.
    + injection Hu as _ _ <-. constructor.
  - injection Hu as _ _ <-. constructor.
Qed.

Lemma PrintTotalStats_loop_no_aux entries : forall ans,
  Forall (fun e : string * ObjectiveFunctionInfo =>
            tot_aux_objf e.2 = Fzero) entries ->
  Forall not_aux (PrintTotalStats_loop entries ans).1.
Proof.
  induction entries as [|[name info] entries IH]; intros ans Hall.
  - constructor.
  - apply Forall_cons in Hall as [Hinfo Hall]. cbn [snd] in Hinfo.
    cbn [PrintTotalStats_loop].
    destruct ans.
    + specialize (IH true Hall).
      destruct (PrintTotalStats_loop entries true) as [log' ans'].
      exact IH.
    + unfold Info_PrintTotalStats. cbv zeta. rewrite Hinfo, Feq_0_0.
      specialize (IH (Fne (tot_weight info) Fzero) Hall).
      destruct (PrintTotalStats_loop entries _) as [log' ans'].
      cbn [fst app] in *. repeat constructor. exact IH.
Qed.

(** X20.  [ProcessOutputs] always calls [UpdateStats] without the
    auxiliary objective, so the auxiliary totals never leave zero: starting
    from a table whose records have zero auxiliary totals (the table the
    constructor makes is empty), a call of [Train] that returns leaves such
    a table, none of its messages is the two-objective form of a phase
    report, and [PrintTotalStats] on the trainer it returns prints the
    one-objective form of the overall average for every output. *)
Theorem Train_never_reports_aux (t : NnetTrainer) (eg : NnetExample)
    (t' : NnetTrainer) (log : list LogEvent) :
  no_aux (objf_info_ t) ->
  Train t eg = Ok (t', log) ->
  no_aux (objf_info_ t') /\
  Forall (fun ev => is_aux_event ev = false) log /\
  Forall (fun ev => is_aux_event ev = false) (PrintTotalStats t').1.
Proof.
  intros Htable Ht.
  assert (Hboth : no_aux (objf_info_ t') /\ Forall not_aux log).
  { unfold Train in Ht. inv_bind Ht.
    unfold ProcessOutputs in Hstep.
    apply process_ios_no_aux in Hstep as [Ht' Hlog];
      [|split; [exact Htable|constructor]].
    destruct (delta_nnet_ (ps_trainer a)) as [d|].
    - destruct (update_rule _ _ _) as [[nnet' delta'] log'] eqn:Hrule.
      injection Ht as <- <-. cbn [objf_info_]. split; [exact Ht'|].
      apply Forall_app. split; [exact Hlog|].
      eapply update_rule_no_aux. exact Hrule.
    - injection Ht as <- <-. cbn [objf_info_]. split; assumption. }
  destruct Hboth as [Ht' Hlog]. split; [exact Ht'|]. split; [exact Hlog|].
  unfold PrintTotalStats, PrintTotalStats_in.
  apply PrintTotalStats_loop_no_aux.
  apply Forall_forall. intros [name info] Hin. cbn [snd].
  apply elem_of_map_to_list in Hin. exact (proj1 (Ht' name info Hin)).
Qed.

End NoAux.
Section NoAuxInstances.
Local Existing Instance sample_compression.
Local Existing Instance sample_parser.

Lemma Train_never_reports_aux_witness :
  let ex := sample_executor [[Fin 3]] Fone in
  let t := mkNnetTrainer (sample_config Fzero Fzero true "") sample_nnet
             None 0 ∅ ∅ in
  exists t' log,
    @Train _ ex t sample_eg2 = Ok (t', log) /\
    no_aux (objf_info_ t') /\
    Forall (fun ev => is_aux_event ev = false) log /\
    Forall (fun ev => is_aux_event ev = false) (PrintTotalStats t').1.
Proof.
  intros ex t.
  destruct (@Train _ ex t sample_eg2) as [[t' log]|msg] eqn:Ht.
  - exists t', log. split; [reflexivity|].
    apply (@Train_never_reports_aux _ ex t sample_eg2 t' log); [|exact Ht].
    intros name info Hin. unfold t in Hin. cbn [objf_info_] in Hin.
    rewrite lookup_empty in Hin. discriminate Hin.
  - exfalso. revert Ht. vm_compute. resolve_R. discriminate.
Defined.

End NoAuxInstances.

(** ** The two scales of a regularizer output *)

Section RegularizerScale.
Context `{Compression} `{!Executor}.

Lemma process_regularizer_scales io obj_type scale st st' :
  let t := ps_trainer st in
  let reg_name := io_name io +:+ "-reg" in
  let reg_output := GetOutput (ps_computer st) reg_name in
  let prev := default ObjectiveFunctionInfo_new (objf_info_ t !! reg_name) in
  process_regularizer io obj_type scale st = Ok st' ->
  add_regularizer (config_ t) = true ->
  (0 <= GetNodeIndex (nnet_ t) reg_name)%Z ->
  exists r d weighted info',
    ComputeRegularizer obj_type reg_name reg_output
      (Some (NewMatrix (NumRows reg_output) (NumCols reg_output) Fzero))
      = Ok r /\
    res_output_deriv r = Some d /\
    (if apply_deriv_weights (config_ t) &&
        bool_decide (length (io_deriv_weights io) <> 0%nat)
     then MulRowsVec (io_deriv_weights io) d else Ok d) = Ok weighted /\
    computer_output_derivs (ps_computer st') =
      computer_output_derivs (ps_computer st) ++
      [(reg_name,
        Scale (default Fone (objective_scales_ t !! reg_name)) weighted)] /\
    objf_info_ (ps_trainer st') !! reg_name = Some info' /\
    tot_weight info' = Fadd (tot_weight prev) (res_tot_weight r) /\
    tot_objf info' = Fadd (tot_objf prev) (Fmul (res_tot_objf r) scale).
Proof.
  cbv zeta. intros Hp Hadd Hidx.
  unfold process_regularizer in Hp. rewrite Hadd in Hp.
  rewrite bool_decide_eq_true_2 in Hp by exact Hidx.
  inv_bind Hp.
  assert (Hscale :
    match objective_scales_ (ps_trainer st) !! (io_name io +:+ "-reg") with
    | Some s => s
    | None => Fone
    end = default Fone (objective_scales_ (ps_trainer st)
                          !! (io_name io +:+ "-reg"))).
  { destruct (objective_scales_ (ps_trainer st) !! _); reflexivity. }
  rewrite Hscale in Hp.
  inv_bind Hp.
  destruct (ComputeRegularizer_deriv_some _ _ _ _ _ Hstep0) as [d Hd].
  rewrite Hd in Hp. inv_bind Hp.
  unfold accept_deriv in Hstep1. inv_bind Hstep1.
  injection Hstep1 as <-. rewrite Scale_unless_one in Hp.
  pose proof (update_stats_counter _ _ _ _ _ Hp) as [_ Hc].
  apply update_stats_totals in Hp as (info' & Hins & Hw & Ho).
  cbn [ps_trainer ps_computer] in Hins, Hw, Ho, Hc.
  exists a0, d, a2, info'.
  split; [reflexivity|]. split; [exact Hd|]. split; [exact Hstep2|].
  split; [|split; [|split; assumption]].
  - rewrite Hc. reflexivity.
  - rewrite Hins. apply lookup_insert_eq.
Qed.

(** X21.  When the loop body for an output entry also processes the
    regularizer output ["<output>-reg"], two different scales are used for
    it: the derivative handed to the computer for ["<output>-reg"], the
    second one of the body, is the derivative of [ComputeRegularizer],
    multiplied row by row by the derivative weights when those apply, times
    the scale-map entry of ["<output>-reg"] (1 when it has none), whereas
    the objective added to the statistics of ["<output>-reg"] is the
    regularizer's objective times the scale of the output [io] itself; the
    weight added is not scaled. *)
Theorem process_io_regularizer_scales (io : NnetIo) (st st' : ProcessState) :
  let t := ps_trainer st in
  let reg_name := io_name io +:+ "-reg" in
  let obj_type := GetObjectiveType (nnet_ t) (GetNodeIndex (nnet_ t) (io_name io)) in
  let scale := default Fone (objective_scales_ t !! io_name io) in
  let regularizer_scale := default Fone (objective_scales_ t !! reg_name) in
  let reg_output := GetOutput (ps_computer st) reg_name in
  let prev := default ObjectiveFunctionInfo_new (objf_info_ t !! reg_name) in
  process_io io st = Ok st' ->
  IsOutputNode (nnet_ t) (GetNodeIndex (nnet_ t) (io_name io)) = true ->
  add_regularizer (config_ t) = true ->
  (0 <= GetNodeIndex (nnet_ t) reg_name)%Z ->
  exists r d weighted info',
    ComputeRegularizer obj_type reg_name reg_output
      (Some (NewMatrix (NumRows reg_output) (NumCols reg_output) Fzero))
      = Ok r /\
    res_output_deriv r = Some d /\
    (if apply_deriv_weights (config_ t) &&
        bool_decide (length (io_deriv_weights io) <> 0%nat)
     then MulRowsVec (io_deriv_weights io) d else Ok d) = Ok weighted /\
    computer_output_derivs (ps_computer st') !!
      S (length (computer_output_derivs (ps_computer st))) =
      Some (reg_name, Scale regularizer_scale weighted) /\
    objf_info_ (ps_trainer st') !! reg_name = Some info' /\
    tot_weight info' = Fadd (tot_weight prev) (res_tot_weight r) /\
    tot_objf info' = Fadd (tot_objf prev) (Fmul (res_tot_objf r) scale).
Proof.
  cbv zeta. intros Hp Hout Hadd Hidx.
  unfold process_io in Hp. inv_bind Hp. rewrite Hout in Hp.
  assert (Hscale : match objective_scales_ (ps_trainer st) !! io_name io with
                   | Some s => s
                   | None => Fone
                   end = default Fone (objective_scales_ (ps_trainer st)
                                         !! io_name io)).
  { destruct (objective_scales_ (ps_trainer st) !! io_name io); reflexivity. }
  rewrite Hscale in Hp.
  inv_bind Hp.
  destruct (ComputeObjectiveFunction_deriv_some _ _ _ _ _ _ Hstep0) as [d0 Hd0].
  rewrite Hd0 in Hp. inv_bind Hp.
  pose proof (accept_deriv_same _ _ _ _ _ _ _ Hstep1) as [Hcn Hce].
  pose proof (accept_deriv_length _ _ _ _ _ _ _ Hstep1) as Hlen.
  inv_bind Hp.
  pose proof (update_stats_same_model _ _ _ _ _ Hstep2)
    as (Hcfg & Hnn & _ & Hsc & _).
  pose proof (update_stats_counter _ _ _ _ _ Hstep2) as [_ Hc].
  apply update_stats_totals in Hstep2 as (info0 & Hins & _).
  cbn [ps_trainer ps_computer] in Hcfg, Hnn, Hsc, Hc, Hins.
  apply process_regularizer_scales in Hp;
    [|rewrite Hcfg; exact Hadd|rewrite Hnn; exact Hidx].
  cbv zeta in Hp.
  destruct Hp as (r & d & weighted & info' & Hr & Hd & Hweighted & Hderivs &
                  Hinfo & Hw & Ho).
  rewrite Hcfg in Hweighted. rewrite Hsc in Hderivs.
  rewrite Hc in Hr, Hderivs.
  assert (Hprev : objf_info_ (ps_trainer a2) !! (io_name io +:+ "-reg") =
                  objf_info_ (ps_trainer st) !! (io_name io +:+ "-reg")).
  { rewrite Hins. apply lookup_insert_ne.
    intros Heq. symmetry in Heq. exact (reg_name_neq _ Heq). }
  rewrite Hprev in Hw, Ho.
  assert (Hout' : GetOutput a1 (io_name io +:+ "-reg") =
                  GetOutput (ps_computer st) (io_name io +:+ "-reg")).
  { unfold GetOutput. rewrite Hcn, Hce. reflexivity. }
  rewrite Hout' in Hr.
  exists r, d, weighted, info'.
  split; [exact Hr|]. split; [exact Hd|]. split; [exact Hweighted|].
  split; [|split; [exact Hinfo|split; assumption]].
  rewrite Hderivs. rewrite lookup_app_r by lia.
  rewrite Hlen, Nat.sub_diag. reflexivity.
Qed.

End RegularizerScale.
Lemma process_io_regularizer_scales_witness :
  let ex := sample_executor [[Fin 3]] Fone in
  let t := mkNnetTrainer (sample_config Fzero Fzero true "") sample_nnet
             None 0 ∅ (<["output" := Fin 2]> ∅) in
  let st := @mkProcessState sample_compression t
              (@mkNnetComputer sample_compression sample_nnet sample_eg []) [] in
  exists st' r d weighted info',
    @process_io sample_compression ex (sample_io "output") st = Ok st' /\
    res_output_deriv r = Some d /\
    Ok d = Ok weighted /\
    computer_output_derivs (ps_computer st') !! 1%nat =
      Some ("output-reg", Scale Fone weighted) /\
    objf_info_ (ps_trainer st') !! "output-reg" = Some info' /\
    tot_objf info' = Fadd Fzero (Fmul (res_tot_objf r) (Fin 2)).
Proof.
  intros ex t st.
  destruct (@process_io sample_compression ex (sample_io "output") st)
    as [st'|msg] eqn:Hp.
  - destruct (@process_io_regularizer_scales sample_compression ex
                (sample_io "output") st st' Hp eq_refl eq_refl)
      as (r & d & weighted & info' & _ & Hd & Hw & Hderiv & Hinfo & _ & Ho).
    { vm_compute. discriminate. }
    exists st', r, d, weighted, info'.
    split; [reflexivity|]. split; [exact Hd|]. split; [exact Hw|].
    split; [exact Hderiv|]. split; [exact Hinfo | exact Ho].
  - exfalso. revert Hp. vm_compute. resolve_R. discriminate.
Defined.
